(** * nr-find-log4j: the paginated inventory scan of [nr-find-lib.js]

    A shallow embedding of the scan engine of [src/nr-find-lib.js]
    (transport with one retry, directory builder, the two enrichers and
    the reporter) and the properties of its specification.

    Conventions of the embedding.
    - A JavaScript value that may be missing is a [nullable]:
      [undefined], [null] or a value.  Truthiness and template-literal
      interpolation are written out per type.
    - The nesting of a response (which object has which fields) follows the
      GraphQL documents in [QUERIES]; every level that the script tests or
      dereferences is an [option] ([None]: the field is missing or null).
      Elements of JSON arrays are objects of the queried type.
    - The process is a state of the [STATE] object, the scripted replies
      of the remote endpoint, and the events emitted so far (requests,
      console writes, files); a computation maps it to an outcome and a
      new process state.
    - [state.applications] is a JavaScript object used as a dictionary:
      an association list in insertion order, which is the enumeration
      order of [Object.values] for keys that are not array indices; a
      guid is assumed to be neither an array index nor the name of a
      property inherited from [Object.prototype].  [findServices] is its
      first writer, so the dictionary that is still [undefined] and the
      empty dictionary of [state.applications || {}] are the same list.
    - The two [while] loops follow the cursors of the endpoint and end
      when it sends none; they take a bound [fuel] on their iterations
      and end in [OutOfFuel] when it is used up.
    - The console dialogue that fills [STATE] before the scan
      ([requestLibraryName], [requestRegion], [requestApiKey],
      [fetchAccountIds]) is not part of the embedding: a run starts from
      a filled [STATE]. *)

From Stdlib Require Import String Ascii List Bool ZArith Lia Arith.
From Stdlib Require Import DecimalString DecimalZ.
Import ListNotations.
Open Scope string_scope.

Set Implicit Arguments.

(* ================================================================== *)
(** ** JavaScript primitives *)
(* ================================================================== *)

Module Js.

Inductive nullable (A : Type) : Type :=
| undefined
| null
| val (a : A).
Arguments undefined {A}.
Arguments null {A}.
Arguments val {A} a.

(** A JavaScript number as far as the script uses one: an integer or NaN.
    The integer is exact; it is the JavaScript number as long as its
    magnitude is below 2^53. *)
Inductive number : Type :=
| NaN
| Num (z : Z).

Definition truthy_string (s : string) : bool :=
  negb (String.eqb s EmptyString).

Definition truthy_number (n : number) : bool :=
  match n with
  | NaN => false
  | Num z => negb (Z.eqb z 0)
  end.

Definition truthy {A : Type} (t : A -> bool) (x : nullable A) : bool :=
  match x with
  | val a => t a
  | _ => false
  end.

Definition string_of_Z (z : Z) : string :=
  NilZero.string_of_int (Z.to_int z).

Definition string_of_number (n : number) : string :=
  match n with
  | NaN => "NaN"
  | Num z => string_of_Z z
  end.

(** [`${x}`] *)
Definition interp {A : Type} (f : A -> string) (x : nullable A) : string :=
  match x with
  | undefined => "undefined"
  | null => "null"
  | val a => f a
  end.

Definition id_string (s : string) : string := s.

(** [hay.includes(needle)] *)
Fixpoint includes (hay needle : string) : bool :=
  String.prefix needle hay
  || match hay with
     | EmptyString => false
     | String _ rest => includes rest needle
     end.

(** [argv.includes(flag)] *)
Definition array_includes (l : list string) (x : string) : bool :=
  existsb (String.eqb x) l.

(** [s.split(sep)] for a one-character separator. *)
Fixpoint split_on (sep : ascii) (s : string) : list string :=
  match s with
  | EmptyString => [EmptyString]
  | String c rest =>
      if Ascii.eqb c sep then EmptyString :: split_on sep rest
      else match split_on sep rest with
           | [] => [String c EmptyString]
           | w :: ws => String c w :: ws
           end
  end.

(** [arr.join(sep)] of strings. *)
Fixpoint join (sep : string) (l : list string) : string :=
  match l with
  | [] => EmptyString
  | [x] => x
  | x :: rest => x ++ sep ++ join sep rest
  end.

(** [[... new Set(vals)]]: first occurrences, in order. *)
Fixpoint dedup (l : list string) (seen : list string) : list string :=
  match l with
  | [] => []
  | x :: rest =>
      if existsb (String.eqb x) seen then dedup rest seen
      else x :: dedup rest (x :: seen)
  end.

Definition chr (n : nat) : string := String (ascii_of_nat n) EmptyString.
Definition BS : string := chr 8.
Definition TAB : string := chr 9.
Definition LF : string := chr 10.
Definition CR : string := chr 13.

(** *** [parseInt(s)] with no radix *)

Definition is_white (c : ascii) : bool :=
  let n := nat_of_ascii c in
  (Nat.eqb n 9 || Nat.eqb n 10 || Nat.eqb n 11 || Nat.eqb n 12
   || Nat.eqb n 13 || Nat.eqb n 32 || Nat.eqb n 160)%bool.

Fixpoint trim_start (s : string) : string :=
  match s with
  | String c rest => if is_white c then trim_start rest else s
  | EmptyString => s
  end.

Definition digit_value (radix : Z) (c : ascii) : option Z :=
  (let n := Z.of_nat (nat_of_ascii c) in
   let d :=
     if (48 <=? n) && (n <=? 57) then Some (n - 48)
     else if (97 <=? n) && (n <=? 122) then Some (n - 87)
     else if (65 <=? n) && (n <=? 90) then Some (n - 55)
     else None in
   match d with
   | Some v => if v <? radix then Some v else None
   | None => None
   end)%Z.

(** The longest prefix of digits, read from the left; [None] when the
    first character is not a digit. *)
Fixpoint digits_prefix (radix : Z) (s : string) (acc : option Z) : option Z :=
  match s with
  | EmptyString => acc
  | String c rest =>
      match digit_value radix c with
      | Some v =>
          digits_prefix radix rest
            (Some (match acc with Some a => a * radix + v | None => v end)%Z)
      | None => acc
      end
  end.

Definition strip_hex_prefix (s : string) : option string :=
  match s with
  | String "0" (String "x" rest) => Some rest
  | String "0" (String "X" rest) => Some rest
  | _ => None
  end.

Definition parseInt_string (s : string) : number :=
  let s1 := trim_start s in
  let '(sign, s2) :=
    match s1 with
    | String "-" rest => ((-1)%Z, rest)
    | String "+" rest => (1%Z, rest)
    | _ => (1%Z, s1)
    end in
  let '(radix, s3) :=
    match strip_hex_prefix s2 with
    | Some rest => (16%Z, rest)
    | None => (10%Z, s2)
    end in
  match digits_prefix radix s3 None with
  | Some v => Num (sign * v)
  | None => NaN
  end.

(** [parseInt(x)]: the argument is converted to a string first. *)
Definition parseInt (x : nullable string) : number :=
  parseInt_string (interp id_string x).

(** [arr[i]] on an array of strings. *)
Definition index (l : list string) (i : nat) : nullable string :=
  match nth_error l i with
  | Some s => val s
  | None => undefined
  end.

End Js.
Import Js.


(* ================================================================== *)
(** ** Errors, responses and records *)
(* ================================================================== *)

(** An exception object, as far as [handleNetworkError] looks at it:
    its [code] property and the result of [toString()]. *)
Inductive errcode : Type :=
| code_undefined
| code_number (n : Z)
| code_string (s : string).

Record JsError : Type := {
  err_code : errcode;
  err_toString : string
}.

Definition TypeError (msg : string) : JsError :=
  {| err_code := code_undefined; err_toString := "TypeError: " ++ msg |}.

Definition SyntaxError (msg : string) : JsError :=
  {| err_code := code_undefined; err_toString := "SyntaxError: " ++ msg |}.

(** *** The response documents, one record per selection set of [QUERIES] *)

(** [entities { ... on ApmApplicationEntityOutline { guid name applicationId
    accountId reporting } }] *)
Record Entity : Type := {
  e_guid : nullable string;
  e_name : nullable string;
  e_applicationId : nullable Z;
  e_accountId : nullable Z;
  e_reporting : nullable bool
}.

Record Results : Type := {
  nextCursor : nullable string;
  entities : option (list Entity)
}.

Record EntitySearch : Type := {
  count : nullable Z;
  results : option Results
}.

Record Attribute : Type := {
  attr_name : nullable string;
  attr_value : nullable string
}.

Record Module : Type := {
  mod_name : nullable string;
  mod_version : nullable string;
  mod_attributes : option (list Attribute)
}.

Record Instance : Type := {
  modules : option (list Module)
}.

Record RunningAgentVersions : Type := {
  maxVersion : nullable string;
  minVersion : nullable string
}.

(** [entity(guid: $entityGuid) { ... }]: the fields the script reads. *)
Record EntityData : Type := {
  applicationInstances : option (list Instance);
  runningAgentVersions : option RunningAgentVersions
}.

Record Details : Type := {
  d_name : nullable string;
  d_host : nullable string
}.

Record ModuleResult : Type := {
  details : option Details;
  loadedModules : option (list Module);
  applicationGuids : option (list string)
}.

Record AccountModules : Type := {
  am_nextCursor : nullable string;
  am_results : option (list ModuleResult)
}.

Record AgentEnvironment : Type := {
  ae_modules : option AccountModules
}.

Record Account : Type := {
  agentEnvironment : option AgentEnvironment
}.

Record Actor : Type := {
  entitySearch : option EntitySearch;
  entity : option EntityData;
  account : option Account
}.

Record Data : Type := {
  actor : option Actor
}.

(** What [JSON.parse(body)] yields.  [errors] holds [JSON.stringify] of a
    truthy [errors] member, [data] a truthy [data] member.  A parsed
    document that is not an object and not null has neither member and
    is [resp_object None None]. *)
Inductive Response : Type :=
| resp_null
| resp_object (errors : option string) (data : option Data).

(** How one HTTPS exchange ends: the request emits ['error'], or the
    response ends with a body, which then parses ([Some]) or not. *)
Inductive Attempt : Type :=
| net_error (err : JsError)
| http_body (parsed : option Response).

(** *** The record of one service, an entry of [state.applications] *)

Record Application : Type := {
  guid : nullable string;
  name : nullable string;
  applicationId : nullable number;
  accountId : nullable Z;
  reporting : nullable bool;
  nrUrl : nullable string;
  agentVersion : nullable string;
  examinedInstances : nullable Z;
  library : nullable string;
  libraryVersion : nullable string;
  librarySha1 : nullable string;
  librarySha512 : nullable string
}.

Definition set_agentVersion (v : nullable string) (a : Application) : Application :=
  {| guid := guid a; name := name a; applicationId := applicationId a;
     accountId := accountId a; reporting := reporting a; nrUrl := nrUrl a;
     agentVersion := v; examinedInstances := examinedInstances a;
     library := library a; libraryVersion := libraryVersion a;
     librarySha1 := librarySha1 a; librarySha512 := librarySha512 a |}.

Definition set_examinedInstances (v : nullable Z) (a : Application) : Application :=
  {| guid := guid a; name := name a; applicationId := applicationId a;
     accountId := accountId a; reporting := reporting a; nrUrl := nrUrl a;
     agentVersion := agentVersion a; examinedInstances := v;
     library := library a; libraryVersion := libraryVersion a;
     librarySha1 := librarySha1 a; librarySha512 := librarySha512 a |}.

Definition set_library (v : nullable string) (a : Application) : Application :=
  {| guid := guid a; name := name a; applicationId := applicationId a;
     accountId := accountId a; reporting := reporting a; nrUrl := nrUrl a;
     agentVersion := agentVersion a; examinedInstances := examinedInstances a;
     library := v; libraryVersion := libraryVersion a;
     librarySha1 := librarySha1 a; librarySha512 := librarySha512 a |}.

Definition set_libraryVersion (v : nullable string) (a : Application) : Application :=
  {| guid := guid a; name := name a; applicationId := applicationId a;
     accountId := accountId a; reporting := reporting a; nrUrl := nrUrl a;
     agentVersion := agentVersion a; examinedInstances := examinedInstances a;
     library := library a; libraryVersion := v;
     librarySha1 := librarySha1 a; librarySha512 := librarySha512 a |}.

Definition set_librarySha1 (v : nullable string) (a : Application) : Application :=
  {| guid := guid a; name := name a; applicationId := applicationId a;
     accountId := accountId a; reporting := reporting a; nrUrl := nrUrl a;
     agentVersion := agentVersion a; examinedInstances := examinedInstances a;
     library := library a; libraryVersion := libraryVersion a;
     librarySha1 := v; librarySha512 := librarySha512 a |}.

Definition set_librarySha512 (v : nullable string) (a : Application) : Application :=
  {| guid := guid a; name := name a; applicationId := applicationId a;
     accountId := accountId a; reporting := reporting a; nrUrl := nrUrl a;
     agentVersion := agentVersion a; examinedInstances := examinedInstances a;
     library := library a; libraryVersion := libraryVersion a;
     librarySha1 := librarySha1 a; librarySha512 := v |}.

(** *** A JavaScript object used as a dictionary *)

Module Obj.
Section Dict.
Variable V : Type.

Definition t : Type := list (string * V).

(** [obj[k]] *)
Fixpoint get (k : string) (o : t) : option V :=
  match o with
  | [] => None
  | (k', v) :: rest => if String.eqb k k' then Some v else get k rest
  end.

(** [obj[k] = v]: an existing property keeps its place, a new one goes
    last. *)
Fixpoint set (k : string) (v : V) (o : t) : t :=
  match o with
  | [] => [(k, v)]
  | (k', v') :: rest =>
      if String.eqb k k' then (k', v) :: rest else (k', v') :: set k v rest
  end.

(** [Object.keys(obj)] and [Object.values(obj)] *)
Definition keys (o : t) : list string := map fst o.
Definition values (o : t) : list V := map snd o.

End Dict.
End Obj.

(** *** The [STATE] object *)

Record State : Type := {
  apiKey : string;
  accountIds : list (nullable Z);
  region : string;
  libraryName : string;
  applications : Obj.t Application;
  scanStarted : Z;
  scanCompleted : nullable Z;
  scanDurationSec : nullable Z
}.

Definition set_applications (m : Obj.t Application) (s : State) : State :=
  {| apiKey := apiKey s; accountIds := accountIds s; region := region s;
     libraryName := libraryName s; applications := m;
     scanStarted := scanStarted s; scanCompleted := scanCompleted s;
     scanDurationSec := scanDurationSec s |}.

Definition set_scanCompleted (t d : Z) (s : State) : State :=
  {| apiKey := apiKey s; accountIds := accountIds s; region := region s;
     libraryName := libraryName s; applications := applications s;
     scanStarted := scanStarted s; scanCompleted := val t;
     scanDurationSec := val d |}.

(** *** Requests and other observable events *)

Inductive Query : Type :=
| accessibleAccounts
| getServices
| getMoreServices
| getModulesInEntity
| getModulesInAccount
| getMoreModulesInAccount.

(** The [variables] object of a request. *)
Inductive Variables : Type :=
| vars_none
| vars_cursor (cursor : string)
| vars_entity (entityGuid : nullable string) (libraryName : string)
| vars_account (accountId : nullable Z) (libraryName : string)
| vars_account_cursor (accountId : nullable Z) (cursor : string)
                      (libraryName : string).

(** What is handed to [fs.writeFileSync]: [JSON.stringify(apps, null, 2)]
    stays symbolic, [toCSV] is computed. *)
Inductive FileContent : Type :=
| json_of (apps : list Application)
| csv_text (text : string).

Inductive Event : Type :=
| Request (key : string) (query : Query) (variables : Variables)
| Stdout (text : string)
| Stderr (text : string)
| WriteFile (path : string) (content : FileContent).

Definition is_request (e : Event) : bool :=
  match e with
  | Request _ _ _ => true
  | _ => false
  end.

(** *** The running process *)

Record Process : Type := {
  state : State;
  replies : list Attempt;     (* what the endpoint will answer, in order *)
  events : list Event;        (* oldest first *)
  argv : list string;
  clock : list Z              (* successive readings of the clock, in ms *)
}.

Definition with_state (s : State) (p : Process) : Process :=
  {| state := s; replies := replies p; events := events p;
     argv := argv p; clock := clock p |}.

Definition with_replies (r : list Attempt) (p : Process) : Process :=
  {| state := state p; replies := r; events := events p;
     argv := argv p; clock := clock p |}.

Definition with_event (e : Event) (p : Process) : Process :=
  {| state := state p; replies := replies p; events := events p ++ [e];
     argv := argv p; clock := clock p |}.

Definition with_clock (c : list Z) (p : Process) : Process :=
  {| state := state p; replies := replies p; events := events p;
     argv := argv p; clock := c |}.

Definition requests (p : Process) : list Event :=
  filter is_request (events p).

(** How a computation ends.  [Throw] is an exception in flight, which a
    [try] catches; the others end the run: [Exit] is [process.exit],
    [Uncaught] an exception thrown by an event listener outside every
    promise and every [try], [Pending] an awaited promise that never
    settles, [OutOfFuel] a loop cut off by the bound of the embedding. *)
Inductive Outcome (A : Type) : Type :=
| Ret (a : A)
| Throw (e : JsError)
| Exit (code : Z)
| Uncaught (e : JsError)
| Pending
| OutOfFuel.
Arguments Ret {A} a.
Arguments Throw {A} e.
Arguments Exit {A} code.
Arguments Uncaught {A} e.
Arguments Pending {A}.
Arguments OutOfFuel {A}.

Definition Proc (A : Type) : Type := Process -> Outcome A * Process.

Definition ret {A : Type} (a : A) : Proc A := fun p => (Ret a, p).

Definition bind {A B : Type} (c : Proc A) (k : A -> Proc B) : Proc B :=
  fun p =>
    match c p with
    | (Ret a, p') => k a p'
    | (Throw e, p') => (Throw e, p')
    | (Exit n, p') => (Exit n, p')
    | (Uncaught e, p') => (Uncaught e, p')
    | (Pending, p') => (Pending, p')
    | (OutOfFuel, p') => (OutOfFuel, p')
    end.

Declare Scope proc_scope.
Delimit Scope proc_scope with proc.
Notation "x <- c ;; k" := (bind c (fun x => k))
  (at level 61, c at next level, right associativity) : proc_scope.
Notation "c ;; k" := (bind c (fun _ => k))
  (at level 61, right associativity) : proc_scope.
Open Scope proc_scope.

Definition throw {A : Type} (e : JsError) : Proc A := fun p => (Throw e, p).

(** [try { c } catch (err) { h err }] *)
Definition try_catch {A : Type} (c : Proc A) (h : JsError -> Proc A) : Proc A :=
  fun p =>
    match c p with
    | (Throw e, p') => h e p'
    | r => r
    end.

Definition process_exit {A : Type} (code : Z) : Proc A :=
  fun p => (Exit code, p).

Definition emit (e : Event) : Proc unit :=
  fun p => (Ret tt, with_event e p).

Definition stdout_write (s : string) : Proc unit := emit (Stdout s).
Definition stderr_write (s : string) : Proc unit := emit (Stderr s).

Definition get_state : Proc State := fun p => (Ret (state p), p).

Definition modify_state (f : State -> State) : Proc unit :=
  fun p => (Ret tt, with_state (f (state p)) p).

Definition get_argv : Proc (list string) := fun p => (Ret (argv p), p).

(** [Date.now()]: the next reading of the clock. *)
Definition Date_now : Proc Z :=
  fun p =>
    match clock p with
    | [] => (Ret 0%Z, p)
    | t :: rest => (Ret t, with_clock rest p)
    end.

(** [for (const x of l) { body x }] *)
Fixpoint for_of {A : Type} (l : list A) (body : A -> Proc unit) : Proc unit :=
  match l with
  | [] => ret tt
  | x :: rest => body x ;; for_of rest body
  end.

(** Dereferencing a member that may be missing: [o.f] on [undefined] or
    [null] throws a [TypeError]. *)
Definition deref {A : Type} (o : option A) (msg : string) : Proc A :=
  match o with
  | Some a => ret a
  | None => throw (TypeError msg)
  end.

(* ================================================================== *)
(** ** The program *)
(* ================================================================== *)

Definition CERT_ERROR_HELP : string :=
  LF ++ LF ++
  "Uh oh, I think you're behind an HTTPS proxy with a self-signed or internal" ++ LF ++
  "certificate, which can cause Node.js requests to the New Relic API to fail." ++ LF ++
  LF ++
  "CAUTION: Someone could be maliciously intercepting your network traffic." ++ LF ++
  LF ++
  "If you're sure this is a trusted proxy, you can work around this issue" ++ LF ++
  "in two ways:" ++ LF ++
  LF ++
  "1. Recommended: Set NODE_EXTRA_CA_CERTS environment variable to reference" ++ LF ++
  "a PEM file containing your proxy's certificate chain:" ++ LF ++
  TAB ++ "NODE_EXTRA_CA_CERTS=proxy-ca-root-cert.pem node nr-find-log4j.js" ++ LF ++
  LF ++
  "2. Unadvisable: Set NODE_TLS_REJECT_UNAUTHORIZED=0 environment variable to" ++ LF ++
  "disable SSL certificate validation." ++ LF ++
  LF ++
  "See the Node.js docs for help: https://nodejs.org/api/cli.html" ++ LF ++
  LF.

(** *** Transport *)

(** [err.code === 18 || err.code === 19 ||
     errString.includes("self signed certificate")] *)
Definition is_cert_error (err : JsError) : bool :=
  match err_code err with
  | code_number n => Z.eqb n 18 || Z.eqb n 19
  | _ => false
  end
  || includes (err_toString err) "self signed certificate".

Definition handleNetworkError (err : JsError) : Proc unit :=
  let errString := err_toString err in
  if is_cert_error err then
    stderr_write CERT_ERROR_HELP ;;
    process_exit 5
  else
    stderr_write (LF ++ "Exception processing API call: " ++ errString ++ LF).

(** One HTTPS exchange.  The request is written; then either ['error']
    rejects the promise, or ['end'] runs [resolve(JSON.parse(body))].  The
    ['end'] listener runs from the event loop, so a [SyntaxError] of
    [JSON.parse] is not a rejection: nothing catches it and the promise
    never settles.  With no reply left the promise stays pending. *)
Definition buildRequestPromise (key : string) (payload : Query * Variables)
  : Proc Response :=
  fun p =>
    let p1 := with_event (Request key (fst payload) (snd payload)) p in
    match replies p1 with
    | [] => (Pending, p1)
    | a :: rest =>
        let p2 := with_replies rest p1 in
        match a with
        | net_error err => (Throw err, p2)
        | http_body (Some response) => (Ret response, p2)
        | http_body None =>
            (Uncaught (SyntaxError "Unexpected token in JSON"), p2)
        end
    end.

(** [response.errors] and [response.data] *)
Definition response_errors (response : Response) : Proc (option string) :=
  match response with
  | resp_null =>
      throw (TypeError "Cannot read properties of null (reading 'errors')")
  | resp_object errors _ => ret errors
  end.

Definition response_data (response : Response) : Proc (option Data) :=
  match response with
  | resp_null =>
      throw (TypeError "Cannot read properties of null (reading 'data')")
  | resp_object _ data => ret data
  end.

(** The two [try] blocks of [nerdgraphQuery].  Each yields [Some data]
    when it returns from the function and [None] when control falls out
    of it. *)
Definition nerdgraphQuery_first (key : string) (payload : Query * Variables)
  : Proc (option Data) :=
  try_catch
    (response <- buildRequestPromise key payload ;;
     errors <- response_errors response ;;
     match errors with
     | Some text =>
         stderr_write (LF ++ "Error returned from API: " ++ text ++ LF)
     | None => ret tt
     end ;;
     response_data response)
    (fun err => handleNetworkError err ;; ret None).

Definition nerdgraphQuery_retry (key : string) (payload : Query * Variables)
  : Proc (option Data) :=
  try_catch
    (response <- buildRequestPromise key payload ;;
     response_data response)
    (fun err => handleNetworkError err ;; ret None).

(** [nerdgraphQuery(apiKey, query, variables)]; [None] is [undefined]. *)
Definition nerdgraphQuery (key : string) (query : Query) (variables : Variables)
  : Proc (option Data) :=
  let payload := (query, variables) in
  first <- nerdgraphQuery_first key payload ;;
  match first with
  | Some data => ret (Some data)
  | None =>
      second <- nerdgraphQuery_retry key payload ;;
      match second with
      | Some data => ret (Some data)
      | None => ret None
      end
  end.

(** *** Helpers: [concatNoneOrMore], CSV *)

Definition present (v : nullable string) : list string :=
  match v with
  | val s => if String.eqb s EmptyString then [] else [s]
  | _ => []
  end.

Definition concatNoneOrMore (a b c d e f : nullable string) : string :=
  let vals := flat_map present [a; b; c; d; e; f] in
  join "," (dedup vals []).

Definition DQ : string := chr 34.

(** [s.replace] of every double quote by two of them. *)
Fixpoint double_quotes (s : string) : string :=
  match s with
  | EmptyString => EmptyString
  | String c rest =>
      if Ascii.eqb c (ascii_of_nat 34)
      then String c (String c (double_quotes rest))
      else String c (double_quotes rest)
  end.

(** [escapeCsv(s)] followed by the conversion to text of [join]. *)
Definition escapeCsv (s : nullable string) : string :=
  match s with
  | val s =>
      if includes s "," then DQ ++ double_quotes s ++ DQ else s
  | _ => EmptyString
  end.

Definition escapeCsv_num {A : Type} (f : A -> string) (n : nullable A) : string :=
  match n with
  | val n => f n
  | _ => EmptyString
  end.

Definition columns : list string :=
  ["accountId"; "applicationId"; "name"; "agentVersion"; "examinedInstances";
   "library"; "libraryVersion"; "librarySha1"; "librarySha512"; "nrUrl"].

Definition csv_row (row : Application) : string :=
  join ","
    [escapeCsv_num string_of_Z (accountId row);
     escapeCsv_num string_of_number (applicationId row);
     escapeCsv (name row);
     escapeCsv (agentVersion row);
     escapeCsv_num string_of_Z (examinedInstances row);
     escapeCsv (library row);
     escapeCsv (libraryVersion row);
     escapeCsv (librarySha1 row);
     escapeCsv (librarySha512 row);
     escapeCsv (nrUrl row)] ++ LF.

Definition toCSV (data : list Application) : string :=
  fold_left (fun output row => output ++ csv_row row) data
    (join "," (map (fun c => escapeCsv (val c)) columns) ++ LF).

(** *** The merge of module evidence, shared by both enrichers *)

Definition nullable_is (v : nullable string) (s : string) : bool :=
  match v with
  | val x => String.eqb x s
  | _ => false
  end.

Definition merge_attribute (application : Application) (attribute : Attribute)
  : Application :=
  let a1 :=
    if nullable_is (attr_name attribute) "sha1Checksum"
       && truthy truthy_string (attr_value attribute)
    then set_librarySha1 (attr_value attribute) application
    else application in
  if nullable_is (attr_name attribute) "sha512Checksum"
     && truthy truthy_string (attr_value attribute)
  then set_librarySha512 (attr_value attribute) a1
  else a1.

Definition merge_module (application : Application) (module : Module)
  : Application :=
  let a1 := set_library (mod_name module) application in
  let a2 := set_libraryVersion (mod_version module) a1 in
  match mod_attributes module with
  | Some attributes => fold_left merge_attribute attributes a2
  | None => a2
  end.

(** *** Reporter *)

(** [Math.ceil(x / 1000)] *)
Definition ceil_div_1000 (x : Z) : Z := (- ((- x) / 1000))%Z.

Fixpoint replace_colons (s : string) : string :=
  match s with
  | EmptyString => EmptyString
  | String c rest =>
      String (if Ascii.eqb c ":" then "-"%char else c) (replace_colons rest)
  end.

Definition vulnerable (a : Application) : bool :=
  truthy truthy_string (library a).

Section Platform.

(** Functions of the JavaScript host: [atob] ([None]: it throws, or the
    host has no [atob] and the call throws a [ReferenceError]) and
    [Date.prototype.toISOString] of a clock reading. *)
Variable atob : string -> option string.
Variable toISOString : Z -> string.

Definition writeResults : Proc unit :=
  args <- get_argv ;;
  let useJson := array_includes args "--json" in
  let useCsv := array_includes args "--csv" || negb useJson in
  let includeAllApplications := array_includes args "--all-services" in
  st <- get_state ;;
  let applications := Obj.values (applications st) in
  let vulnerableApplications := filter vulnerable applications in
  completed <- Date_now ;;
  let duration := ceil_div_1000 (completed - scanStarted st) in
  modify_state (set_scanCompleted completed duration) ;;
  stdout_write (LF ++ "OK, scan took " ++ string_of_Z duration
                ++ " seconds. Found "
                ++ string_of_Z (Z.of_nat (length vulnerableApplications))
                ++ " services with log4j-core." ++ LF) ;;
  now <- Date_now ;;
  let fileTimestamp := replace_colons (toISOString now) in
  let chosen :=
    if includeAllApplications then applications else vulnerableApplications in
  (if useJson then
     let outputFile := libraryName st ++ "_scan_" ++ region st ++ "_"
                       ++ fileTimestamp ++ ".json" in
     emit (WriteFile outputFile (json_of chosen)) ;;
     stdout_write ("Wrote results to " ++ outputFile ++ LF)
   else ret tt) ;;
  (if useCsv then
     let outputFile := libraryName st ++ "_scan_" ++ region st ++ "_"
                       ++ fileTimestamp ++ ".csv" in
     emit (WriteFile outputFile (csv_text (toCSV chosen))) ;;
     stdout_write ("Wrote results to " ++ outputFile ++ LF)
   else ret tt).

(** *** Per-entity enricher *)

Definition merge_instance (acc : Application * Z) (instance : Instance)
  : Application * Z :=
  match modules instance with
  | Some (m :: ms) =>
      (fold_left merge_module (m :: ms) (fst acc), (snd acc + 1)%Z)
  | _ => acc
  end.

(** The writes of lines 363-390 to one record, for a response whose
    [entity] is [e] and whose [applicationInstances] is [instances]. *)
Definition enrich_application (e : EntityData) (instances : list Instance)
  (application : Application) : Application :=
  let a1 :=
    match runningAgentVersions e with
    | Some versions =>
        set_agentVersion
          (val (concatNoneOrMore (minVersion versions) (maxVersion versions)
                  undefined undefined undefined undefined))
          application
    | None => application
    end in
  let '(a2, instanceCount) := fold_left merge_instance instances (a1, 0%Z) in
  set_examinedInstances (val instanceCount) a2.

(** [data && data.actor && data.actor.entity &&
     data.actor.entity.applicationInstances] *)
Definition entity_shape (data : option Data)
  : option (EntityData * list Instance) :=
  match data with
  | Some d =>
      match actor d with
      | Some a =>
          match entity a with
          | Some e =>
              match applicationInstances e with
              | Some instances => Some (e, instances)
              | None => None
              end
          | None => None
          end
      | None => None
      end
  | None => None
  end.

Definition scanning_service (progress entityCount : nat) : string :=
  CR ++ "Scanning modules (service " ++ string_of_Z (Z.of_nat progress)
  ++ " of " ++ string_of_Z (Z.of_nat entityCount) ++ ")...      ".

(** The body of the loop of [findModulesByEntity] for the record stored
    under [key]. *)
Definition findModulesByEntity_body (key : string) (application : Application)
  : Proc unit :=
  try_catch
    (st <- get_state ;;
     data <- nerdgraphQuery (apiKey st) getModulesInEntity
               (vars_entity (guid application) (libraryName st)) ;;
     match entity_shape data with
     | Some (e, instances) =>
         modify_state (fun s =>
           set_applications
             (Obj.set key (enrich_application e instances application)
                (applications s)) s)
     | None =>
         stderr_write
           (LF ++ "Warning: failed to get library list for "
            ++ interp id_string (guid application)
            ++ " - please check this service manually at "
            ++ interp id_string (nrUrl application) ++ LF)
     end)
    (fun err =>
       stderr_write
         (LF ++ "Error fetching data for "
          ++ interp id_string (guid application) ++ ": "
          ++ err_toString err ++ LF)).

Fixpoint findModulesByEntity_loop (l : list (string * Application))
  (progress entityCount : nat) : Proc unit :=
  match l with
  | [] => ret tt
  | (key, application) :: rest =>
      findModulesByEntity_body key application ;;
      stdout_write (scanning_service (S progress) entityCount) ;;
      findModulesByEntity_loop rest (S progress) entityCount
  end.

Definition findModulesByEntity : Proc unit :=
  st <- get_state ;;
  let entityCount := length (Obj.values (applications st)) in
  stdout_write (scanning_service 0 entityCount) ;;
  findModulesByEntity_loop (applications st) 0 entityCount ;;
  stdout_write (CR ++ "Scanning modules (service "
                ++ string_of_Z (Z.of_nat entityCount) ++ " of "
                ++ string_of_Z (Z.of_nat entityCount) ++ ")...  done." ++ LF) ;;
  writeResults.

(** *** Per-account enricher *)

Definition getApplicationIdFromGuid (guid : string) : nullable number :=
  if negb (truthy_string guid) then undefined
  else
    match atob guid with
    | Some decodedString =>
        let splitString := split_on "|" decodedString in
        val (parseInt (index splitString 3))
    | None => undefined
    end.

Definition environment_url (account : string) (application : string) : string :=
  "https://rpm.newrelic.com/accounts/" ++ account ++ "/applications/"
  ++ application ++ "/environment".

(** The object literal of lines 443-449. *)
Definition new_application (accountId : nullable Z) (guid appName : string)
  : Application :=
  let applicationId := getApplicationIdFromGuid guid in
  {| guid := val guid;
     name := val appName;
     applicationId := applicationId;
     accountId := accountId;
     reporting := undefined;
     nrUrl :=
       val (if truthy truthy_number applicationId
            then environment_url (interp string_of_Z accountId)
                   (interp string_of_number applicationId)
            else EmptyString);
     agentVersion := undefined;
     examinedInstances := undefined;
     library := undefined;
     libraryVersion := undefined;
     librarySha1 := undefined;
     librarySha512 := undefined |}.

(** Lines 439-465: the record of [guid] is created when the dictionary
    has none, then the module is merged into it. *)
Definition merge_account_module (accountId : nullable Z) (appName : string)
  (module : Module) (guid : string) (apps : Obj.t Application)
  : Obj.t Application :=
  let apps1 :=
    match Obj.get guid apps with
    | None => Obj.set guid (new_application accountId guid appName) apps
    | Some _ => apps
    end in
  match Obj.get guid apps1 with
  | Some application => Obj.set guid (merge_module application module) apps1
  | None => apps1
  end.

Definition is_digit (c : ascii) : bool :=
  let n := nat_of_ascii c in (Nat.leb 48 n && Nat.leb n 57)%bool.

(** [name.replace(/^java:/, '')] *)
Definition strip_java (s : string) : string :=
  if String.prefix "java:" s then String.substring 5 (String.length s - 5) s
  else s.

Fixpoint rev_string (s acc : string) : string :=
  match s with
  | EmptyString => acc
  | String c rest => rev_string rest (String c acc)
  end.

Fixpoint drop_digits (s : string) : string :=
  match s with
  | String c rest => if is_digit c then drop_digits rest else s
  | EmptyString => s
  end.

(** [s.replace(/:\d+$/, '')]: a match is a colon followed by digits up to
    the end, so it is read off the reversed string. *)
Definition strip_port (s : string) : string :=
  let r := rev_string s EmptyString in
  match r with
  | String c _ =>
      if is_digit c then
        match drop_digits r with
        | String ":" rest => rev_string rest EmptyString
        | _ => s
        end
      else s
  | EmptyString => s
  end.

Definition account_warning (appName : string) (host : nullable string)
  (module : Module) : string :=
  LF ++ "Warning: result w/out a guid found:" ++ TAB ++ appName ++ TAB
  ++ interp id_string host ++ TAB ++ interp id_string (mod_name module) ++ TAB
  ++ interp id_string (mod_version module) ++ "      ".

(** The body of [for (const result of moduleResults || [])]. *)
Definition findModulesByAccount_result (accountId : nullable Z)
  (result : ModuleResult) : Proc unit :=
  loaded <- deref (loadedModules result)
              "Cannot read properties of undefined (reading 'length')" ;;
  match loaded with
  | [] => ret tt
  | _ :: _ =>
      d <- deref (details result)
             "Cannot destructure property 'name' of 'result.details'" ;;
      name <- match d_name d with
              | val s => ret s
              | _ => throw (TypeError
                       "Cannot read properties of undefined (reading 'replace')")
              end ;;
      let host := d_host d in
      let appName := strip_port (strip_java name) in
      let entityGuids := applicationGuids result in
      for_of loaded (fun module =>
        match entityGuids with
        | Some (_ :: _) => ret tt
        | _ => stdout_write (account_warning appName host module)
        end ;;
        guids <- deref entityGuids "entityGuids is not iterable" ;;
        for_of guids (fun guid =>
          modify_state (fun s =>
            set_applications
              (merge_account_module accountId appName module guid
                 (applications s)) s)))
  end.

(** [data && data.actor && data.actor.account &&
     data.actor.account.agentEnvironment &&
     data.actor.account.agentEnvironment.modules] *)
Definition account_shape (data : option Data) : option AccountModules :=
  match data with
  | Some d =>
      match actor d with
      | Some a =>
          match account a with
          | Some acc =>
              match agentEnvironment acc with
              | Some env => ae_modules env
              | None => None
              end
          | None => None
          end
      | None => None
      end
  | None => None
  end.

(** ['|/-\\'.charAt(batch % 4)] *)
Definition glyph (batch : nat) : string :=
  match Nat.modulo batch 4 with
  | 0 => "|"
  | 1 => "/"
  | 2 => "-"
  | _ => "\"
  end.

Definition spinner (batch : nat) : string :=
  BS ++ BS ++ BS ++ " " ++ glyph batch ++ " ".

(** The [while] loop of one account; [fuel] bounds its iterations. *)
Fixpoint findModulesByAccount_pages (fuel : nat) (accountId : nullable Z)
  (data : option Data) (batch : nat) : Proc unit :=
  match fuel with
  | O => fun p => (OutOfFuel, p)
  | S fuel' =>
      match account_shape data with
      | None => ret tt
      | Some page =>
          let moduleResults :=
            match am_results page with Some l => l | None => [] end in
          for_of moduleResults (findModulesByAccount_result accountId) ;;
          match am_nextCursor page with
          | val cursor =>
              if truthy_string cursor then
                stdout_write (spinner batch) ;;
                st <- get_state ;;
                data' <- nerdgraphQuery (apiKey st) getMoreModulesInAccount
                           (vars_account_cursor accountId cursor
                              (libraryName st)) ;;
                findModulesByAccount_pages fuel' accountId data' (S batch)
              else ret tt
          | _ => ret tt
          end
      end
  end.

Definition scanning_account (accountId : nullable Z) (progress accountCount : nat)
  : string :=
  CR ++ "Scanning modules (account " ++ interp string_of_Z accountId ++ " - "
  ++ string_of_Z (Z.of_nat progress) ++ " of "
  ++ string_of_Z (Z.of_nat accountCount) ++ ")...        ".

Definition findModulesByAccount_body (fuel : nat) (accountId : nullable Z)
  : Proc unit :=
  try_catch
    (st <- get_state ;;
     data <- nerdgraphQuery (apiKey st) getModulesInAccount
               (vars_account accountId (libraryName st)) ;;
     findModulesByAccount_pages fuel accountId data 1)
    (fun err =>
       stderr_write
         (LF ++ "Error fetching data for account "
          ++ interp string_of_Z accountId ++ ": " ++ err_toString err ++ LF)).

Fixpoint findModulesByAccount_loop (fuel : nat) (l : list (nullable Z))
  (progress accountCount : nat) : Proc unit :=
  match l with
  | [] => ret tt
  | accountId :: rest =>
      stdout_write (scanning_account accountId (S progress) accountCount) ;;
      findModulesByAccount_body fuel accountId ;;
      findModulesByAccount_loop fuel rest (S progress) accountCount
  end.

Definition findModulesByAccount (fuel : nat) : Proc unit :=
  st <- get_state ;;
  let accountCount := length (accountIds st) in
  findModulesByAccount_loop fuel (accountIds st) 0 accountCount ;;
  stdout_write (CR ++ "Scanning modules ("
                ++ string_of_Z (Z.of_nat accountCount) ++ " of "
                ++ string_of_Z (Z.of_nat accountCount)
                ++ ")... done.                  " ++ LF) ;;
  writeResults.

(** *** Directory builder *)

(** Lines 320-323: the entity, with its [nrUrl], as a record of the
    dictionary. *)
Definition application_of_entity (e : Entity) : Application :=
  {| guid := e_guid e;
     name := e_name e;
     applicationId :=
       match e_applicationId e with
       | val z => val (Num z)
       | null => null
       | undefined => undefined
       end;
     accountId := e_accountId e;
     reporting := e_reporting e;
     nrUrl := val (environment_url (interp string_of_Z (e_accountId e))
                     (interp string_of_Z (e_applicationId e)));
     agentVersion := undefined;
     examinedInstances := undefined;
     library := undefined;
     libraryVersion := undefined;
     librarySha1 := undefined;
     librarySha512 := undefined |}.

(** The body of [for (const application of ...entities)]. *)
Definition store_entity (apps : Obj.t Application) (e : Entity)
  : Obj.t Application :=
  match e_guid e with
  | val g =>
      if truthy_string g then Obj.set g (application_of_entity e) apps
      else apps
  | _ => apps
  end.

(** [resultSet['actor']['entitySearch']] *)
Definition entitySearch_of (resultSet : option Data) : Proc EntitySearch :=
  d <- deref resultSet "Cannot read properties of undefined (reading 'actor')" ;;
  a <- deref (actor d)
         "Cannot read properties of undefined (reading 'entitySearch')" ;;
  deref (entitySearch a)
    "Cannot read properties of undefined (reading 'count')".

(** The [while (resultSet)] loop; [fuel] bounds its iterations. *)
Fixpoint findServices_pages (fuel : nat) (resultSet : option Data) (batch : nat)
  : Proc unit :=
  match fuel with
  | O => fun p => (OutOfFuel, p)
  | S fuel' =>
      match resultSet with
      | None => ret tt
      | Some _ =>
          search <- entitySearch_of resultSet ;;
          page <- deref (results search)
                    "Cannot read properties of undefined (reading 'entities')" ;;
          es <- deref (entities page) "undefined is not iterable" ;;
          modify_state (fun s =>
            set_applications (fold_left store_entity es (applications s)) s) ;;
          match nextCursor page with
          | val cursor =>
              if truthy_string cursor then
                stdout_write (spinner batch) ;;
                st <- get_state ;;
                resultSet' <- nerdgraphQuery (apiKey st) getMoreServices
                                (vars_cursor cursor) ;;
                findServices_pages fuel' resultSet' (S batch)
              else ret tt
          | _ => ret tt
          end
      end
  end.

(** Lines 309-336 of [findServices]: the directory is built. *)
Definition findServices_directory (fuel : nat) : Proc unit :=
  stdout_write ("Scanning your accounts, this may take some time..." ++ LF) ;;
  st <- get_state ;;
  resultSet <- nerdgraphQuery (apiKey st) getServices vars_none ;;
  search <- entitySearch_of resultSet ;;
  let entityCount := count search in
  stdout_write ("Checking " ++ interp string_of_Z entityCount
                ++ " services...   ") ;;
  findServices_pages fuel resultSet 1 ;;
  st' <- get_state ;;
  stdout_write (BS ++ BS ++ BS ++ " done. Actual service count is "
                ++ string_of_Z (Z.of_nat (length (Obj.values (applications st'))))
                ++ "." ++ LF).

Definition findServices (fuel : nat) : Proc unit :=
  findServices_directory fuel ;;
  args <- get_argv ;;
  if negb (array_includes args "--quick-scan")
  then findModulesByEntity
  else findModulesByAccount fuel.

End Platform.

(* ================================================================== *)
(** ** A host [atob]: the base64 decoder of the HTML standard *)
(* ================================================================== *)

Module Base64.

Definition sextet (c : ascii) : option N :=
  (let n := N_of_ascii c in
   if (65 <=? n) && (n <=? 90) then Some (n - 65)
   else if (97 <=? n) && (n <=? 122) then Some (n - 71)
   else if (48 <=? n) && (n <=? 57) then Some (n + 4)
   else if n =? 43 then Some 62
   else if n =? 47 then Some 63
   else None)%N.

Definition is_space (c : ascii) : bool :=
  (let n := N_of_ascii c in
   (n =? 9) || (n =? 10) || (n =? 12) || (n =? 13) || (n =? 32))%N.

Fixpoint remove_spaces (s : string) : string :=
  match s with
  | EmptyString => EmptyString
  | String c rest =>
      if is_space c then remove_spaces rest else String c (remove_spaces rest)
  end.

(** With a length that is a multiple of four, one or two trailing [=]
    are dropped. *)
Definition strip_padding (s : string) : string :=
  let n := String.length s in
  if Nat.eqb (Nat.modulo n 4) 0 then
    if String.eqb (String.substring (n - 2) 2 s) "=="
    then String.substring 0 (n - 2) s
    else if String.eqb (String.substring (n - 1) 1 s) "="
    then String.substring 0 (n - 1) s
    else s
  else s.

Fixpoint sextets (s : string) : option (list N) :=
  match s with
  | EmptyString => Some []
  | String c rest =>
      match sextet c, sextets rest with
      | Some v, Some vs => Some (v :: vs)
      | _, _ => None
      end
  end.

Definition byte (n : N) : ascii := ascii_of_N (n mod 256).

Fixpoint bytes (l : list N) : string :=
  (match l with
   | a :: b :: c :: d :: rest =>
       let n := a * 262144 + b * 4096 + c * 64 + d in
       String (byte (n / 65536))
         (String (byte (n / 256)) (String (byte n) (bytes rest)))
   | [a; b; c] =>
       let n := a * 1024 + b * 16 + c / 4 in
       String (byte (n / 256)) (String (byte n) EmptyString)
   | [a; b] => String (byte (a * 4 + b / 16)) EmptyString
   | _ => EmptyString
   end)%N.

(** [None]: [atob] throws an [InvalidCharacterError]. *)
Definition atob (s : string) : option string :=
  let s1 := strip_padding (remove_spaces s) in
  if Nat.eqb (Nat.modulo (String.length s1) 4) 1 then None
  else
    match sextets s1 with
    | Some l => Some (bytes l)
    | None => None
    end.

End Base64.

(** A host without [atob] (Node.js before version 16): the call throws a
    [ReferenceError]. *)
Definition no_atob (s : string) : option string := None.

(** The host function [toISOString] is only used to name the output
    files; this one prints the reading of the clock. *)
Definition plain_timestamp (t : Z) : string := string_of_Z t.

(* ================================================================== *)
(** ** Notions used to state the properties *)
(* ================================================================== *)

(** *** What a merge writes

    The enrichers only assign fields of a record; a [Patch] lists, per
    evidence field, the value assigned last, if any. *)

Record Patch : Type := {
  w_agentVersion : option (nullable string);
  w_examinedInstances : option (nullable Z);
  w_library : option (nullable string);
  w_libraryVersion : option (nullable string);
  w_librarySha1 : option (nullable string);
  w_librarySha512 : option (nullable string)
}.

Definition written {A : Type} (w : option A) (old : A) : A :=
  match w with
  | Some v => v
  | None => old
  end.

Definition later {A : Type} (first second : option A) : option A :=
  match second with
  | Some v => Some v
  | None => first
  end.

Definition apply_patch (P : Patch) (a : Application) : Application :=
  {| guid := guid a; name := name a; applicationId := applicationId a;
     accountId := accountId a; reporting := reporting a; nrUrl := nrUrl a;
     agentVersion := written (w_agentVersion P) (agentVersion a);
     examinedInstances := written (w_examinedInstances P) (examinedInstances a);
     library := written (w_library P) (library a);
     libraryVersion := written (w_libraryVersion P) (libraryVersion a);
     librarySha1 := written (w_librarySha1 P) (librarySha1 a);
     librarySha512 := written (w_librarySha512 P) (librarySha512 a) |}.

Definition no_write : Patch :=
  {| w_agentVersion := None; w_examinedInstances := None; w_library := None;
     w_libraryVersion := None; w_librarySha1 := None; w_librarySha512 := None |}.

(** [and_then P Q]: the writes of [P] followed by those of [Q]. *)
Definition and_then (P Q : Patch) : Patch :=
  {| w_agentVersion := later (w_agentVersion P) (w_agentVersion Q);
     w_examinedInstances := later (w_examinedInstances P) (w_examinedInstances Q);
     w_library := later (w_library P) (w_library Q);
     w_libraryVersion := later (w_libraryVersion P) (w_libraryVersion Q);
     w_librarySha1 := later (w_librarySha1 P) (w_librarySha1 Q);
     w_librarySha512 := later (w_librarySha512 P) (w_librarySha512 Q) |}.

(** The writes of each step of the merge. *)

Definition patch_list {A : Type} (f : A -> Patch) (l : list A) : Patch :=
  fold_left (fun P x => and_then P (f x)) l no_write.

Definition attribute_patch (x : Attribute) : Patch :=
  {| w_agentVersion := None; w_examinedInstances := None; w_library := None;
     w_libraryVersion := None;
     w_librarySha1 :=
       if nullable_is (attr_name x) "sha1Checksum"
          && truthy truthy_string (attr_value x)
       then Some (attr_value x) else None;
     w_librarySha512 :=
       if nullable_is (attr_name x) "sha512Checksum"
          && truthy truthy_string (attr_value x)
       then Some (attr_value x) else None |}.

Definition name_patch (m : Module) : Patch :=
  {| w_agentVersion := None; w_examinedInstances := None;
     w_library := Some (mod_name m);
     w_libraryVersion := Some (mod_version m);
     w_librarySha1 := None; w_librarySha512 := None |}.

Definition module_patch (m : Module) : Patch :=
  and_then (name_patch m)
    (patch_list attribute_patch
       (match mod_attributes m with Some l => l | None => [] end)).

Definition instance_patch (i : Instance) : Patch :=
  patch_list module_patch (match modules i with Some l => l | None => [] end).

Definition agent_patch (e : EntityData) : Patch :=
  {| w_agentVersion :=
       match runningAgentVersions e with
       | Some versions =>
           Some (val (concatNoneOrMore (minVersion versions)
                        (maxVersion versions)
                        undefined undefined undefined undefined))
       | None => None
       end;
     w_examinedInstances := None; w_library := None;
     w_libraryVersion := None; w_librarySha1 := None;
     w_librarySha512 := None |}.

Definition count_patch (n : Z) : Patch :=
  {| w_agentVersion := None; w_examinedInstances := Some (val n);
     w_library := None; w_libraryVersion := None; w_librarySha1 := None;
     w_librarySha512 := None |}.

(** The value written last among [l], if any. *)
Definition last_written {A : Type} (l : list (option A)) : option A :=
  fold_left later l None.

(** *** The modules of a response, in iteration order *)

Definition modules_of (i : Instance) : list Module :=
  match modules i with
  | Some l => l
  | None => []
  end.

Definition all_modules (instances : list Instance) : list Module :=
  flat_map modules_of instances.

Definition attributes_of (m : Module) : list Attribute :=
  match mod_attributes m with
  | Some l => l
  | None => []
  end.

Definition last_module (instances : list Instance) : option Module :=
  last (map Some (all_modules instances)) None.

(** The checksum a module carries under [key]: the value of its last
    attribute of that name with a non-empty value. *)
Definition carries (key : string) (a : Attribute) : bool :=
  nullable_is (attr_name a) key && truthy truthy_string (attr_value a).

Definition checksum_of (key : string) (attributes : list Attribute)
  : option (nullable string) :=
  last (map (fun a => Some (attr_value a)) (filter (carries key) attributes)) None.

Definition module_checksum (key : string) (m : Module) : nullable string :=
  written (checksum_of key (attributes_of m)) undefined.

(** The last checksum carried by any module of the response. *)
Definition last_checksum (key : string) (instances : list Instance)
  : option (nullable string) :=
  checksum_of key (flat_map attributes_of (all_modules instances)).

Definition reports_modules (i : Instance) : bool :=
  match modules i with
  | Some (_ :: _) => true
  | _ => false
  end.

Definition reporting_instances (instances : list Instance) : Z :=
  Z.of_nat (length (filter reports_modules instances)).

(** The whole per-entity merge is one patch that depends on the response
    only. *)
Definition enrich_patch (e : EntityData) (instances : list Instance) : Patch :=
  and_then (and_then (agent_patch e) (patch_list instance_patch instances))
    (count_patch (reporting_instances instances)).

(** *** The directory *)

(** The entities of a page, and its cursor. *)
Definition page_view (d : Data) : option (list Entity * nullable string) :=
  match actor d with
  | Some a =>
      match entitySearch a with
      | Some s =>
          match results s with
          | Some r =>
              match entities r with
              | Some es => Some (es, nextCursor r)
              | None => None
              end
          | None => None
          end
      | None => None
      end
  | None => None
  end.

Definition page_entities (d : Data) : list Entity :=
  match page_view d with
  | Some (es, _) => es
  | None => []
  end.

Definition page_cursor (d : Data) : string :=
  match page_view d with
  | Some (_, val c) => c
  | _ => EmptyString
  end.

(** A reply that delivers [data] at the first attempt, with or without an
    [errors] member. *)
Definition served (r : option string * Data) : Attempt :=
  http_body (Some (resp_object (fst r) (Some (snd r)))).

(** [d] followed by [more] is a complete listing: every page but the last
    has a non-empty cursor, the last has none. *)
Fixpoint listing (d : Data) (more : list (option string * Data)) : Prop :=
  match more with
  | [] =>
      exists es c, page_view d = Some (es, c) /\ truthy truthy_string c = false
  | next :: more' =>
      (exists es c, page_view d = Some (es, val c) /\ truthy_string c = true)
      /\ listing (snd next) more'
  end.

Definition has_guid (g : string) (e : Entity) : bool :=
  nullable_is (e_guid e) g && truthy_string g.

(** The entity that the union of the pages holds for [g]: the last one
    listed with that guid. *)
Definition listed (g : string) (es : list Entity) : option Entity :=
  last (map Some (filter (has_guid g) es)) None.

(** *** The working set and its invariant *)

Definition no_evidence (a : Application) : Prop :=
  library a = undefined /\ libraryVersion a = undefined
  /\ librarySha1 a = undefined /\ librarySha512 a = undefined.

(** The dictionary together with the guids for which a module has been
    merged so far. *)
Record WorkingSet : Type := {
  directory : Obj.t Application;
  evidenced : list string
}.

Definition keyed (apps : Obj.t Application) : Prop :=
  NoDup (Obj.keys apps)
  /\ forall k a, In (k, a) apps -> guid a = val k.

Definition invariant (w : WorkingSet) : Prop :=
  keyed (directory w)
  /\ forall k a, In (k, a) (directory w) ->
       ~ In k (evidenced w) -> no_evidence a.

(** The writes of the three phases. *)
Inductive writes (atob : string -> option string)
  : WorkingSet -> WorkingSet -> Prop :=
| writes_directory : forall w e,
    (* findServices, lines 319-324 *)
    writes atob w
      {| directory := store_entity (directory w) e;
         evidenced := evidenced w |}
| writes_entity : forall w key application e instances,
    (* findModulesByEntity, lines 363-390 *)
    Obj.get key (directory w) = Some application ->
    writes atob w
      {| directory :=
           Obj.set key (enrich_application e instances application)
             (directory w);
         evidenced :=
           match all_modules instances with
           | [] => evidenced w
           | _ :: _ => key :: evidenced w
           end |}
| writes_account : forall w accountId appName module guid,
    (* findModulesByAccount, lines 439-465 *)
    writes atob w
      {| directory :=
           merge_account_module atob accountId appName module guid
             (directory w);
         evidenced := guid :: evidenced w |}.

(** *** The reporter *)

(** The lists handed to [fs.writeFileSync]. *)
Definition written_json (evs : list Event) : list (list Application) :=
  flat_map (fun e => match e with
                     | WriteFile _ (json_of apps) => [apps]
                     | _ => []
                     end) evs.

Definition written_csv (evs : list Event) : list string :=
  flat_map (fun e => match e with
                     | WriteFile _ (csv_text t) => [t]
                     | _ => []
                     end) evs.

(** The evidence field [library] is present. *)
Definition library_present (a : Application) : bool :=
  match library a with
  | val _ => true
  | _ => false
  end.

(** *** The transport as a table *)

(** What one attempt means to [nerdgraphQuery]: it delivers data, it
    leaves the block without data, it ends the process through
    [handleNetworkError], or its body does not parse. *)
Inductive Verdict : Type :=
| v_data (d : Data)
| v_retry
| v_exit
| v_uncaught.

Definition verdict (a : Attempt) : Verdict :=
  match a with
  | net_error err => if is_cert_error err then v_exit else v_retry
  | http_body None => v_uncaught
  | http_body (Some resp_null) => v_retry
  | http_body (Some (resp_object _ (Some d))) => v_data d
  | http_body (Some (resp_object _ None)) => v_retry
  end.

(** An attempt after which [nerdgraphQuery] has no data and goes on: a
    network error that is not a certificate error, a body that parses to
    [null], or a document without [data]. *)
Definition transient (a : Attempt) : bool :=
  match verdict a with
  | v_retry => true
  | _ => false
  end.

Definition exception_line (err : JsError) : list Event :=
  if is_cert_error err then [Stderr CERT_ERROR_HELP]
  else [Stderr (LF ++ "Exception processing API call: "
                ++ err_toString err ++ LF)].

(** What an attempt makes the first [try] block write to [stderr]. *)
Definition first_log (a : Attempt) : list Event :=
  match a with
  | net_error err => exception_line err
  | http_body (Some resp_null) =>
      exception_line
        (TypeError "Cannot read properties of null (reading 'errors')")
  | http_body (Some (resp_object (Some text) _)) =>
      [Stderr (LF ++ "Error returned from API: " ++ text ++ LF)]
  | _ => []
  end.

(** ... and the second. *)
Definition second_log (a : Attempt) : list Event :=
  match a with
  | net_error err => exception_line err
  | http_body (Some resp_null) =>
      exception_line
        (TypeError "Cannot read properties of null (reading 'data')")
  | _ => []
  end.

(** The process after the events [evs]. *)
Definition add_events (evs : list Event) (p : Process) : Process :=
  {| state := state p; replies := replies p; events := events p ++ evs;
     argv := argv p; clock := clock p |}.

(** The exception of [JSON.parse] on a body that is not JSON. *)
Definition unparsed : JsError := SyntaxError "Unexpected token in JSON".

(** The outcome of [nerdgraphQuery] for the request [req], the events it
    adds and the replies it leaves, by cases on the replies. *)
Definition transport (req : Event) (rs : list Attempt)
  : Outcome (option Data) * (list Event * list Attempt) :=
  match rs with
  | [] => (Pending, ([req], []))
  | a1 :: rest1 =>
      match verdict a1 with
      | v_data d => (Ret (Some d), (req :: first_log a1, rest1))
      | v_exit => (Exit 5, (req :: first_log a1, rest1))
      | v_uncaught => (Uncaught unparsed, (req :: first_log a1, rest1))
      | v_retry =>
          match rest1 with
          | [] => (Pending, (req :: first_log a1 ++ [req], []))
          | a2 :: rest2 =>
              let evs := req :: first_log a1 ++ req :: second_log a2 in
              match verdict a2 with
              | v_data d => (Ret (Some d), (evs, rest2))
              | v_exit => (Exit 5, (evs, rest2))
              | v_uncaught => (Uncaught unparsed, (evs, rest2))
              | v_retry => (Ret None, (evs, rest2))
              end
          end
      end
  end.

(** The process and outcome that a row of the table stands for. *)
Definition settle (p : Process)
  (r : Outcome (option Data) * (list Event * list Attempt))
  : Outcome (option Data) * Process :=
  (fst r, with_replies (snd (snd r)) (add_events (fst (snd r)) p)).

(** *** The enrichers *)

(** The warning of line 392. *)
Definition entity_warning (application : Application) : Event :=
  Stderr (LF ++ "Warning: failed to get library list for "
          ++ interp id_string (guid application)
          ++ " - please check this service manually at "
          ++ interp id_string (nrUrl application) ++ LF).

(** The lookup of line 361 for a record. *)
Definition entity_query (application : Application) (p : Process)
  : Outcome (option Data) * Process :=
  nerdgraphQuery (apiKey (state p)) getModulesInEntity
    (vars_entity (guid application) (libraryName (state p))) p.

(** A request answered by a certificate error, and the help text that
    follows it. *)
Definition cert_exit (req : Event) : list Event :=
  [req; Stderr CERT_ERROR_HELP].

(** The requests that follow the pages of a listing. *)
Fixpoint cursor_requests (key : string) (d : Data)
  (more : list (option string * Data)) : list Event :=
  match more with
  | [] => []
  | next :: more' =>
      Request key getMoreServices (vars_cursor (page_cursor d))
      :: cursor_requests key (snd next) more'
  end.

(** The process after the entities of a page are stored. *)
Definition stored (es : list Entity) (p : Process) : Process :=
  with_state
    (set_applications (fold_left store_entity es (applications (state p)))
       (state p)) p.

(** [preserves I c]: whatever the replies, and however [c] ends, the
    dictionary satisfies [I] afterwards if it did before. *)
Definition preserves (I : Obj.t Application -> Prop) {A : Type} (c : Proc A)
  : Prop :=
  forall p o p',
    I (applications (state p)) -> c p = (o, p') ->
    I (applications (state p')).

(* ================================================================== *)
(** ** Sample inputs *)
(* ================================================================== *)

Module Sample.

Definition self_signed : JsError :=
  {| err_code := code_string "DEPTH_ZERO_SELF_SIGNED_CERT";
     err_toString := "Error: self signed certificate" |}.

Definition hang_up : JsError :=
  {| err_code := code_string "ECONNRESET";
     err_toString := "Error: socket hang up" |}.

Definition STATE : State :=
  {| apiKey := "NRAK-KEY"; accountIds := [val 1%Z]; region := "us";
     libraryName := "log4j-core"; applications := [];
     scanStarted := 1000; scanCompleted := undefined;
     scanDurationSec := undefined |}.

Definition process (st : State) (rs : list Attempt) (args : list string)
  : Process :=
  {| state := st; replies := rs; events := [];
     argv := "node" :: "nr-find-lib.js" :: args;
     clock := [5500%Z; 6000%Z] |}.

Definition service (g : string) (id : Z) : Entity :=
  {| e_guid := val g; e_name := val ("service-" ++ g);
     e_applicationId := val id; e_accountId := val 1%Z;
     e_reporting := val true |}.

Definition page (cursor : nullable string) (es : list Entity) : Data :=
  {| actor :=
       Some {| entitySearch :=
                 Some {| count := val 3%Z;
                         results := Some {| nextCursor := cursor;
                                            entities := Some es |} |};
               entity := None; account := None |} |}.

Definition page1 : option string * Data :=
  (None, page (val "cursor-1") [service "A" 11; service "B" 12]).
Definition page2 : option string * Data :=
  (None, page null [service "C" 13; service "A" 14]).

Definition lookup (versions : option RunningAgentVersions)
  (instances : list Instance) : Data :=
  {| actor :=
       Some {| entitySearch := None;
               entity := Some {| applicationInstances := Some instances;
                                 runningAgentVersions := versions |};
               account := None |} |}.

Definition versions : RunningAgentVersions :=
  {| maxVersion := val "7.4.0"; minVersion := val "7.3.0" |}.

Definition old_jar : Module :=
  {| mod_name := val "log4j-core-2.14.1.jar"; mod_version := val "2.14.1";
     mod_attributes :=
       Some [ {| attr_name := val "sha1Checksum";
                 attr_value := val "9141212b8507ab50a45525b545b39d224614528b" |} ] |}.

(** A module reported without checksum attributes. *)
Definition new_jar : Module :=
  {| mod_name := val "log4j-core-2.17.1.jar"; mod_version := val "2.17.1";
     mod_attributes := Some [] |}.

(** A module reported with an empty name. *)
Definition unnamed_jar : Module :=
  {| mod_name := val EmptyString; mod_version := val "2.17.1";
     mod_attributes := None |}.

Definition instances : list Instance :=
  [ {| modules := Some [old_jar; new_jar] |}; {| modules := Some [] |} ].

Definition application_A : Application :=
  application_of_entity (service "A" 11).

Definition with_A : State :=
  set_applications [("A", application_A)] STATE.

(** The directory of one service is listed, its lookup reports a module
    with an empty name, and the report is asked for as JSON. *)
Definition unnamed_run : Process :=
  process STATE
    [ served (None, page null [service "A" 11]);
      served (None, lookup None [ {| modules := Some [unnamed_jar] |} ]) ]
    ["--json"].

End Sample.

(* ================================================================== *)
(** ** Further notions: transport, helpers, reporter *)
(* ================================================================== *)

(** The request of a call. *)
Definition request_of (key : string) (query : Query) (variables : Variables)
  : Event :=
  Request key query variables.

(** The phrase that [handleNetworkError] looks for. *)
Definition cert_phrase : string := "self signed certificate".

(** The values that [concatNoneOrMore] joins. *)
Definition joined_values (a b c d e f : nullable string) : list string :=
  dedup (flat_map present [a; b; c; d; e; f]) [].

(** The first line of the CSV report. *)
Definition csv_header : string :=
  join "," (map (fun c => escapeCsv (val c)) columns) ++ LF.

(** An integer that a JavaScript number holds exactly and prints as plain
    decimal digits: below 2^53 in magnitude.  Beyond it [parseInt]
    rounds, and from 10^21 on a number is printed with an exponent; [Num]
    stands for the number only within this range. *)
Definition safe_integer (z : Z) : Prop := (Z.abs z < 2 ^ 53)%Z.

Definition safe_id (x : nullable Z) : Prop :=
  match x with
  | val z => safe_integer z
  | _ => True
  end.

(** The text that a guid of an application encodes: account, domain,
    type and application id, separated by [|]. *)
Definition guid_text (account domain type : string) (id : Z) : string :=
  account ++ "|" ++ domain ++ "|" ++ type ++ "|" ++ string_of_Z id.

Fixpoint all_digits (s : string) : bool :=
  match s with
  | EmptyString => true
  | String c rest => is_digit c && all_digits rest
  end.

(** The readings of the clock that [writeResults] takes. *)
Definition first_reading (p : Process) : Z := hd 0%Z (clock p).
Definition second_reading (p : Process) : Z := hd 0%Z (tl (clock p)).

(** The records that [writeResults] hands on. *)
Definition chosen_records (p : Process) : list Application :=
  if array_includes (argv p) "--all-services"
  then Obj.values (applications (state p))
  else filter vulnerable (Obj.values (applications (state p))).

Definition report_name (toISOString : Z -> string) (p : Process)
  (extension : string) : string :=
  libraryName (state p) ++ "_scan_" ++ region (state p) ++ "_"
  ++ replace_colons (toISOString (second_reading p)) ++ extension.

(** The events of [writeResults], in order. *)
Definition report_events (toISOString : Z -> string) (p : Process)
  : list Event :=
  (Stdout (LF ++ "OK, scan took "
           ++ string_of_Z (ceil_div_1000 (first_reading p
                                          - scanStarted (state p)))
           ++ " seconds. Found "
           ++ string_of_Z
                (Z.of_nat (length (filter vulnerable
                                     (Obj.values (applications (state p))))))
           ++ " services with log4j-core." ++ LF)
   :: (if array_includes (argv p) "--json"
       then [WriteFile (report_name toISOString p ".json")
               (json_of (chosen_records p));
             Stdout ("Wrote results to " ++ report_name toISOString p ".json"
                     ++ LF)]
       else [])
   ++ (if array_includes (argv p) "--csv"
          || negb (array_includes (argv p) "--json")
       then [WriteFile (report_name toISOString p ".csv")
               (csv_text (toCSV (chosen_records p)));
             Stdout ("Wrote results to " ++ report_name toISOString p ".csv"
                     ++ LF)]
       else []))%list.

Definition is_file (e : Event) : bool :=
  match e with
  | WriteFile _ _ => true
  | _ => false
  end.

(** Every record of a dictionary lacks the fields that only the
    per-entity enricher writes. *)
Definition without_agent_fields (apps : Obj.t Application) : Prop :=
  forall k a, In (k, a) apps ->
    agentVersion a = undefined /\ examinedInstances a = undefined.

(** [in_order ks l]: the keys [ks] all occur in [l], in the order they
    have in [ks]; [l] may have other keys before, between and after
    them. *)
Inductive in_order : list string -> list string -> Prop :=
| in_order_nil (l : list string) : in_order [] l
| in_order_other (k : string) (ks l : list string) :
    in_order ks l -> in_order ks (k :: l)
| in_order_same (k : string) (ks l : list string) :
    in_order ks l -> in_order (k :: ks) (k :: l).

(** The list of the dictionary still begins with the keys [ks], in that
    order. *)
Definition begins_with (ks : list string) (apps : Obj.t Application) : Prop :=
  exists more, Obj.keys apps = (ks ++ more)%list.

(** The record that the per-entity enricher leaves for a served lookup. *)
Definition enriched (application : Application) (d : Data) : Application :=
  match entity_shape (Some d) with
  | Some (e, instances) => enrich_application e instances application
  | None => application
  end.

Definition entity_request (st : State) (ka : string * Application) : Event :=
  Request (apiKey st) getModulesInEntity
    (vars_entity (guid (snd ka)) (libraryName st)).

Definition entity_step (kar : (string * Application) * (option string * Data))
  : string * Application :=
  (fst (fst kar), enriched (snd (fst kar)) (snd (snd kar))).

(** A reader of CSV cells: whether a comma of [s] lies outside double
    quotes, [inside] telling whether the text before [s] opened a quote. *)
Fixpoint has_bare_comma (inside : bool) (s : string) : bool :=
  match s with
  | EmptyString => false
  | String c rest =>
      if Ascii.eqb c (ascii_of_nat 34) then has_bare_comma (negb inside) rest
      else if Ascii.eqb c "," then negb inside || has_bare_comma inside rest
      else has_bare_comma inside rest
  end.

(** The text of a quoted cell, read after its opening quote: two quotes
    stand for one, a single quote closes the cell. *)
Fixpoint read_quoted (s : string) : string :=
  match s with
  | EmptyString => EmptyString
  | String c rest =>
      if Ascii.eqb c (ascii_of_nat 34) then
        match rest with
        | String c' rest' =>
            if Ascii.eqb c' (ascii_of_nat 34) then String c (read_quoted rest')
            else EmptyString
        | EmptyString => EmptyString
        end
      else String c (read_quoted rest)
  end.

Definition read_cell (cell : string) : string :=
  match cell with
  | String c rest =>
      if Ascii.eqb c (ascii_of_nat 34) then read_quoted rest else cell
  | EmptyString => EmptyString
  end.

Definition starts_with_quote (s : string) : bool :=
  match s with
  | String c _ => Ascii.eqb c (ascii_of_nat 34)
  | EmptyString => false
  end.

(** The process that [writeResults] leaves. *)
Definition reported (toISOString : Z -> string) (p : Process) : Process :=
  {| state :=
       set_scanCompleted (first_reading p)
         (ceil_div_1000 (first_reading p - scanStarted (state p))) (state p);
     replies := replies p;
     events := (events p ++ report_events toISOString p)%list;
     argv := argv p;
     clock := tl (tl (clock p)) |}.

(** A file name of the scan: library, region, a stamp free of colons and
    one of the two extensions. *)
Definition scan_file_name (st : State) (path : string) : Prop :=
  exists stamp extension,
    path = libraryName st ++ "_scan_" ++ region st ++ "_" ++ stamp
           ++ extension
    /\ includes stamp ":" = false
    /\ (extension = ".json" \/ extension = ".csv").

Definition named_as_scan_file (st : State) (e : Event) : Prop :=
  match e with
  | WriteFile path _ => scan_file_name st path
  | _ => True
  end.

(** [keeps K c]: whatever the replies, and however [c] ends, [STATE] and
    the arguments satisfy [K] afterwards if they did before. *)
Definition keeps (K : State -> list string -> Prop) {A : Type} (c : Proc A)
  : Prop :=
  forall p o p',
    K (state p) (argv p) -> c p = (o, p') -> K (state p') (argv p').

(** What no function of the scan writes. *)
Definition settings (st : State) (args : list string)
  : string * list (nullable Z) * string * string * Z * list string :=
  (apiKey st, accountIds st, region st, libraryName st, scanStarted st, args).

(** What identifies a record and links to it. *)
Definition identity (a : Application)
  : nullable string * nullable string * nullable number * nullable Z
    * nullable bool * nullable string :=
  (guid a, name a, applicationId a, accountId a, reporting a, nrUrl a).

(** The dictionary has a record for [g], with the identity of [a0]. *)
Definition identified (g : string) (a0 : Application)
  (apps : Obj.t Application) : Prop :=
  exists a, Obj.get g apps = Some a /\ identity a = identity a0.

(** ... and with its agent fields too. *)
Definition identified_with_agent (g : string) (a0 : Application)
  (apps : Obj.t Application) : Prop :=
  exists a, Obj.get g apps = Some a /\ identity a = identity a0
            /\ agentVersion a = agentVersion a0
            /\ examinedInstances a = examinedInstances a0.

(** All of a record but its library fields. *)
Definition rest_of_record (a : Application) :=
  (identity a, agentVersion a, examinedInstances a).

(** The lookup of an account, and the line of its [catch]. *)
Definition account_request (st : State) (accountId : nullable Z) : Event :=
  Request (apiKey st) getModulesInAccount
    (vars_account accountId (libraryName st)).

Definition account_error (accountId : nullable Z) (err : JsError) : Event :=
  Stderr (LF ++ "Error fetching data for account "
          ++ interp string_of_Z accountId ++ ": " ++ err_toString err ++ LF).

(** The warning for a module of a result that names no application. *)
Definition guidless_warning (d : Details) (n : string) (m : Module) : Event :=
  Stdout (account_warning (strip_port (strip_java n)) (d_host d) m).

Definition scanning_line : Event :=
  Stdout ("Scanning your accounts, this may take some time..." ++ LF).

(** *** Sample replies of the account lookup *)

Module SampleAccount.

Definition jar : Module :=
  {| mod_name := val "log4j-core-2.14.1.jar"; mod_version := val "2.14.1";
     mod_attributes := None |}.

Definition host_details : Details :=
  {| d_name := val "java:billing:8080"; d_host := val "host-1" |}.

(** A result that names no application: an empty list of guids. *)
Definition unassigned : ModuleResult :=
  {| details := Some host_details; loadedModules := Some [jar];
     applicationGuids := Some [] |}.

(** A result whose list of guids is missing. *)
Definition unlisted : ModuleResult :=
  {| details := Some host_details; loadedModules := Some [jar];
     applicationGuids := None |}.

Definition assigned : ModuleResult :=
  {| details := Some host_details; loadedModules := Some [jar];
     applicationGuids := Some ["A"] |}.

Definition modules_page (results : list ModuleResult) : AccountModules :=
  {| am_nextCursor := val "cursor-1"; am_results := Some results |}.

Definition page (results : list ModuleResult) : Data :=
  {| actor :=
       Some {| entitySearch := None; entity := None;
               account :=
                 Some {| agentEnvironment :=
                           Some {| ae_modules :=
                                     Some (modules_page results) |} |} |} |}.

Definition failures : list Attempt :=
  [net_error Sample.hang_up; http_body (Some resp_null)].

End SampleAccount.

(* ================================================================== *)
(** ** The merge of evidence is a sequence of field writes *)
(* ================================================================== *)

Section Writes.
Context {A : Type}.

Lemma written_later (p q : option A) (x : A) :
  written q (written p x) = written (later p q) x.
Proof. destruct q; reflexivity. Qed.

Lemma written_twice (p : option A) (x : A) :
  written p (written p x) = written p x.
Proof. destruct p; reflexivity. Qed.

Lemma later_None_l (q : option A) : later None q = q.
Proof. destruct q; reflexivity. Qed.

Lemma later_assoc (p q r : option A) :
  later (later p q) r = later p (later q r).
Proof. destruct r; reflexivity. Qed.

Lemma fold_later_start (l : list (option A)) (acc : option A) :
  fold_left later l acc = later acc (last_written l).
Proof.
  unfold last_written. revert acc.
  induction l as [|x l IH]; intro acc; simpl.
  - reflexivity.
  - rewrite IH, (IH (later None x)), later_None_l, later_assoc. reflexivity.
Qed.

Lemma last_written_cons (x : option A) (l : list (option A)) :
  last_written (x :: l) = later x (last_written l).
Proof.
  unfold last_written at 1. simpl.
  rewrite fold_later_start, later_None_l. reflexivity.
Qed.

Lemma last_written_app (l1 l2 : list (option A)) :
  last_written (l1 ++ l2) = later (last_written l1) (last_written l2).
Proof.
  induction l1 as [|x l1 IH]; simpl.
  - symmetry. apply later_None_l.
  - rewrite !last_written_cons, IH, later_assoc. reflexivity.
Qed.

Lemma last_cons_default (l : list A) (a d : A) : last (a :: l) d = last l a.
Proof.
  revert a d. induction l as [|b l IH]; intros a d; [reflexivity|].
  change (last (a :: b :: l) d) with (last (b :: l) d).
  rewrite (IH b d), (IH b a). reflexivity.
Qed.

End Writes.

(** The last value written is the last element that writes. *)
Lemma last_written_filter {B C : Type} (keep : B -> bool) (v : B -> C)
  (l : list B) (d : option C) :
  later d (last_written (map (fun x => if keep x then Some (v x) else None) l))
  = last (map (fun x => Some (v x)) (filter keep l)) d.
Proof.
  revert d. induction l as [|x l IH]; intro d; simpl.
  - reflexivity.
  - rewrite last_written_cons, <- later_assoc.
    destruct (keep x); simpl.
    + rewrite IH. symmetry. apply last_cons_default.
    + apply IH.
Qed.

Lemma apply_no_write (a : Application) : apply_patch no_write a = a.
Proof. destruct a; reflexivity. Qed.

Lemma apply_and_then (P Q : Patch) (a : Application) :
  apply_patch Q (apply_patch P a) = apply_patch (and_then P Q) a.
Proof.
  unfold apply_patch, and_then; simpl.
  rewrite !written_later. reflexivity.
Qed.

Lemma apply_twice (P : Patch) (a : Application) :
  apply_patch P (apply_patch P a) = apply_patch P a.
Proof.
  unfold apply_patch; simpl. rewrite !written_twice. reflexivity.
Qed.

Lemma and_then_no_write_l (P : Patch) : and_then no_write P = P.
Proof.
  destruct P; unfold and_then; simpl. rewrite !later_None_l. reflexivity.
Qed.

Lemma and_then_assoc (P Q R : Patch) :
  and_then (and_then P Q) R = and_then P (and_then Q R).
Proof.
  unfold and_then; simpl. rewrite !later_assoc. reflexivity.
Qed.

(** A loop whose body writes [g x] writes the patches of its elements in
    order. *)
Lemma fold_patch {B : Type} (f : Application -> B -> Application)
  (g : B -> Patch) :
  (forall a x, f a x = apply_patch (g x) a) ->
  forall l a, fold_left f l a = apply_patch (patch_list g l) a.
Proof.
  intros Hf l. unfold patch_list.
  assert (G : forall P a,
             fold_left f l (apply_patch P a)
             = apply_patch (fold_left (fun P x => and_then P (g x)) l P) a).
  { induction l as [|x l IH]; intros P a; simpl; [reflexivity|].
    rewrite Hf, apply_and_then. apply IH. }
  intro a. rewrite <- (apply_no_write a) at 1. apply G.
Qed.

Lemma merge_attribute_patch (a : Application) (x : Attribute) :
  merge_attribute a x = apply_patch (attribute_patch x) a.
Proof.
  unfold merge_attribute, attribute_patch, apply_patch.
  destruct (nullable_is (attr_name x) "sha1Checksum"
            && truthy truthy_string (attr_value x));
    destruct (nullable_is (attr_name x) "sha512Checksum"
              && truthy truthy_string (attr_value x));
    destruct a; reflexivity.
Qed.

Lemma merge_module_patch (a : Application) (m : Module) :
  merge_module a m = apply_patch (module_patch m) a.
Proof.
  unfold merge_module, module_patch.
  rewrite <- apply_and_then.
  replace (set_libraryVersion (mod_version m) (set_library (mod_name m) a))
    with (apply_patch (name_patch m) a) by (destruct a; reflexivity).
  destruct (mod_attributes m) as [attrs|].
  - apply fold_patch. apply merge_attribute_patch.
  - symmetry. apply apply_no_write.
Qed.

Lemma merge_instance_patch (acc : Application * Z) (i : Instance) :
  merge_instance acc i
  = (apply_patch (instance_patch i) (fst acc),
     (snd acc + (if reports_modules i then 1 else 0))%Z).
Proof.
  unfold merge_instance, instance_patch, reports_modules.
  destruct acc as [a n]; simpl.
  destruct (modules i) as [[|m ms]|]; simpl fst; simpl snd.
  - unfold patch_list; simpl. rewrite apply_no_write, Z.add_0_r. reflexivity.
  - rewrite <- (fold_patch merge_module module_patch merge_module_patch
                  (m :: ms) a).
    reflexivity.
  - unfold patch_list; simpl. rewrite apply_no_write, Z.add_0_r. reflexivity.
Qed.

Lemma merge_instances_patch (instances : list Instance) (a : Application) (n : Z) :
  fold_left merge_instance instances (a, n)
  = (apply_patch (patch_list instance_patch instances) a,
     (n + reporting_instances instances)%Z).
Proof.
  unfold patch_list, reporting_instances.
  assert (G : forall P a n,
    fold_left merge_instance instances (apply_patch P a, n)
    = (apply_patch
         (fold_left (fun P x => and_then P (instance_patch x)) instances P) a,
       (n + Z.of_nat (length (filter reports_modules instances)))%Z)).
  { induction instances as [|i l IH]; intros P b k; simpl.
    - rewrite Z.add_0_r. reflexivity.
    - rewrite merge_instance_patch; simpl fst; simpl snd.
      rewrite apply_and_then, IH. f_equal.
      destruct (reports_modules i); simpl length; lia. }
  rewrite <- (apply_no_write a) at 1. apply G.
Qed.

Lemma enrich_application_patch (e : EntityData) (instances : list Instance)
  (a : Application) :
  enrich_application e instances a = apply_patch (enrich_patch e instances) a.
Proof.
  unfold enrich_application, enrich_patch.
  replace (match runningAgentVersions e with
           | Some versions => set_agentVersion _ a
           | None => a
           end) with (apply_patch (agent_patch e) a).
  2:{ unfold agent_patch, apply_patch.
      destruct (runningAgentVersions e); destruct a; reflexivity. }
  rewrite merge_instances_patch, Z.add_0_l.
  rewrite <- !apply_and_then.
  generalize (apply_patch (patch_list instance_patch instances)
                (apply_patch (agent_patch e) a)).
  intros b; destruct b; reflexivity.
Qed.

(** *** What the merge leaves in each field *)

Lemma patch_list_field {B C : Type} (proj : Patch -> option C) (g : B -> Patch)
  (l : list B) :
  (forall P Q, proj (and_then P Q) = later (proj P) (proj Q)) ->
  proj no_write = None ->
  proj (patch_list g l) = last_written (map (fun x => proj (g x)) l).
Proof.
  intros Hthen Hnone. unfold patch_list.
  assert (G : forall P,
             proj (fold_left (fun P x => and_then P (g x)) l P)
             = later (proj P) (last_written (map (fun x => proj (g x)) l))).
  { induction l as [|x l IH]; intro P; simpl.
    - reflexivity.
    - rewrite IH, Hthen, last_written_cons, later_assoc. reflexivity. }
  rewrite G, Hnone. apply later_None_l.
Qed.

Lemma last_written_none {B C : Type} (l : list B) :
  last_written (map (fun _ : B => @None C) l) = None.
Proof.
  induction l as [|x l IH]; [reflexivity|].
  simpl. rewrite last_written_cons, IH. reflexivity.
Qed.

Lemma patch_list_field_none {B C : Type} (proj : Patch -> option C)
  (g : B -> Patch) (l : list B) :
  (forall P Q, proj (and_then P Q) = later (proj P) (proj Q)) ->
  proj no_write = None ->
  (forall x, proj (g x) = None) ->
  proj (patch_list g l) = None.
Proof.
  intros Hthen Hnone Hg.
  rewrite patch_list_field by assumption.
  rewrite (map_ext _ (fun _ => None)) by assumption.
  apply last_written_none.
Qed.

Lemma last_written_flat_map {B C D : Type} (f : B -> list C)
  (h : C -> option D) (l : list B) :
  last_written (map (fun x => last_written (map h (f x))) l)
  = last_written (map h (flat_map f l)).
Proof.
  induction l as [|x l IH]; [reflexivity|].
  simpl. rewrite last_written_cons, map_app, last_written_app, IH.
  reflexivity.
Qed.

Lemma last_written_all {B C : Type} (v : B -> C) (l : list B) :
  last_written (map (fun x => Some (v x)) l)
  = option_map v (last (map Some l) None).
Proof.
  assert (G : forall d : option B,
             later (option_map v d) (last_written (map (fun x => Some (v x)) l))
             = option_map v (last (map Some l) d)).
  { induction l as [|x l IH]; intro d; simpl map.
    - reflexivity.
    - rewrite last_written_cons, <- later_assoc, last_cons_default.
      rewrite <- IH. reflexivity. }
  rewrite <- G. simpl. symmetry. apply later_None_l.
Qed.

Lemma instance_patch_modules (i : Instance) :
  instance_patch i = patch_list module_patch (modules_of i).
Proof. reflexivity. Qed.

Lemma module_patch_attributes (m : Module) :
  module_patch m
  = and_then (name_patch m) (patch_list attribute_patch (attributes_of m)).
Proof. reflexivity. Qed.

Lemma written_library (instances : list Instance) :
  w_library (patch_list instance_patch instances)
  = option_map mod_name (last_module instances).
Proof.
  rewrite (patch_list_field w_library) by reflexivity.
  rewrite (map_ext _ (fun i => last_written
                        (map (fun m => Some (mod_name m)) (modules_of i)))).
  - rewrite last_written_flat_map. apply last_written_all.
  - intro i. rewrite instance_patch_modules.
    rewrite (patch_list_field w_library) by reflexivity.
    f_equal. apply map_ext. intro m.
    rewrite module_patch_attributes.
    change (later (w_library (name_patch m))
              (w_library (patch_list attribute_patch (attributes_of m)))
            = w_library (name_patch m)).
    rewrite (patch_list_field_none w_library) by reflexivity.
    reflexivity.
Qed.

Lemma written_libraryVersion (instances : list Instance) :
  w_libraryVersion (patch_list instance_patch instances)
  = option_map mod_version (last_module instances).
Proof.
  rewrite (patch_list_field w_libraryVersion) by reflexivity.
  rewrite (map_ext _ (fun i => last_written
                        (map (fun m => Some (mod_version m)) (modules_of i)))).
  - rewrite last_written_flat_map. apply last_written_all.
  - intro i. rewrite instance_patch_modules.
    rewrite (patch_list_field w_libraryVersion) by reflexivity.
    f_equal. apply map_ext. intro m.
    rewrite module_patch_attributes.
    change (later (w_libraryVersion (name_patch m))
              (w_libraryVersion (patch_list attribute_patch (attributes_of m)))
            = w_libraryVersion (name_patch m)).
    rewrite (patch_list_field_none w_libraryVersion) by reflexivity.
    reflexivity.
Qed.

Lemma checksum_of_written (key : string) (attributes : list Attribute) :
  last_written
    (map (fun x => if carries key x then Some (attr_value x) else None)
       attributes)
  = checksum_of key attributes.
Proof.
  unfold checksum_of.
  rewrite <- (last_written_filter (carries key) attr_value attributes None).
  symmetry. apply later_None_l.
Qed.

Lemma written_librarySha1 (instances : list Instance) :
  w_librarySha1 (patch_list instance_patch instances)
  = last_checksum "sha1Checksum" instances.
Proof.
  unfold last_checksum, all_modules.
  rewrite <- checksum_of_written, <- !last_written_flat_map.
  rewrite (patch_list_field w_librarySha1) by reflexivity.
  f_equal. apply map_ext. intro i.
  rewrite instance_patch_modules.
  rewrite (patch_list_field w_librarySha1) by reflexivity.
  f_equal. apply map_ext. intro m.
  rewrite module_patch_attributes.
  change (later (w_librarySha1 (name_patch m))
            (w_librarySha1 (patch_list attribute_patch (attributes_of m)))
          = last_written
              (map (fun x => if carries "sha1Checksum" x then Some (attr_value x)
                             else None) (attributes_of m))).
  change (w_librarySha1 (name_patch m)) with (@None (nullable string)).
  rewrite later_None_l.
  apply (patch_list_field w_librarySha1); reflexivity.
Qed.

Lemma written_librarySha512 (instances : list Instance) :
  w_librarySha512 (patch_list instance_patch instances)
  = last_checksum "sha512Checksum" instances.
Proof.
  unfold last_checksum, all_modules.
  rewrite <- checksum_of_written, <- !last_written_flat_map.
  rewrite (patch_list_field w_librarySha512) by reflexivity.
  f_equal. apply map_ext. intro i.
  rewrite instance_patch_modules.
  rewrite (patch_list_field w_librarySha512) by reflexivity.
  f_equal. apply map_ext. intro m.
  rewrite module_patch_attributes.
  change (later (w_librarySha512 (name_patch m))
            (w_librarySha512 (patch_list attribute_patch (attributes_of m)))
          = last_written
              (map (fun x => if carries "sha512Checksum" x then Some (attr_value x)
                             else None) (attributes_of m))).
  change (w_librarySha512 (name_patch m)) with (@None (nullable string)).
  rewrite later_None_l.
  apply (patch_list_field w_librarySha512); reflexivity.
Qed.

Lemma written_agentVersion_none (instances : list Instance) :
  w_agentVersion (patch_list instance_patch instances) = None.
Proof.
  apply (patch_list_field_none w_agentVersion); try reflexivity.
  intro i. rewrite instance_patch_modules.
  apply (patch_list_field_none w_agentVersion); try reflexivity.
  intro m. rewrite module_patch_attributes.
  change (later (w_agentVersion (name_patch m))
            (w_agentVersion (patch_list attribute_patch (attributes_of m)))
          = None).
  rewrite (patch_list_field_none w_agentVersion) by reflexivity.
  reflexivity.
Qed.

(** [concatNoneOrMore] of a minimum and a maximum: the values that are
    present, once when they are equal, joined by a comma. *)
Lemma concatNoneOrMore_two (a b : nullable string) :
  concatNoneOrMore a b undefined undefined undefined undefined
  = match present a, present b with
    | x :: _, y :: _ => if String.eqb y x then x else x ++ "," ++ y
    | x :: _, [] => x
    | [], y :: _ => y
    | [], [] => EmptyString
    end.
Proof.
  unfold concatNoneOrMore. simpl flat_map. rewrite !app_nil_r.
  assert (Hshape : forall v, present v = [] \/ exists s, present v = [s]).
  { intros [| |s]; simpl; auto. destruct (String.eqb s EmptyString); eauto. }
  destruct (Hshape a) as [Ha|[x Ha]], (Hshape b) as [Hb|[y Hb]];
    rewrite Ha, Hb; simpl; try reflexivity.
  rewrite orb_false_r. destruct (String.eqb y x); reflexivity.
Qed.

(* ================================================================== *)
(** ** The transport *)
(* ================================================================== *)

Lemma process_eq (p q : Process) :
  state p = state q -> replies p = replies q -> events p = events q ->
  argv p = argv q -> clock p = clock q -> p = q.
Proof.
  destruct p, q; simpl; intros; subst; reflexivity.
Qed.

Lemma type_error_not_cert_errors :
  is_cert_error
    (TypeError "Cannot read properties of null (reading 'errors')") = false.
Proof. vm_compute. reflexivity. Qed.

Lemma type_error_not_cert_data :
  is_cert_error
    (TypeError "Cannot read properties of null (reading 'data')") = false.
Proof. vm_compute. reflexivity. Qed.

Arguments is_cert_error : simpl never.
Arguments CERT_ERROR_HELP : simpl never.
Arguments TypeError : simpl never.
Arguments append : simpl never.

Ltac run :=
  unfold bind, try_catch, ret, throw, emit, stderr_write, stdout_write,
    process_exit, get_state, modify_state, get_argv; simpl.

Ltac same_process :=
  apply process_eq; simpl; rewrite <- ?app_assoc;
  solve [reflexivity | assumption | symmetry; assumption].

(** Each [try] block, by cases on the next reply. *)
Lemma nerdgraphQuery_first_table (key : string) (query : Query)
  (variables : Variables) (p : Process) :
  nerdgraphQuery_first key (query, variables) p
  = match replies p with
    | [] => (Pending, add_events [Request key query variables] p)
    | a1 :: rest1 =>
        let p' := with_replies rest1
                    (add_events (Request key query variables :: first_log a1) p) in
        match verdict a1 with
        | v_data d => (Ret (Some d), p')
        | v_exit => (Exit 5, p')
        | v_uncaught => (Uncaught unparsed, p')
        | v_retry => (Ret None, p')
        end
    end.
Proof.
  unfold nerdgraphQuery_first, bind, try_catch, buildRequestPromise; simpl.
  destruct (replies p) as [|a1 rest1] eqn:Hr; simpl.
  - f_equal.
  - destruct a1 as [err|[[|[text|] [d|]]|]]; simpl.
    + unfold handleNetworkError, verdict, exception_line.
      destruct (is_cert_error err); run; f_equal; same_process.
    + unfold handleNetworkError, verdict, exception_line.
      rewrite type_error_not_cert_errors; run. f_equal; same_process.
    + run; f_equal; same_process.
    + run; f_equal; same_process.
    + run; f_equal; same_process.
    + run; f_equal; same_process.
    + run; f_equal; same_process.
Qed.

Lemma nerdgraphQuery_retry_table (key : string) (query : Query)
  (variables : Variables) (p : Process) :
  nerdgraphQuery_retry key (query, variables) p
  = match replies p with
    | [] => (Pending, add_events [Request key query variables] p)
    | a2 :: rest2 =>
        let p' := with_replies rest2
                    (add_events (Request key query variables :: second_log a2) p) in
        match verdict a2 with
        | v_data d => (Ret (Some d), p')
        | v_exit => (Exit 5, p')
        | v_uncaught => (Uncaught unparsed, p')
        | v_retry => (Ret None, p')
        end
    end.
Proof.
  unfold nerdgraphQuery_retry, bind, try_catch, buildRequestPromise; simpl.
  destruct (replies p) as [|a2 rest2] eqn:Hr; simpl.
  - f_equal.
  - destruct a2 as [err|[[|errs [d|]]|]]; simpl.
    + unfold handleNetworkError, verdict, exception_line.
      destruct (is_cert_error err); run; f_equal; same_process.
    + unfold handleNetworkError, verdict, exception_line.
      rewrite type_error_not_cert_data; run. f_equal; same_process.
    + run; f_equal; same_process.
    + run; f_equal; same_process.
    + run; f_equal; same_process.
Qed.

(** [nerdgraphQuery] is the table [transport]. *)
Lemma nerdgraphQuery_table (key : string) (query : Query)
  (variables : Variables) (p : Process) :
  nerdgraphQuery key query variables p
  = settle p (transport (Request key query variables) (replies p)).
Proof.
  unfold nerdgraphQuery, bind at 1.
  rewrite nerdgraphQuery_first_table.
  unfold settle, transport.
  destruct (replies p) as [|a1 rest1] eqn:Hr1; cbn [fst snd].
  - f_equal; same_process.
  - cbv zeta. destruct (verdict a1) eqn:Hv1; cbn [fst snd];
      try (unfold ret; f_equal; same_process).
    unfold bind. rewrite nerdgraphQuery_retry_table.
    cbn [replies with_replies].
    destruct rest1 as [|a2 rest2]; cbn [fst snd].
    + f_equal; same_process.
    + cbv zeta. destruct (verdict a2); cbn [fst snd]; unfold ret;
        f_equal; same_process.
Qed.

Lemma nerdgraphQuery_frame (key : string) (query : Query)
  (variables : Variables) (p p' : Process) (o : Outcome (option Data)) :
  nerdgraphQuery key query variables p = (o, p') ->
  state p' = state p /\ argv p' = argv p /\ clock p' = clock p.
Proof.
  rewrite nerdgraphQuery_table. unfold settle. intro H.
  inversion H; subst. simpl. auto.
Qed.

Lemma requests_add_events (evs : list Event) (p : Process) :
  requests (add_events evs p) = (requests p ++ filter is_request evs)%list.
Proof. unfold requests. simpl. apply filter_app. Qed.

Lemma requests_exception_line (err : JsError) :
  filter is_request (exception_line err) = [].
Proof. unfold exception_line. destruct (is_cert_error err); reflexivity. Qed.

Lemma requests_first_log (a : Attempt) : filter is_request (first_log a) = [].
Proof.
  destruct a as [err|[[|[text|] d]|]]; simpl;
    auto using requests_exception_line.
Qed.

Lemma requests_second_log (a : Attempt) : filter is_request (second_log a) = [].
Proof.
  destruct a as [err|[[|errs d]|]]; simpl; auto using requests_exception_line.
Qed.

(** One call sends the request once or twice, never more. *)
Lemma nerdgraphQuery_at_most_two_requests (key : string) (query : Query)
  (variables : Variables) (p p' : Process) (o : Outcome (option Data)) :
  nerdgraphQuery key query variables p = (o, p') ->
  requests p' = (requests p ++ [Request key query variables])%list
  \/ requests p' = (requests p ++ [Request key query variables;
                                   Request key query variables])%list.
Proof.
  rewrite nerdgraphQuery_table. unfold settle, transport. intro H.
  inversion H as [[Ho Hp]]; clear H Ho.
  change (requests (with_replies ?r ?q)) with (requests q).
  rewrite requests_add_events.
  destruct (replies p) as [|a1 rest1]; [left; reflexivity|].
  destruct (verdict a1);
    try (left; cbn [fst snd filter is_request];
         rewrite requests_first_log; reflexivity).
  destruct rest1 as [|a2 rest2]; right.
  - cbn [fst snd filter is_request].
    rewrite filter_app, requests_first_log. reflexivity.
  - assert (E : filter is_request
                  (Request key query variables :: first_log a1
                   ++ Request key query variables :: second_log a2)
                = [Request key query variables; Request key query variables]).
    { cbn [filter is_request].
      rewrite filter_app, requests_first_log. cbn [filter is_request app].
      rewrite requests_second_log. reflexivity. }
    destruct (verdict a2); cbn [fst snd]; rewrite E; reflexivity.
Qed.

(** The retry of a transient failure: the data of the second reply is
    returned, whatever the first attempt was. *)
Lemma nerdgraphQuery_retry_then_succeed (key : string) (query : Query)
  (variables : Variables) (p : Process) (a1 : Attempt) (errs : option string)
  (d : Data) (rest : list Attempt) :
  transient a1 = true ->
  replies p = a1 :: http_body (Some (resp_object errs (Some d))) :: rest ->
  nerdgraphQuery key query variables p
  = (Ret (Some d),
     with_replies rest
       (add_events (Request key query variables :: first_log a1
                    ++ [Request key query variables]) p)).
Proof.
  intros Ht Hr. rewrite nerdgraphQuery_table, Hr.
  unfold settle, transport, transient in *.
  destruct (verdict a1); try discriminate. reflexivity.
Qed.

(** Two transient failures: the caller gets [undefined], nothing is
    thrown. *)
Lemma nerdgraphQuery_retry_then_fail (key : string) (query : Query)
  (variables : Variables) (p : Process) (a1 a2 : Attempt)
  (rest : list Attempt) :
  transient a1 = true -> transient a2 = true ->
  replies p = a1 :: a2 :: rest ->
  nerdgraphQuery key query variables p
  = (Ret None,
     with_replies rest
       (add_events (Request key query variables :: first_log a1
                    ++ Request key query variables :: second_log a2) p)).
Proof.
  intros Ht1 Ht2 Hr. rewrite nerdgraphQuery_table, Hr.
  unfold settle, transport, transient in *.
  destruct (verdict a1); try discriminate.
  destruct (verdict a2); try discriminate. reflexivity.
Qed.

(** A reply with data at the first attempt. *)
Lemma nerdgraphQuery_served (key : string) (query : Query)
  (variables : Variables) (p : Process) (r : option string * Data)
  (rest : list Attempt) :
  replies p = served r :: rest ->
  nerdgraphQuery key query variables p
  = (Ret (Some (snd r)),
     with_replies rest
       (add_events (Request key query variables :: first_log (served r)) p)).
Proof.
  intro Hr. rewrite nerdgraphQuery_table, Hr. destruct r as [errs d].
  reflexivity.
Qed.

(** C2 (the code departs from the claim): a body that is not JSON at the
    first attempt.  [JSON.parse] throws inside the ['end'] listener of
    [buildRequestPromise], outside the promise and outside the [try] of
    [nerdgraphQuery]: one request is sent, there is no retry and the call
    does not return [undefined]; the run ends with the uncaught
    [SyntaxError], and the next reply is never asked for. *)
Theorem C2_unparsable_body_is_not_retried (key : string) (query : Query)
  (variables : Variables) (st : State) (next : Attempt) (rest : list Attempt)
  (evs : list Event) (args : list string) (clk : list Z) :
  nerdgraphQuery key query variables
    {| state := st; replies := http_body None :: next :: rest;
       events := evs; argv := args; clock := clk |}
  = (Uncaught unparsed,
     {| state := st; replies := next :: rest;
        events := (evs ++ [Request key query variables])%list;
        argv := args; clock := clk |}).
Proof. rewrite nerdgraphQuery_table. reflexivity. Qed.

(** C10 (the code departs from the claim): a first reply without [data]
    is followed by a second request, but when the second reply carries
    both [errors] and [data] the data is returned and the errors are not
    logged: the events added are the two requests and nothing else. *)
Theorem C10_errors_of_the_retry_are_not_logged (key : string) (query : Query)
  (variables : Variables) (st : State) (text : string) (d : Data)
  (rest : list Attempt) (evs : list Event) (args : list string)
  (clk : list Z) :
  nerdgraphQuery key query variables
    {| state := st;
       replies := http_body (Some (resp_object None None))
                  :: http_body (Some (resp_object (Some text) (Some d)))
                  :: rest;
       events := evs; argv := args; clock := clk |}
  = (Ret (Some d),
     {| state := st; replies := rest;
        events := (evs ++ [Request key query variables;
                           Request key query variables])%list;
        argv := args; clock := clk |}).
Proof. rewrite nerdgraphQuery_table. reflexivity. Qed.

(** The first half of C10: a first reply that resolves without [data],
    with or without [errors], is followed by exactly one more request. *)
Lemma nerdgraphQuery_retries_without_data (key : string) (query : Query)
  (variables : Variables) (p p' : Process) (errs : option string)
  (a2 : Attempt) (rest : list Attempt) (o : Outcome (option Data)) :
  replies p = http_body (Some (resp_object errs None)) :: a2 :: rest ->
  nerdgraphQuery key query variables p = (o, p') ->
  requests p' = (requests p ++ [Request key query variables;
                                Request key query variables])%list
  /\ replies p' = rest.
Proof.
  intros Hr. rewrite nerdgraphQuery_table, Hr. unfold settle, transport.
  cbn [verdict].
  pose proof (requests_first_log (http_body (Some (resp_object errs None))))
    as Hl1.
  pose proof (requests_second_log a2) as Hl2.
  set (l1 := first_log (http_body (Some (resp_object errs None)))) in *.
  set (l2 := second_log a2) in *.
  assert (E : forall q : Process,
             requests (with_replies rest
               (add_events (Request key query variables :: l1
                            ++ Request key query variables :: l2) q))
             = (requests q ++ [Request key query variables;
                              Request key query variables])%list).
  { intro q. change (requests (with_replies ?r ?q')) with (requests q').
    rewrite requests_add_events. f_equal.
    cbn [filter is_request]. rewrite filter_app, Hl1.
    cbn [filter is_request app]. rewrite Hl2. reflexivity. }
  destruct (verdict a2); cbn [fst snd]; intro H; inversion H; subst;
    (split; [apply E | reflexivity]).
Qed.

(** The first attempt also logs the errors that come with data. *)
Lemma nerdgraphQuery_logs_errors_of_first_reply (key : string) (query : Query)
  (variables : Variables) (p : Process) (text : string) (d : Data)
  (rest : list Attempt) :
  replies p = http_body (Some (resp_object (Some text) (Some d))) :: rest ->
  nerdgraphQuery key query variables p
  = (Ret (Some d),
     with_replies rest
       (add_events [Request key query variables;
                    Stderr (LF ++ "Error returned from API: " ++ text ++ LF)]
          p)).
Proof. intro Hr. rewrite nerdgraphQuery_table, Hr. reflexivity. Qed.

(* ================================================================== *)
(** ** The per-entity enricher *)
(* ================================================================== *)

(** The body of the loop, by cases on what the lookup gives. *)
Lemma findModulesByEntity_body_cases (key : string) (application : Application)
  (p : Process) :
  findModulesByEntity_body key application p
  = match entity_query application p with
    | (Ret data, p1) =>
        match entity_shape data with
        | Some (e, instances) =>
            (Ret tt,
             with_state
               (set_applications
                  (Obj.set key (enrich_application e instances application)
                     (applications (state p1))) (state p1)) p1)
        | None => (Ret tt, with_event (entity_warning application) p1)
        end
    | (Throw err, p1) =>
        (Ret tt,
         with_event
           (Stderr (LF ++ "Error fetching data for "
                    ++ interp id_string (guid application) ++ ": "
                    ++ err_toString err ++ LF)) p1)
    | (Exit code, p1) => (Exit code, p1)
    | (Uncaught err, p1) => (Uncaught err, p1)
    | (Pending, p1) => (Pending, p1)
    | (OutOfFuel, p1) => (OutOfFuel, p1)
    end.
Proof.
  unfold findModulesByEntity_body, entity_query, try_catch, bind at 1,
    get_state.
  unfold bind at 1.
  destruct (nerdgraphQuery _ _ _ p) as [[data|err|code|err| |] p1];
    try reflexivity.
  destruct (entity_shape data) as [[e instances]|]; reflexivity.
Qed.

(** A step of the loop that returns is followed by the rest of the loop. *)
Lemma findModulesByEntity_loop_step (key : string) (application : Application)
  (others : list (string * Application)) (progress entityCount : nat)
  (p p1 : Process) :
  findModulesByEntity_body key application p = (Ret tt, p1) ->
  findModulesByEntity_loop ((key, application) :: others) progress entityCount p
  = findModulesByEntity_loop others (S progress) entityCount
      (with_event (Stdout (scanning_service (S progress) entityCount)) p1).
Proof.
  intro H. simpl. unfold bind at 1. rewrite H. reflexivity.
Qed.

(** A step that ends the process ends the loop. *)
Lemma findModulesByEntity_loop_exit (key : string) (application : Application)
  (others : list (string * Application)) (progress entityCount : nat)
  (p p1 : Process) (code : Z) :
  entity_query application p = (Exit code, p1) ->
  findModulesByEntity_loop ((key, application) :: others) progress entityCount p
  = (Exit code, p1).
Proof.
  intro H. simpl. unfold bind at 1.
  rewrite findModulesByEntity_body_cases, H. reflexivity.
Qed.

(* ================================================================== *)
(** ** Certificate errors *)
(* ================================================================== *)

Lemma cert_error_first (err : JsError) (key : string) (query : Query)
  (variables : Variables) (p : Process) (rest : list Attempt) :
  is_cert_error err = true ->
  replies p = net_error err :: rest ->
  nerdgraphQuery key query variables p
  = (Exit 5,
     with_replies rest (add_events (cert_exit (Request key query variables)) p)).
Proof.
  intros Hc Hr. rewrite nerdgraphQuery_table, Hr.
  unfold settle, transport, verdict, first_log, exception_line.
  rewrite Hc. reflexivity.
Qed.

Lemma cert_error_retry (err : JsError) (key : string) (query : Query)
  (variables : Variables) (p : Process) (a1 : Attempt) (rest : list Attempt) :
  is_cert_error err = true ->
  transient a1 = true ->
  replies p = a1 :: net_error err :: rest ->
  nerdgraphQuery key query variables p
  = (Exit 5,
     with_replies rest
       (add_events (Request key query variables :: first_log a1
                    ++ cert_exit (Request key query variables)) p)).
Proof.
  intros Hc Ht Hr. rewrite nerdgraphQuery_table, Hr.
  unfold settle, transport, transient in *.
  destruct (verdict a1); try discriminate.
  unfold verdict, second_log, exception_line. rewrite Hc. reflexivity.
Qed.

Lemma findModulesByAccount_loop_exit (atob : string -> option string)
  (fuel : nat) (accountId : nullable Z) (others : list (nullable Z))
  (progress accountCount : nat) (p p1 : Process) (code : Z) :
  nerdgraphQuery (apiKey (state p)) getModulesInAccount
    (vars_account accountId (libraryName (state p)))
    (with_event (Stdout (scanning_account accountId (S progress) accountCount)) p)
  = (Exit code, p1) ->
  findModulesByAccount_loop atob fuel (accountId :: others) progress
    accountCount p
  = (Exit code, p1).
Proof.
  intro H. simpl. unfold bind at 1, stdout_write, emit.
  unfold bind at 1, findModulesByAccount_body, try_catch, bind at 1, get_state.
  unfold bind at 1. cbn [state with_event]. rewrite H. reflexivity.
Qed.

Lemma findServices_directory_exit (fuel : nat) (p p1 : Process) (code : Z) :
  nerdgraphQuery (apiKey (state p)) getServices vars_none
    (with_event
       (Stdout ("Scanning your accounts, this may take some time..." ++ LF)) p)
  = (Exit code, p1) ->
  findServices_directory fuel p = (Exit code, p1).
Proof.
  intro H. unfold findServices_directory, bind at 1, stdout_write, emit.
  unfold bind at 1, get_state. unfold bind at 1.
  cbn [state with_event]. rewrite H. reflexivity.
Qed.

(** C3: a certificate-trust error (code 18 or 19, or a text containing
    "self signed certificate") thrown by an attempt ends the process with
    exit status 5, right after [CERT_ERROR_HELP] is written.  After the
    failing request no request is sent: none when it was the first
    attempt, none when it was the retry; the directory builder and both
    enrichers end with it, so that no further page, entity or account is
    asked for, and the reply that follows is left unread. *)
Theorem C3_certificate_error_is_fatal (err : JsError) :
  is_cert_error err = true ->
  (forall key query variables p rest,
      replies p = net_error err :: rest ->
      nerdgraphQuery key query variables p
      = (Exit 5,
         with_replies rest
           (add_events (cert_exit (Request key query variables)) p)))
  /\ (forall key query variables p a1 rest,
      transient a1 = true ->
      replies p = a1 :: net_error err :: rest ->
      nerdgraphQuery key query variables p
      = (Exit 5,
         with_replies rest
           (add_events (Request key query variables :: first_log a1
                        ++ cert_exit (Request key query variables)) p)))
  /\ (forall fuel p rest,
      replies p = net_error err :: rest ->
      findServices_directory fuel p
      = (Exit 5,
         with_replies rest
           (add_events
              (Stdout ("Scanning your accounts, this may take some time..."
                       ++ LF)
               :: cert_exit (Request (apiKey (state p)) getServices vars_none))
              p)))
  /\ (forall key application others progress entityCount p rest,
      replies p = net_error err :: rest ->
      findModulesByEntity_loop ((key, application) :: others) progress
        entityCount p
      = (Exit 5,
         with_replies rest
           (add_events
              (cert_exit
                 (Request (apiKey (state p)) getModulesInEntity
                    (vars_entity (guid application) (libraryName (state p)))))
              p)))
  /\ (forall atob fuel accountId others progress accountCount p rest,
      replies p = net_error err :: rest ->
      findModulesByAccount_loop atob fuel (accountId :: others) progress
        accountCount p
      = (Exit 5,
         with_replies rest
           (add_events
              (Stdout (scanning_account accountId (S progress) accountCount)
               :: cert_exit
                    (Request (apiKey (state p)) getModulesInAccount
                       (vars_account accountId (libraryName (state p)))))
              p))).
Proof.
  intro Hc. repeat split.
  - intros. eapply cert_error_first; eassumption.
  - intros. eapply cert_error_retry; eassumption.
  - intros fuel p rest Hr.
    erewrite findServices_directory_exit.
    2:{ eapply cert_error_first; [eassumption | exact Hr]. }
    f_equal. same_process.
  - intros key application others progress entityCount p rest Hr.
    apply findModulesByEntity_loop_exit.
    unfold entity_query. eapply cert_error_first; eassumption.
  - intros atob fuel accountId others progress accountCount p rest Hr.
    erewrite findModulesByAccount_loop_exit.
    2:{ eapply cert_error_first; [eassumption | exact Hr]. }
    f_equal. same_process.
Qed.

Lemma entity_query_both_fail (application : Application) (p : Process)
  (a1 a2 : Attempt) (rest : list Attempt) :
  transient a1 = true -> transient a2 = true ->
  replies p = a1 :: a2 :: rest ->
  exists p1, entity_query application p = (Ret None, p1)
             /\ state p1 = state p /\ replies p1 = rest.
Proof.
  intros H1 H2 Hr. unfold entity_query.
  rewrite (nerdgraphQuery_retry_then_fail _ _ _ p H1 H2 Hr).
  eexists; repeat split.
Qed.

(** X30: when the lookup of an entity gives no data because both attempts
    fail transiently (a network error that is no certificate error, a
    body that parses to [null], a document without [data]), or gives
    data without [entity] or without [applicationInstances], the body of
    the loop writes nothing into [STATE] (the record and every other
    record stay as they are), writes to [stderr] a warning with the guid
    and the [nrUrl] of the record, and the loop goes on with the next
    entity. *)
Theorem entity_without_answer_is_left_unmodified
  (key : string) (application : Application)
  (others : list (string * Application)) (progress entityCount : nat)
  (p : Process) :
  (exists a1 a2 rest,
      transient a1 = true /\ transient a2 = true
      /\ replies p = a1 :: a2 :: rest)
  \/ (exists data p1,
      entity_query application p = (Ret data, p1)
      /\ entity_shape data = None) ->
  exists p1,
    findModulesByEntity_body key application p
    = (Ret tt, with_event (entity_warning application) p1)
    /\ state (with_event (entity_warning application) p1) = state p
    /\ findModulesByEntity_loop ((key, application) :: others) progress
         entityCount p
       = findModulesByEntity_loop others (S progress) entityCount
           (with_event (Stdout (scanning_service (S progress) entityCount))
              (with_event (entity_warning application) p1)).
Proof.
  intro H.
  assert (G : exists data p1,
             entity_query application p = (Ret data, p1)
             /\ entity_shape data = None).
  { destruct H as [(a1 & a2 & rest & H1 & H2 & Hr)|H]; [|exact H].
    destruct (entity_query_both_fail application p H1 H2 Hr)
      as (p1 & Hq & _ & _).
    exists None, p1. split; [exact Hq | reflexivity]. }
  destruct G as (data & p1 & Hq & Hshape).
  assert (Hbody : findModulesByEntity_body key application p
                  = (Ret tt, with_event (entity_warning application) p1)).
  { rewrite findModulesByEntity_body_cases, Hq, Hshape. reflexivity. }
  exists p1. repeat split.
  - exact Hbody.
  - unfold entity_query in Hq.
    destruct (nerdgraphQuery_frame _ _ _ _ Hq) as (Hs & _). exact Hs.
  - apply findModulesByEntity_loop_step. exact Hbody.
Qed.

(** C6 (the code departs from the claim): both attempts of the lookup of
    an entity fail, the first transiently and the second with a body
    that is not JSON.  The record is left as it is, but the enricher
    writes no diagnostic for it and the loop does not go on: the
    [SyntaxError] of [JSON.parse] is thrown in the ['end'] listener,
    outside the [try] of the loop body, so the run ends with it after
    the two requests for this entity.  No other entity is looked up, the
    replies that follow stay unread and no report is written. *)
Theorem C6_unparsable_body_aborts_the_scan (toISOString : Z -> string)
  (p : Process) (key : string) (application : Application)
  (others : list (string * Application)) (a1 : Attempt)
  (rest : list Attempt) :
  applications (state p) = (key, application) :: others ->
  transient a1 = true ->
  replies p = a1 :: http_body None :: rest ->
  findModulesByEntity toISOString p
  = (Uncaught unparsed,
     with_replies rest
       (add_events
          (Stdout (scanning_service 0
                     (length (Obj.values (applications (state p)))))
           :: entity_request (state p) (key, application)
           :: first_log a1
           ++ [entity_request (state p) (key, application)]) p)).
Proof.
  intros Ha Ht Hr. unfold findModulesByEntity, bind at 1, get_state.
  unfold bind at 1, stdout_write, emit.
  set (n := length (Obj.values (applications (state p)))).
  rewrite Ha. cbn [findModulesByEntity_loop].
  unfold bind at 1. unfold bind at 1.
  rewrite findModulesByEntity_body_cases. unfold entity_query.
  rewrite nerdgraphQuery_table. cbn [replies with_event state].
  rewrite Hr. unfold settle, transport, transient in *.
  destruct (verdict a1); try discriminate.
  cbn [verdict fst snd]. f_equal. unfold entity_request. cbn [snd].
  apply process_eq; simpl; try reflexivity.
  rewrite <- !app_assoc. reflexivity.
Qed.

(** C9: merging the same response into a record a second time changes
    nothing, for the whole per-entity merge (agent versions, instance
    count, library, version and checksums) and for the merge of a single
    module that both enrichers share. *)
Theorem C9_entity_merge_is_idempotent (e : EntityData)
  (instances : list Instance) (module : Module) (application : Application) :
  enrich_application e instances
    (enrich_application e instances application)
  = enrich_application e instances application
  /\ merge_module (merge_module application module) module
     = merge_module application module.
Proof.
  split.
  - rewrite !enrich_application_patch. apply apply_twice.
  - rewrite !merge_module_patch. apply apply_twice.
Qed.

(** C4, as the code has it: for a response with [applicationInstances]
    the record stored under the key is [enrich_application]; in it
    [examinedInstances] is the number of instances with at least one
    module; [agentVersion] is [concatNoneOrMore] of the minimum and the
    maximum version when the response has [runningAgentVersions], and
    is left alone otherwise; [library] and [libraryVersion] are the name
    and version of the last module in iteration order, and are left
    alone when no instance has a module; [librarySha1] and
    [librarySha512] are the last non-empty checksum of that name carried
    by any module of the response, not necessarily the last module, and
    are left alone when no module carries one; the other fields do not
    change. *)
Theorem C4_entity_enrichment (key : string) (application : Application)
  (p p1 : Process) (data : option Data) (e : EntityData)
  (instances : list Instance) :
  entity_query application p = (Ret data, p1) ->
  entity_shape data = Some (e, instances) ->
  let r := enrich_application e instances application in
  findModulesByEntity_body key application p
  = (Ret tt,
     with_state
       (set_applications (Obj.set key r (applications (state p1))) (state p1))
       p1)
  /\ examinedInstances r = val (reporting_instances instances)
  /\ agentVersion r
     = match runningAgentVersions e with
       | Some versions =>
           val (concatNoneOrMore (minVersion versions) (maxVersion versions)
                  undefined undefined undefined undefined)
       | None => agentVersion application
       end
  /\ library r
     = match last_module instances with
       | Some m => mod_name m
       | None => library application
       end
  /\ libraryVersion r
     = match last_module instances with
       | Some m => mod_version m
       | None => libraryVersion application
       end
  /\ librarySha1 r
     = written (last_checksum "sha1Checksum" instances)
         (librarySha1 application)
  /\ librarySha512 r
     = written (last_checksum "sha512Checksum" instances)
         (librarySha512 application)
  /\ (guid r = guid application /\ name r = name application
      /\ applicationId r = applicationId application
      /\ accountId r = accountId application
      /\ reporting r = reporting application
      /\ nrUrl r = nrUrl application).
Proof.
  intros Hq Hshape r. split.
  { rewrite findModulesByEntity_body_cases, Hq, Hshape. reflexivity. }
  subst r. rewrite enrich_application_patch.
  unfold enrich_patch, apply_patch, and_then; cbn -[concatNoneOrMore].
  rewrite written_agentVersion_none, written_library, written_libraryVersion,
    written_librarySha1, written_librarySha512.
  repeat split.
  - destruct (runningAgentVersions e); reflexivity.
  - destruct (last_module instances); reflexivity.
  - destruct (last_module instances); reflexivity.
  - destruct (last_checksum "sha1Checksum" instances); reflexivity.
  - destruct (last_checksum "sha512Checksum" instances); reflexivity.
Qed.

(* ================================================================== *)
(** ** The dictionary *)
(* ================================================================== *)

Section ObjFacts.
Variable V : Type.
Implicit Types (o : Obj.t V) (k : string) (v : V).

Lemma get_set_same k v o : Obj.get k (Obj.set k v o) = Some v.
Proof.
  induction o as [|[k' v'] o IH]; simpl.
  - rewrite String.eqb_refl. reflexivity.
  - destruct (String.eqb k k') eqn:E; simpl; rewrite E; auto.
Qed.

Lemma get_set_other k k' v o :
  k <> k' -> Obj.get k' (Obj.set k v o) = Obj.get k' o.
Proof.
  intro Hne. induction o as [|[k0 v0] o IH]; simpl.
  - destruct (String.eqb_spec k' k); congruence.
  - destruct (String.eqb_spec k k0); simpl.
    + subst k0. destruct (String.eqb_spec k' k); congruence.
    + rewrite IH. reflexivity.
Qed.

Lemma in_set k v o k' v' :
  In (k', v') (Obj.set k v o) -> (k' = k /\ v' = v) \/ In (k', v') o.
Proof.
  induction o as [|[k0 v0] o IH]; simpl.
  - intros [H|[]]. inversion H. auto.
  - destruct (String.eqb_spec k k0); simpl.
    + subst k0. intros [H|H]; [inversion H; auto | auto].
    + intros [H|H]; [auto | destruct (IH H); auto].
Qed.

Lemma in_keys_set k v o k' :
  In k' (Obj.keys (Obj.set k v o)) <-> k' = k \/ In k' (Obj.keys o).
Proof.
  unfold Obj.keys. induction o as [|[k0 v0] o IH]; simpl.
  - intuition.
  - destruct (String.eqb_spec k k0); simpl.
    + subst k0. intuition.
    + rewrite IH. intuition.
Qed.

Lemma NoDup_keys_set k v o :
  NoDup (Obj.keys o) -> NoDup (Obj.keys (Obj.set k v o)).
Proof.
  unfold Obj.keys. induction o as [|[k0 v0] o IH]; simpl; intro H.
  - constructor; [intros [] | constructor].
  - inversion H as [|? ? Hnotin Hnd]; subst.
    destruct (String.eqb_spec k k0); simpl.
    + constructor; assumption.
    + constructor; [|apply IH; assumption].
      intro Hin. apply (in_keys_set k v o k0) in Hin.
      destruct Hin as [Heq|Hin]; [congruence | contradiction].
Qed.

Lemma get_in k v o : Obj.get k o = Some v -> In (k, v) o.
Proof.
  induction o as [|[k0 v0] o IH]; simpl; [discriminate|].
  destruct (String.eqb_spec k k0).
  - intro H. inversion H. subst. auto.
  - auto.
Qed.

Lemma in_get k v o : NoDup (Obj.keys o) -> In (k, v) o -> Obj.get k o = Some v.
Proof.
  unfold Obj.keys. induction o as [|[k0 v0] o IH]; simpl; intros Hnd Hin.
  - contradiction.
  - inversion Hnd as [|? ? Hnotin Hnd']; subst.
    destruct Hin as [H|H].
    + inversion H; subst. rewrite String.eqb_refl. reflexivity.
    + destruct (String.eqb_spec k k0).
      * subst k0. exfalso. apply Hnotin.
        change k with (fst (k, v)). apply in_map. exact H.
      * apply IH; assumption.
Qed.

Lemma get_none_not_in_keys k o : Obj.get k o = None -> ~ In k (Obj.keys o).
Proof.
  unfold Obj.keys. induction o as [|[k0 v0] o IH]; simpl; intros H Hin.
  - exact Hin.
  - destruct Hin as [Heq|Hin].
    + subst k0. rewrite String.eqb_refl in H. discriminate.
    + destruct (String.eqb k k0); [discriminate | exact (IH H Hin)].
Qed.

Lemma last_some_default {A : Type} (l : list A) (d : option A) :
  last (map Some l) d
  = match last (map Some l) None with
    | Some x => Some x
    | None => d
    end.
Proof.
  revert d. induction l as [|x l IH]; intro d; [reflexivity|].
  simpl map. rewrite !last_cons_default.
  rewrite (IH (Some x)). destruct (last (map Some l) None); reflexivity.
Qed.

End ObjFacts.

(** *** What the directory builder stores *)

Lemma listed_cons (g : string) (e : Entity) (es : list Entity) :
  listed g (e :: es)
  = match listed g es with
    | Some e' => Some e'
    | None => if has_guid g e then Some e else None
    end.
Proof.
  unfold listed. simpl filter. destruct (has_guid g e).
  - simpl map. rewrite last_cons_default. apply last_some_default.
  - destruct (last (map Some (filter (has_guid g) es)) None); reflexivity.
Qed.

Lemma get_store_entity (g : string) (e : Entity) (apps : Obj.t Application) :
  Obj.get g (store_entity apps e)
  = if has_guid g e then Some (application_of_entity e) else Obj.get g apps.
Proof.
  unfold store_entity, has_guid, nullable_is.
  destruct (e_guid e) as [| |g']; try reflexivity.
  destruct (String.eqb_spec g' g) as [->|Hne]; simpl.
  - destruct (truthy_string g); [apply get_set_same | reflexivity].
  - destruct (truthy_string g'); [apply get_set_other; exact Hne | reflexivity].
Qed.

Lemma get_store_entities (g : string) (es : list Entity)
  (apps : Obj.t Application) :
  Obj.get g (fold_left store_entity es apps)
  = match listed g es with
    | Some e => Some (application_of_entity e)
    | None => Obj.get g apps
    end.
Proof.
  revert apps. induction es as [|e es IH]; intro apps; [reflexivity|].
  simpl fold_left. rewrite IH, listed_cons, get_store_entity.
  destruct (listed g es); [reflexivity|].
  destruct (has_guid g e); reflexivity.
Qed.

Lemma keyed_store_entity (e : Entity) (apps : Obj.t Application) :
  keyed apps -> keyed (store_entity apps e).
Proof.
  intros [Hnd Hk]. unfold store_entity.
  destruct (e_guid e) as [| |g] eqn:Hg; try (split; assumption).
  destruct (truthy_string g); [|split; assumption].
  split; [apply NoDup_keys_set; exact Hnd|].
  intros k a Hin. apply in_set in Hin. destruct Hin as [[-> ->]|Hin].
  - simpl. exact Hg.
  - apply Hk. exact Hin.
Qed.

Lemma keyed_store_entities (es : list Entity) (apps : Obj.t Application) :
  keyed apps -> keyed (fold_left store_entity es apps).
Proof.
  revert apps. induction es as [|e es IH]; intros apps H; [exact H|].
  simpl. apply IH, keyed_store_entity, H.
Qed.

(* ================================================================== *)
(** ** The directory builder *)
(* ================================================================== *)

Lemma page_view_search (d : Data) (es : list Entity) (c : nullable string) :
  page_view d = Some (es, c) ->
  exists a s r,
    actor d = Some a /\ entitySearch a = Some s /\ results s = Some r
    /\ entities r = Some es /\ nextCursor r = c.
Proof.
  unfold page_view.
  destruct (actor d) as [a|]; [|discriminate].
  destruct (entitySearch a) as [s|] eqn:Hs; [|discriminate].
  destruct (results s) as [r|] eqn:Hr; [|discriminate].
  destruct (entities r) as [es'|] eqn:He; [|discriminate].
  intro H. inversion H; subst. exists a, s, r. auto.
Qed.

Lemma findServices_pages_last (fuel batch : nat) (d : Data)
  (es : list Entity) (c : nullable string) (p : Process) :
  page_view d = Some (es, c) ->
  truthy truthy_string c = false ->
  findServices_pages (S fuel) (Some d) batch p = (Ret tt, stored es p).
Proof.
  intros Hv Hc.
  destruct (@page_view_search d _ _ Hv) as (a & s & r & Ha & Hs & Hr & He & Hn).
  simpl. unfold entitySearch_of, deref, bind, ret, modify_state.
  rewrite Ha, Hs, Hr, He, Hn.
  destruct c as [| |cursor]; try reflexivity.
  simpl in Hc. rewrite Hc. reflexivity.
Qed.

Lemma findServices_pages_next (fuel batch : nat) (d : Data)
  (es : list Entity) (cursor : string) (p : Process) :
  page_view d = Some (es, val cursor) ->
  truthy_string cursor = true ->
  findServices_pages (S fuel) (Some d) batch p
  = (resultSet <- nerdgraphQuery (apiKey (state p)) getMoreServices
                    (vars_cursor cursor) ;;
     findServices_pages fuel resultSet (S batch))
      (with_event (Stdout (spinner batch)) (stored es p)).
Proof.
  intros Hv Hc.
  destruct (@page_view_search d _ _ Hv) as (a & s & r & Ha & Hs & Hr & He & Hn).
  simpl. unfold entitySearch_of, deref, bind, ret, modify_state, stdout_write,
    emit, get_state.
  rewrite Ha, Hs, Hr, He, Hn, Hc. reflexivity.
Qed.

Lemma page_entities_view (d : Data) (es : list Entity) (c : nullable string) :
  page_view d = Some (es, c) -> page_entities d = es.
Proof. unfold page_entities. intro H. rewrite H. reflexivity. Qed.

Lemma page_cursor_view (d : Data) (es : list Entity) (c : string) :
  page_view d = Some (es, val c) -> page_cursor d = c.
Proof. unfold page_cursor. intro H. rewrite H. reflexivity. Qed.

(** The loop over a complete listing: every page is stored, every cursor
    is followed once, and the loop ends at the page without cursor. *)
Lemma findServices_pages_listing (more : list (option string * Data)) :
  forall (d : Data) (fuel batch : nat) (p : Process) (rest : list Attempt),
    listing d more ->
    replies p = (map served more ++ rest)%list ->
    length more < fuel ->
    exists p',
      findServices_pages fuel (Some d) batch p = (Ret tt, p')
      /\ replies p' = rest
      /\ applications (state p')
         = fold_left store_entity
             (flat_map page_entities (d :: map snd more))
             (applications (state p))
      /\ requests p'
         = (requests p ++ cursor_requests (apiKey (state p)) d more)%list
      /\ apiKey (state p') = apiKey (state p).
Proof.
  induction more as [|next more IH]; intros d fuel batch p rest Hl Hr Hf.
  - destruct fuel as [|fuel]; [inversion Hf|].
    destruct Hl as (es & c & Hv & Hc).
    exists (stored es p). split; [apply (@findServices_pages_last _ _ _ _ _ _ Hv Hc)|].
    simpl. rewrite (@page_entities_view _ _ _ Hv), !app_nil_r.
    repeat split. exact Hr.
  - destruct fuel as [|fuel]; [inversion Hf|].
    destruct Hl as ((es & c & Hv & Hc) & Hl).
    rewrite (@findServices_pages_next _ _ _ _ _ _ Hv Hc).
    unfold bind at 1.
    set (p1 := with_event (Stdout (spinner batch)) (stored es p)).
    assert (Hr1 : replies p1 = served next :: (map served more ++ rest)%list)
      by exact Hr.
    rewrite (@nerdgraphQuery_served _ _ _ p1 next _ Hr1).
    set (p2 := with_replies (map served more ++ rest)%list
                 (add_events
                    (Request (apiKey (state p)) getMoreServices (vars_cursor c)
                     :: first_log (served next)) p1)).
    destruct (IH (snd next) fuel (S batch) p2 rest Hl eq_refl)
      as (p' & Hrun & Hrest & Happs & Hreq & Hkey).
    { simpl in Hf. lia. }
    exists p'. split; [exact Hrun|]. split; [exact Hrest|].
    split; [|split].
    + rewrite Happs. simpl. rewrite (@page_entities_view _ _ _ Hv).
      rewrite !fold_left_app. reflexivity.
    + rewrite Hreq. simpl cursor_requests.
      rewrite (@page_cursor_view _ _ _ Hv).
      unfold p2. change (requests (with_replies ?r ?q)) with (requests q).
      rewrite requests_add_events. cbn [filter is_request].
      rewrite requests_first_log. unfold requests; simpl.
      rewrite filter_app; simpl. rewrite <- !app_assoc. reflexivity.
    + rewrite Hkey. reflexivity.
Qed.

Lemma listing_view (d : Data) (more : list (option string * Data)) :
  listing d more -> exists es c, page_view d = Some (es, c).
Proof.
  destruct more as [|next more]; simpl.
  - intros (es & c & Hv & _). eauto.
  - intros ((es & c & Hv & _) & _). eauto.
Qed.

Lemma entitySearch_of_view (d : Data) (es : list Entity) (c : nullable string)
  (p : Process) :
  page_view d = Some (es, c) ->
  exists s, entitySearch_of (Some d) p = (Ret s, p).
Proof.
  intro Hv.
  destruct (@page_view_search d _ _ Hv) as (a & s & r & Ha & Hs & _).
  exists s. unfold entitySearch_of, deref, bind, ret. rewrite Ha, Hs.
  reflexivity.
Qed.

Lemma length_cursor_requests (key : string) (more : list (option string * Data)) :
  forall d, length (cursor_requests key d more) = length more.
Proof.
  induction more as [|next more IH]; intro d; simpl; [reflexivity|].
  rewrite IH. reflexivity.
Qed.

Lemma requests_with_event_other (e : Event) (p : Process) :
  is_request e = false -> requests (with_event e p) = requests p.
Proof.
  intro H. unfold requests. simpl. rewrite filter_app. simpl. rewrite H.
  apply app_nil_r.
Qed.

(** C1: when the list-entities query is answered by K pages, of which
    all but the last carry a non-empty [nextCursor], the directory builder
    returns after exactly K requests: the first without cursor, then one
    per page with the cursor of that page, in the order of the pages; no
    other reply is read.  The dictionary it leaves holds, for every guid,
    the last entity listed with that guid (and nothing for a guid that no
    entity with a non-empty guid carries), each under its guid as key, at
    most once. *)
Theorem C1_directory_of_a_listing (first : option string * Data)
  (more : list (option string * Data)) (rest : list Attempt) (p : Process)
  (fuel : nat) :
  listing (snd first) more ->
  replies p = (served first :: map served more ++ rest)%list ->
  applications (state p) = [] ->
  length more < fuel ->
  let es := flat_map page_entities (snd first :: map snd more) in
  let sent :=
    Request (apiKey (state p)) getServices vars_none
    :: cursor_requests (apiKey (state p)) (snd first) more in
  exists p',
    findServices_directory fuel p = (Ret tt, p')
    /\ replies p' = rest
    /\ requests p' = (requests p ++ sent)%list
    /\ length sent = S (length more)
    /\ applications (state p') = fold_left store_entity es []
    /\ (forall g,
          Obj.get g (applications (state p'))
          = option_map application_of_entity (listed g es))
    /\ keyed (applications (state p')).
Proof.
  intros Hl Hr Hempty Hf es sent.
  destruct (@listing_view _ _ Hl) as (es1 & c1 & Hv).
  unfold findServices_directory.
  unfold bind at 1, stdout_write at 1, emit.
  set (p0 := with_event
               (Stdout ("Scanning your accounts, this may take some time..."
                        ++ LF)) p).
  unfold bind at 1, get_state. unfold bind at 1.
  assert (Hr0 : replies p0 = served first :: (map served more ++ rest)%list)
    by exact Hr.
  change (state p0) with (state p).
  rewrite (@nerdgraphQuery_served _ _ _ p0 first _ Hr0).
  set (p1 := with_replies (map served more ++ rest)%list
               (add_events
                  (Request (apiKey (state p)) getServices vars_none
                   :: first_log (served first)) p0)).
  unfold bind at 1.
  destruct (@entitySearch_of_view _ _ _ p1 Hv) as (s & Hs). rewrite Hs.
  unfold bind at 1, stdout_write at 1, emit.
  set (p2 := with_event _ p1).
  unfold bind at 1.
  destruct (@findServices_pages_listing more (snd first) fuel 1 p2 rest Hl
              eq_refl Hf) as (p' & Hrun & Hrest & Happs & Hreq & Hkey).
  rewrite Hrun.
  unfold bind at 1. unfold stdout_write, emit.
  eexists. split; [reflexivity|].
  assert (Hfinal : applications (state p') = fold_left store_entity es []).
  { rewrite Happs. change (applications (state p2)) with (applications (state p)).
    rewrite Hempty. reflexivity. }
  split; [exact Hrest|]. split; [|split; [|split; [|split]]].
  - rewrite requests_with_event_other by reflexivity.
    rewrite Hreq. unfold p2.
    rewrite requests_with_event_other by reflexivity.
    unfold p1. change (requests (with_replies ?r ?q)) with (requests q).
    rewrite requests_add_events. cbn [filter is_request].
    rewrite requests_first_log. unfold p0.
    rewrite requests_with_event_other by reflexivity.
    rewrite <- app_assoc. reflexivity.
  - unfold sent. simpl. rewrite length_cursor_requests. reflexivity.
  - exact Hfinal.
  - intro g. simpl state. rewrite Hfinal, get_store_entities.
    destruct (listed g es); reflexivity.
  - simpl state. rewrite Hfinal. apply keyed_store_entities.
    split; [constructor | intros k a []].
Qed.

(* ================================================================== *)
(** ** The invariant of the working set *)
(* ================================================================== *)

Lemma keyed_set (k : string) (a : Application) (apps : Obj.t Application) :
  keyed apps -> guid a = val k -> keyed (Obj.set k a apps).
Proof.
  intros [Hnd Hk] Hg. split; [apply NoDup_keys_set; exact Hnd|].
  intros k' a' Hin. apply in_set in Hin. destruct Hin as [[-> ->]|Hin].
  - exact Hg.
  - apply Hk. exact Hin.
Qed.

Lemma guid_apply_patch (P : Patch) (a : Application) :
  guid (apply_patch P a) = guid a.
Proof. reflexivity. Qed.

Lemma guid_enrich_application (e : EntityData) (instances : list Instance)
  (a : Application) :
  guid (enrich_application e instances a) = guid a.
Proof. rewrite enrich_application_patch. reflexivity. Qed.

Lemma guid_merge_module (a : Application) (m : Module) :
  guid (merge_module a m) = guid a.
Proof. rewrite merge_module_patch. reflexivity. Qed.

Lemma keyed_merge_account_module (atob : string -> option string)
  (accountId : nullable Z) (appName : string) (module : Module)
  (g : string) (apps : Obj.t Application) :
  keyed apps -> keyed (merge_account_module atob accountId appName module g apps).
Proof.
  intro Hk. unfold merge_account_module.
  destruct (Obj.get g apps) as [a|] eqn:Hget.
  - rewrite Hget. apply keyed_set; [exact Hk|].
    rewrite guid_merge_module. apply (proj2 Hk). apply get_in. exact Hget.
  - rewrite get_set_same. apply keyed_set.
    + apply keyed_set; [exact Hk | reflexivity].
    + rewrite guid_merge_module. reflexivity.
Qed.

(** Without a module the per-entity merge leaves the evidence fields as
    they are. *)
Lemma enrich_without_modules (e : EntityData) (instances : list Instance)
  (a : Application) :
  all_modules instances = [] ->
  no_evidence a -> no_evidence (enrich_application e instances a).
Proof.
  intros Hnone (H1 & H2 & H3 & H4).
  rewrite enrich_application_patch.
  unfold no_evidence, enrich_patch, apply_patch, and_then;
    cbn -[concatNoneOrMore].
  rewrite written_library, written_libraryVersion, written_librarySha1,
    written_librarySha512.
  unfold last_module, last_checksum. rewrite Hnone. simpl.
  auto.
Qed.

Lemma no_evidence_of_entity (e : Entity) : no_evidence (application_of_entity e).
Proof. repeat split. Qed.

Lemma writes_preserve_invariant (atob : string -> option string)
  (w w' : WorkingSet) :
  invariant w -> writes atob w w' -> invariant w'.
Proof.
  intros [Hk Hev] Hw. destruct Hw as [w e | w key a e instances Hget | w acc appName m g].
  - (* directory *)
    split; simpl; [apply keyed_store_entity; exact Hk|].
    intros k a Hin Hnot. unfold store_entity in Hin.
    destruct (e_guid e) as [| |g]; try (apply (Hev k a Hin Hnot)).
    destruct (truthy_string g); [|apply (Hev k a Hin Hnot)].
    apply in_set in Hin. destruct Hin as [[_ ->]|Hin].
    + apply no_evidence_of_entity.
    + apply (Hev k a Hin Hnot).
  - (* entity *)
    pose proof (get_in _ _ Hget) as Hin0.
    split; simpl.
    + apply keyed_set; [exact Hk|].
      rewrite guid_enrich_application. apply (proj2 Hk). exact Hin0.
    + intros k b Hin Hnot. apply in_set in Hin.
      destruct Hin as [[-> ->]|Hin].
      * destruct (all_modules instances) eqn:Hm.
        -- apply enrich_without_modules; [exact Hm|].
           apply (Hev key a Hin0 Hnot).
        -- exfalso. apply Hnot. left. reflexivity.
      * apply (Hev k b Hin).
        destruct (all_modules instances); [exact Hnot|].
        intro Hk'. apply Hnot. right. exact Hk'.
  - (* account *)
    split; simpl; [apply keyed_merge_account_module; exact Hk|].
    intros k a Hin Hnot.
    assert (Hne : k <> g) by (intro; subst; apply Hnot; left; reflexivity).
    assert (Hnot' : ~ In k (evidenced w))
      by (intro; apply Hnot; right; assumption).
    apply (Hev k a); [|exact Hnot'].
    unfold merge_account_module in Hin.
    destruct (Obj.get g (directory w)) as [a0|] eqn:Hget.
    + rewrite Hget in Hin. apply in_set in Hin.
      destruct Hin as [[Heq _]|Hin]; [contradiction | exact Hin].
    + rewrite get_set_same in Hin. apply in_set in Hin.
      destruct Hin as [[Heq _]|Hin]; [contradiction|].
      apply in_set in Hin.
      destruct Hin as [[Heq _]|Hin]; [contradiction | exact Hin].
Qed.

(** *** The invariant along a whole run *)

Section Preserves.
Variable I : Obj.t Application -> Prop.

Lemma preserves_ret {A : Type} (a : A) : preserves I (ret a).
Proof. intros p o p' H E. inversion E; subst. exact H. Qed.

Lemma preserves_throw {A : Type} (e : JsError) : preserves I (@throw A e).
Proof. intros p o p' H E. inversion E; subst. exact H. Qed.

Lemma preserves_halt {A : Type} (o : Outcome A) :
  preserves I (fun p => (o, p)).
Proof. intros p o' p' H E. inversion E; subst. exact H. Qed.

Lemma preserves_bind {A B : Type} (c : Proc A) (k : A -> Proc B) :
  preserves I c -> (forall a, preserves I (k a)) -> preserves I (bind c k).
Proof.
  intros Hc Hk p o p' H E. unfold bind in E.
  destruct (c p) as [[a|e|n|e| |] p1] eqn:Ec;
    try (inversion E; subst; apply (Hc _ _ _ H Ec)).
  apply (Hk a p1 o p'); [apply (Hc _ _ _ H Ec) | exact E].
Qed.

Lemma preserves_try_catch {A : Type} (c : Proc A) (h : JsError -> Proc A) :
  preserves I c -> (forall e, preserves I (h e)) ->
  preserves I (try_catch c h).
Proof.
  intros Hc Hh p o p' H E. unfold try_catch in E.
  destruct (c p) as [[a|e|n|e| |] p1] eqn:Ec;
    try (inversion E; subst; apply (Hc _ _ _ H Ec)).
  apply (Hh e p1 o p'); [apply (Hc _ _ _ H Ec) | exact E].
Qed.

Lemma preserves_emit (e : Event) : preserves I (emit e).
Proof. intros p o p' H E. inversion E; subst. exact H. Qed.

Lemma preserves_get_state : preserves I get_state.
Proof. intros p o p' H E. inversion E; subst. exact H. Qed.

Lemma preserves_get_argv : preserves I get_argv.
Proof. intros p o p' H E. inversion E; subst. exact H. Qed.

Lemma preserves_Date_now : preserves I Date_now.
Proof.
  intros p o p' H E. unfold Date_now in E.
  destruct (clock p); inversion E; subst; exact H.
Qed.

Lemma preserves_deref {A : Type} (x : option A) (msg : string) :
  preserves I (deref x msg).
Proof. destruct x; [apply preserves_ret | apply preserves_throw]. Qed.

Lemma preserves_modify_state (f : State -> State) :
  (forall s, I (applications s) -> I (applications (f s))) ->
  preserves I (modify_state f).
Proof. intros Hf p o p' H E. inversion E; subst. simpl. apply Hf, H. Qed.

Lemma preserves_nerdgraphQuery (key : string) (query : Query)
  (variables : Variables) :
  preserves I (nerdgraphQuery key query variables).
Proof.
  intros p o p' H E. destruct (nerdgraphQuery_frame _ _ _ _ E) as (Hs & _).
  rewrite Hs. exact H.
Qed.

Lemma preserves_for_of {A : Type} (body : A -> Proc unit) (l : list A) :
  (forall x, preserves I (body x)) -> preserves I (for_of l body).
Proof.
  intro Hb. induction l as [|x l IH]; simpl.
  - apply preserves_ret.
  - apply preserves_bind; [apply Hb | intros _; exact IH].
Qed.

End Preserves.

Create HintDb pres.

#[local] Hint Resolve preserves_ret preserves_throw preserves_emit
  preserves_get_state preserves_get_argv preserves_Date_now preserves_deref
  preserves_nerdgraphQuery preserves_halt : pres.

Ltac pres_step :=
  first
    [ solve [unfold stdout_write, stderr_write, process_exit;
             auto with pres]
    | apply preserves_bind; [|intro]
    | apply preserves_try_catch; [|intro]
    | apply preserves_for_of; intro ].

Lemma preserves_writeResults (I : Obj.t Application -> Prop)
  (toISOString : Z -> string) :
  preserves I (writeResults toISOString).
Proof.
  unfold writeResults. repeat pres_step.
  - apply preserves_modify_state. intros s H. exact H.
  - destruct (array_includes _ _); repeat pres_step.
  - destruct (array_includes _ _ || negb _); repeat pres_step.
Qed.

Lemma preserves_findServices_pages (fuel : nat) :
  forall resultSet batch,
    preserves keyed (findServices_pages fuel resultSet batch).
Proof.
  induction fuel as [|fuel IH]; intros resultSet batch; simpl.
  - apply preserves_halt.
  - destruct resultSet as [d|]; [|apply preserves_ret].
    unfold entitySearch_of. repeat pres_step.
    + apply preserves_modify_state. intros s H.
      apply keyed_store_entities. exact H.
    + destruct (nextCursor _) as [| |cursor]; try apply preserves_ret.
      destruct (truthy_string cursor); [|apply preserves_ret].
      repeat pres_step.
Qed.

Lemma preserves_findServices_directory (fuel : nat) :
  preserves keyed (findServices_directory fuel).
Proof.
  unfold findServices_directory, entitySearch_of. repeat pres_step.
  apply preserves_findServices_pages.
Qed.

Lemma preserves_findModulesByEntity_body (key : string)
  (application : Application) :
  guid application = val key ->
  preserves keyed (findModulesByEntity_body key application).
Proof.
  intros Hg p o p' H E. rewrite findModulesByEntity_body_cases in E.
  destruct (entity_query application p) as [o1 p1] eqn:Hq.
  unfold entity_query in Hq.
  destruct (nerdgraphQuery_frame _ _ _ _ Hq) as (Hs & _).
  rewrite <- Hs in H.
  destruct o1 as [data|e|n|e| |]; try (inversion E; subst; exact H).
  destruct (entity_shape data) as [[e instances]|];
    inversion E; subst; simpl; [|exact H].
  apply keyed_set; [exact H|].
  rewrite guid_enrich_application. exact Hg.
Qed.

Lemma preserves_findModulesByEntity_loop (l : list (string * Application)) :
  forall progress entityCount,
    (forall k a, In (k, a) l -> guid a = val k) ->
    preserves keyed (findModulesByEntity_loop l progress entityCount).
Proof.
  induction l as [|[key application] l IH]; intros progress entityCount Hl;
    simpl.
  - apply preserves_ret.
  - apply preserves_bind.
    + apply preserves_findModulesByEntity_body. apply Hl. left. reflexivity.
    + intros _. apply preserves_bind; [apply preserves_emit|].
      intros _. apply IH.
      intros k a Hin. apply Hl. right. exact Hin.
Qed.


Lemma preserves_findModulesByEntity (toISOString : Z -> string) :
  preserves keyed (findModulesByEntity toISOString).
Proof.
  intros p o p' H E. unfold findModulesByEntity in E.
  unfold bind at 1, get_state in E.
  match type of E with
  | ?c p = _ => assert (G : preserves keyed c)
  end.
  { apply preserves_bind; [apply preserves_emit|].
    intros _. apply preserves_bind.
    + apply preserves_findModulesByEntity_loop.
      intros k a Hin. apply (proj2 H). exact Hin.
    + intros _. apply preserves_bind; [apply preserves_emit|].
      intros _. apply preserves_writeResults. }
  exact (G p o p' H E).
Qed.

Lemma preserves_findModulesByAccount_result (atob : string -> option string)
  (accountId : nullable Z) (result : ModuleResult) :
  preserves keyed (findModulesByAccount_result atob accountId result).
Proof.
  unfold findModulesByAccount_result.
  apply preserves_bind; [apply preserves_deref|]. intros [|m loaded].
  - apply preserves_ret.
  - apply preserves_bind; [apply preserves_deref|]. intro d.
    apply preserves_bind.
    { destruct (d_name d); auto with pres. }
    intro name. apply preserves_for_of. intro module.
    apply preserves_bind.
    { destruct (applicationGuids result) as [[|g gs]|];
        unfold stdout_write; auto with pres. }
    intros _. apply preserves_bind; [apply preserves_deref|]. intro guids.
    apply preserves_for_of. intro g.
    apply preserves_modify_state. intros s Hs. simpl.
    apply keyed_merge_account_module. exact Hs.
Qed.

Lemma preserves_findModulesByAccount_pages (atob : string -> option string)
  (fuel : nat) :
  forall accountId data batch,
    preserves keyed (findModulesByAccount_pages atob fuel accountId data batch).
Proof.
  induction fuel as [|fuel IH]; intros accountId data batch; simpl.
  - apply preserves_halt.
  - destruct (account_shape data) as [page|]; [|apply preserves_ret].
    apply preserves_bind.
    { apply preserves_for_of. intro result.
      apply preserves_findModulesByAccount_result. }
    intros _. destruct (am_nextCursor page) as [| |cursor];
      try apply preserves_ret.
    destruct (truthy_string cursor); [|apply preserves_ret].
    apply preserves_bind; [apply preserves_emit|]. intros _.
    apply preserves_bind; [apply preserves_get_state|]. intro st.
    apply preserves_bind; [apply preserves_nerdgraphQuery|]. intro data'.
    apply IH.
Qed.

Lemma preserves_findModulesByAccount_loop (atob : string -> option string)
  (fuel : nat) (l : list (nullable Z)) :
  forall progress accountCount,
    preserves keyed
      (findModulesByAccount_loop atob fuel l progress accountCount).
Proof.
  induction l as [|accountId l IH]; intros progress accountCount; simpl.
  - apply preserves_ret.
  - apply preserves_bind; [apply preserves_emit|]. intros _.
    apply preserves_bind.
    + unfold findModulesByAccount_body. apply preserves_try_catch.
      * apply preserves_bind; [apply preserves_get_state|]. intro st.
        apply preserves_bind; [apply preserves_nerdgraphQuery|]. intro data.
        apply preserves_findModulesByAccount_pages.
      * intro err. apply preserves_emit.
    + intros _. apply IH.
Qed.

Lemma preserves_findModulesByAccount (atob : string -> option string)
  (toISOString : Z -> string) (fuel : nat) :
  preserves keyed (findModulesByAccount atob toISOString fuel).
Proof.
  unfold findModulesByAccount.
  apply preserves_bind; [apply preserves_get_state|]. intro st.
  apply preserves_bind; [apply preserves_findModulesByAccount_loop|].
  intros _. apply preserves_bind; [apply preserves_emit|].
  intros _. apply preserves_writeResults.
Qed.

Lemma preserves_findServices (atob : string -> option string)
  (toISOString : Z -> string) (fuel : nat) :
  preserves keyed (findServices atob toISOString fuel).
Proof.
  unfold findServices.
  apply preserves_bind; [apply preserves_findServices_directory|]. intros _.
  apply preserves_bind; [apply preserves_get_argv|]. intro args.
  destruct (negb (array_includes args "--quick-scan")).
  - apply preserves_findModulesByEntity.
  - apply preserves_findModulesByAccount.
Qed.

(** C8: every write into the dictionary keeps the invariant of the
    working set: each record carries the guid it is stored under, no guid
    is stored twice, and a record for whose guid no module has been merged
    has neither [library] nor [libraryVersion] nor a checksum.  This holds
    for each of the three writes (a listed entity stored by the directory
    builder, the per-entity merge of a response, the per-account creation
    and merge), and the keying holds after any run of [findServices],
    whatever the endpoint replies and however the run ends. *)
Theorem C8_writes_keep_the_invariant (atob : string -> option string)
  (toISOString : Z -> string) :
  (forall w w', invariant w -> writes atob w w' -> invariant w')
  /\ (forall fuel p o p',
        keyed (applications (state p)) ->
        findServices atob toISOString fuel p = (o, p') ->
        keyed (applications (state p'))).
Proof.
  split.
  - apply writes_preserve_invariant.
  - intros fuel. apply preserves_findServices.
Qed.

(* ================================================================== *)
(** ** The reporter *)
(* ================================================================== *)

Lemma written_json_app (l1 l2 : list Event) :
  written_json (l1 ++ l2) = (written_json l1 ++ written_json l2)%list.
Proof. apply flat_map_app. Qed.

Lemma written_csv_app (l1 l2 : list Event) :
  written_csv (l1 ++ l2) = (written_csv l1 ++ written_csv l2)%list.
Proof. apply flat_map_app. Qed.

Lemma requests_app_nil (l1 l2 : list Event) :
  filter is_request l2 = [] ->
  filter is_request (l1 ++ l2) = filter is_request l1.
Proof. intro H. rewrite filter_app, H. apply app_nil_r. Qed.

(** C7, as the code has it: without [--all-services] the reporter hands
    to the file writer the records whose [library] is truthy (present and
    not the empty string), in the order of the dictionary, and with
    [--all-services] every record; it sends no request, reads no reply
    and leaves the dictionary as it is. *)
Theorem C7_report_selects_truthy_library (toISOString : Z -> string)
  (p : Process) :
  let apps := Obj.values (applications (state p)) in
  let chosen :=
    if array_includes (argv p) "--all-services" then apps
    else filter vulnerable apps in
  let useJson := array_includes (argv p) "--json" in
  let useCsv := array_includes (argv p) "--csv" || negb useJson in
  exists p',
    writeResults toISOString p = (Ret tt, p')
    /\ written_json (events p')
       = (written_json (events p) ++ if useJson then [chosen] else [])%list
    /\ written_csv (events p')
       = (written_csv (events p) ++ if useCsv then [toCSV chosen] else [])%list
    /\ requests p' = requests p
    /\ replies p' = replies p
    /\ applications (state p') = applications (state p).
Proof.
  destruct p as [st rs evs args clk].
  cbv zeta. cbn [state argv events replies clock].
  set (apps := Obj.values (applications st)).
  set (useJson := array_includes args "--json").
  set (useCsv := array_includes args "--csv" || negb useJson).
  unfold writeResults, bind, get_argv, get_state, Date_now, modify_state,
    stdout_write, emit, ret.
  cbn [state argv events replies clock with_clock with_state with_event].
  fold apps. fold useJson.
  change (array_includes args "--csv" || negb useJson) with useCsv.
  destruct clk as [|t1 [|t2 clk]];
    cbn [state argv events replies clock with_clock with_state with_event];
    destruct useJson, useCsv;
    cbn [state argv events replies clock with_clock with_state with_event];
    eexists; (split; [reflexivity|]);
    unfold requests;
    cbn [events state applications set_scanCompleted replies with_event
           with_state with_clock];
    rewrite <- ?app_assoc; cbn [app];
    rewrite ?written_json_app, ?written_csv_app;
    cbn [written_json written_csv flat_map app];
    rewrite ?app_nil_r;
    (repeat split; try reflexivity;
     apply requests_app_nil; reflexivity).
Qed.

(* ================================================================== *)
(** ** The per-account enricher: records made from a guid *)
(* ================================================================== *)

Lemma set_absent {V : Type} (k : string) (v : V) (o : Obj.t V) :
  Obj.get k o = None -> Obj.set k v o = (o ++ [(k, v)])%list.
Proof.
  induction o as [|[k0 v0] o IH]; simpl; [reflexivity|].
  destruct (String.eqb k k0); [discriminate|].
  intro H. rewrite (IH H). reflexivity.
Qed.

Lemma set_last {V : Type} (k : string) (v v' : V) (o : Obj.t V) :
  Obj.get k o = None ->
  Obj.set k v' (o ++ [(k, v)])%list = (o ++ [(k, v')])%list.
Proof.
  induction o as [|[k0 v0] o IH]; simpl.
  - rewrite String.eqb_refl. reflexivity.
  - destruct (String.eqb k k0); [discriminate|].
    intro H. rewrite (IH H). reflexivity.
Qed.

(** A guid that the directory does not hold gets exactly one new record,
    placed last; the records of the directory stay as they are. *)
Lemma merge_account_module_absent (atob : string -> option string)
  (acc : nullable Z) (appName : string) (module : Module) (g : string)
  (apps : Obj.t Application) :
  Obj.get g apps = None ->
  let r := merge_module (new_application atob acc g appName) module in
  merge_account_module atob acc appName module g apps
  = (apps ++ [(g, r)])%list
  /\ guid r = val g
  /\ name r = val appName
  /\ accountId r = acc
  /\ applicationId r = getApplicationIdFromGuid atob g
  /\ nrUrl r
     = val (if truthy truthy_number (getApplicationIdFromGuid atob g)
            then environment_url (interp string_of_Z acc)
                   (interp string_of_number (getApplicationIdFromGuid atob g))
            else EmptyString).
Proof.
  intros Hget r. split.
  - unfold merge_account_module. rewrite Hget, get_set_same.
    rewrite (@set_absent _ g _ apps Hget). apply set_last. exact Hget.
  - subst r. rewrite merge_module_patch. repeat split.
Qed.

(** A guid already held is merged into its record; no record is added. *)
Lemma merge_account_module_present (atob : string -> option string)
  (acc : nullable Z) (appName : string) (module : Module) (g : string)
  (apps : Obj.t Application) (a : Application) :
  Obj.get g apps = Some a ->
  merge_account_module atob acc appName module g apps
  = Obj.set g (merge_module a module) apps.
Proof.
  intro Hget. unfold merge_account_module. rewrite Hget, Hget. reflexivity.
Qed.

(** When [atob] throws, or the guid is empty, the application id is
    absent and the reporting URL is empty. *)
Lemma getApplicationIdFromGuid_undecodable (atob : string -> option string)
  (g : string) :
  atob g = None \/ g = EmptyString ->
  getApplicationIdFromGuid atob g = undefined.
Proof.
  unfold getApplicationIdFromGuid. intros [H| ->].
  - rewrite H. destruct (negb (truthy_string g)); reflexivity.
  - reflexivity.
Qed.

(** When the guid decodes, the application id is [parseInt] of the fourth
    field, also when there is no fourth field. *)
Lemma getApplicationIdFromGuid_decoded (atob : string -> option string)
  (g decoded : string) :
  atob g = Some decoded -> g <> EmptyString ->
  getApplicationIdFromGuid atob g
  = val (parseInt (index (split_on "|" decoded) 3)).
Proof.
  unfold getApplicationIdFromGuid, truthy_string. intros H Hne.
  destruct (String.eqb_spec g EmptyString); [contradiction|].
  simpl. rewrite H. reflexivity.
Qed.

(** C5 (the code departs from the claim): a guid that decodes to a text
    with fewer than four fields.  [getApplicationIdFromGuid], documented
    to return [undefined] on failure, returns [parseInt(undefined)], which
    is [NaN]: the record made for the guid has an application id that is
    [NaN], not an absent one, and the CSV report prints it as [NaN]; its
    reporting URL is empty. *)
Theorem C5_guid_without_fourth_field_gives_NaN (acc : nullable Z)
  (appName : string) (module : Module) :
  let g := "MXxBUE18QVBQTElDQVRJT04=" in
  Base64.atob g = Some "1|APM|APPLICATION"
  /\ getApplicationIdFromGuid Base64.atob g = val NaN
  /\ exists r,
       merge_account_module Base64.atob acc appName module g [] = [(g, r)]
       /\ applicationId r = val NaN
       /\ escapeCsv_num string_of_number (applicationId r) = "NaN"
       /\ nrUrl r = val EmptyString.
Proof.
  intro g.
  assert (Hid : getApplicationIdFromGuid Base64.atob g = val NaN)
    by (vm_compute; reflexivity).
  split; [vm_compute; reflexivity|]. split; [exact Hid|].
  destruct (@merge_account_module_absent Base64.atob acc appName module g []
              eq_refl) as (Hm & _ & _ & _ & Hid' & Hurl).
  eexists. split; [exact Hm|].
  rewrite Hid', Hurl, Hid. repeat split.
Qed.
(* ================================================================== *)
(** ** The primitives on concrete inputs *)
(* ================================================================== *)

Example parseInt_ex1 : parseInt (val "123456") = Num 123456.
Proof. reflexivity. Qed.
Example parseInt_ex2 : parseInt undefined = NaN.
Proof. reflexivity. Qed.
Example parseInt_ex3 : parseInt (val "  -42abc") = Num (-42).
Proof. reflexivity. Qed.
Example parseInt_ex4 : parseInt (val "0x1F") = Num 31.
Proof. reflexivity. Qed.
Example split_ex1 : split_on "|" "1|APM|APPLICATION|123456" = ["1"; "APM"; "APPLICATION"; "123456"].
Proof. reflexivity. Qed.
Example split_ex2 : split_on "|" EmptyString = [EmptyString].
Proof. reflexivity. Qed.
Example includes_ex1 : includes "Error: self signed certificate in chain" "self signed certificate" = true.
Proof. reflexivity. Qed.
Example string_of_Z_ex : string_of_Z 1234 = "1234" /\ string_of_Z 0 = "0" /\ string_of_Z (-7) = "-7".
Proof. repeat split; reflexivity. Qed.

Example atob_ex1 :
  Base64.atob "MXxBUE18QVBQTElDQVRJT058MTIzNDU2" = Some "1|APM|APPLICATION|123456".
Proof. reflexivity. Qed.
Example atob_ex2 :
  Base64.atob "MXxBUE18QVBQTElDQVRJT04=" = Some "1|APM|APPLICATION".
Proof. reflexivity. Qed.
Example atob_ex3 : Base64.atob "not base64!" = None.
Proof. reflexivity. Qed.
Example atob_ex4 : Base64.atob "YQ==" = Some "a" /\ Base64.atob "YWI" = Some "ab".
Proof. split; reflexivity. Qed.

Example guid_decodes :
  getApplicationIdFromGuid Base64.atob "MXxBUE18QVBQTElDQVRJT058MTIzNDU2"
  = val (Num 123456).
Proof. vm_compute. reflexivity. Qed.

Example guid_with_a_name_for_id :
  Base64.atob "MXxFWFR8U0VSVklDRXxhYmM=" = Some "1|EXT|SERVICE|abc"
  /\ getApplicationIdFromGuid Base64.atob "MXxFWFR8U0VSVklDRXxhYmM=" = val NaN.
Proof. split; vm_compute; reflexivity. Qed.

Example guid_not_base64 :
  getApplicationIdFromGuid Base64.atob "not base64!" = undefined
  /\ getApplicationIdFromGuid no_atob "MXxBUE18QVBQTElDQVRJT058MTIzNDU2"
     = undefined.
Proof. split; vm_compute; reflexivity. Qed.

Example strip_port_ex :
  strip_port (strip_java "java:myhost:8080") = "myhost"
  /\ strip_port "a:1:22" = "a:1" /\ strip_port "a:" = "a:"
  /\ strip_port "a:b" = "a:b".
Proof. repeat split; vm_compute; reflexivity. Qed.

(* ================================================================== *)
(** ** The theorems on the sample inputs *)
(* ================================================================== *)

Lemma C1_witness :
  exists p',
    findServices_directory 2
      (Sample.process Sample.STATE [served Sample.page1; served Sample.page2] [])
    = (Ret tt, p')
    /\ replies p' = []
    /\ length (requests p') = 2
    /\ Obj.keys (applications (state p')) = ["A"; "B"; "C"]
    /\ option_map applicationId (Obj.get "A" (applications (state p')))
       = Some (val (Num 14)).
Proof.
  destruct (@C1_directory_of_a_listing Sample.page1 [Sample.page2] []
              (Sample.process Sample.STATE
                 [served Sample.page1; served Sample.page2] []) 2)
    as (p' & Hrun & Hrest & Hreq & _ & Happs & _).
  - simpl. split.
    + exists [Sample.service "A" 11; Sample.service "B" 12], "cursor-1".
      split; reflexivity.
    + exists [Sample.service "C" 13; Sample.service "A" 14], null.
      split; reflexivity.
  - reflexivity.
  - reflexivity.
  - simpl. lia.
  - exists p'. split; [exact Hrun|]. split; [exact Hrest|].
    rewrite Hreq, Happs. repeat split.
Defined.

Lemma C3_witness :
  nerdgraphQuery "NRAK-KEY" getServices vars_none
    (Sample.process Sample.STATE
       [net_error Sample.self_signed; served Sample.page2] [])
  = (Exit 5,
     with_replies [served Sample.page2]
       (add_events (cert_exit (Request "NRAK-KEY" getServices vars_none))
          (Sample.process Sample.STATE
             [net_error Sample.self_signed; served Sample.page2] []))).
Proof.
  apply (proj1 (C3_certificate_error_is_fatal Sample.self_signed
                  ltac:(vm_compute; reflexivity))).
  reflexivity.
Defined.

Lemma C4_witness :
  let p := Sample.process Sample.with_A
             [served (None, Sample.lookup (Some Sample.versions)
                              Sample.instances)] [] in
  let r := enrich_application
             {| applicationInstances := Some Sample.instances;
                runningAgentVersions := Some Sample.versions |}
             Sample.instances Sample.application_A in
  examinedInstances r = val 1%Z
  /\ agentVersion r = val "7.3.0,7.4.0"
  /\ library r = val "log4j-core-2.17.1.jar"
  /\ libraryVersion r = val "2.17.1"
  /\ librarySha1 r = val "9141212b8507ab50a45525b545b39d224614528b"
  /\ fst (findModulesByEntity_body "A" Sample.application_A p) = Ret tt.
Proof.
  intros p r.
  destruct (@C4_entity_enrichment "A" Sample.application_A p
              (snd (entity_query Sample.application_A p))
              (Some (Sample.lookup (Some Sample.versions) Sample.instances))
              {| applicationInstances := Some Sample.instances;
                 runningAgentVersions := Some Sample.versions |}
              Sample.instances)
    as (Hbody & Hn & Hv & Hl & Hlv & Hs1 & _).
  - vm_compute. reflexivity.
  - reflexivity.
  - fold r in Hn, Hv, Hl, Hlv, Hs1.
    rewrite Hn, Hv, Hl, Hlv, Hs1, Hbody. repeat split.
Defined.

Lemma entity_without_answer_is_left_unmodified_witness :
  let p := Sample.process Sample.with_A
             [net_error Sample.hang_up;
              http_body (Some (resp_object (Some "[]") None))] [] in
  exists p1,
    findModulesByEntity_body "A" Sample.application_A p
    = (Ret tt, with_event (entity_warning Sample.application_A) p1)
    /\ applications (state p1) = [("A", Sample.application_A)].
Proof.
  intro p.
  destruct (@entity_without_answer_is_left_unmodified "A"
              Sample.application_A [] 0 1 p) as (p1 & Hbody & Hstate & _).
  - left. exists (net_error Sample.hang_up),
      (http_body (Some (resp_object (Some "[]") None))), [].
    repeat split; vm_compute; reflexivity.
  - exists p1. split; [exact Hbody|].
    change (state p1) with (state (with_event
              (entity_warning Sample.application_A) p1)).
    rewrite Hstate. reflexivity.
Defined.

Lemma C6_witness :
  let p := Sample.process
             (set_applications
                [("A", Sample.application_A);
                 ("B", application_of_entity (Sample.service "B" 12))]
                Sample.STATE)
             [net_error Sample.hang_up; http_body None;
              served (None, Sample.lookup (Some Sample.versions)
                               Sample.instances)] [] in
  exists p',
    findModulesByEntity plain_timestamp p = (Uncaught unparsed, p')
    /\ requests p'
       = [Request "NRAK-KEY" getModulesInEntity
            (vars_entity (val "A") "log4j-core");
          Request "NRAK-KEY" getModulesInEntity
            (vars_entity (val "A") "log4j-core")]
    /\ replies p'
       = [served (None, Sample.lookup (Some Sample.versions)
                          Sample.instances)]
    /\ state p' = state p.
Proof.
  intro p.
  pose proof (@C6_unparsable_body_aborts_the_scan plain_timestamp p "A"
                Sample.application_A
                [("B", application_of_entity (Sample.service "B" 12))]
                (net_error Sample.hang_up)
                [served (None, Sample.lookup (Some Sample.versions)
                                 Sample.instances)]
                eq_refl ltac:(vm_compute; reflexivity) eq_refl) as H.
  eexists. split; [exact H|]. repeat split.
Defined.

Lemma C8_witness :
  invariant
    {| directory := store_entity [] (Sample.service "A" 11);
       evidenced := [] |}.
Proof.
  apply (proj1 (C8_writes_keep_the_invariant Base64.atob plain_timestamp)
           {| directory := []; evidenced := [] |}).
  - split; [split|]; simpl.
    + constructor.
    + intros k a H. contradiction.
    + intros k a H. contradiction.
  - apply (writes_directory Base64.atob
             {| directory := []; evidenced := [] |} (Sample.service "A" 11)).
Defined.

(** C4 as stated fails: the last module in iteration order carries no
    checksum, and the record keeps the checksum of the module before
    it. *)
Lemma C4_counterexample :
  let r := enrich_application
             {| applicationInstances := Some Sample.instances;
                runningAgentVersions := Some Sample.versions |}
             Sample.instances Sample.application_A in
  last_module Sample.instances = Some Sample.new_jar
  /\ library r = mod_name Sample.new_jar
  /\ module_checksum "sha1Checksum" Sample.new_jar = undefined
  /\ librarySha1 r <> module_checksum "sha1Checksum" Sample.new_jar.
Proof.
  vm_compute. repeat split. discriminate.
Qed.

(** C7 as stated fails: after a scan in which the lookup reported a module
    with an empty name, the record of the service has its [library] field
    present, and the report without [--all-services] is empty. *)
Lemma C7_counterexample :
  let p' := snd (findServices Base64.atob plain_timestamp 3 Sample.unnamed_run) in
  map library (Obj.values (applications (state p'))) = [val EmptyString]
  /\ written_json (events p') = [[]]
  /\ written_json (events p')
     <> [filter library_present (Obj.values (applications (state p')))].
Proof.
  vm_compute. repeat split. discriminate.
Qed.

(* ================================================================== *)
(** ** More on the transport *)
(* ================================================================== *)

(** X1: whatever the endpoint replies, [nerdgraphQuery] does not end with
    an exception in flight: it returns data or [undefined], or the
    process ends. *)
Theorem nerdgraphQuery_never_throws (key : string) (query : Query)
  (variables : Variables) (p : Process) (e : JsError) :
  fst (nerdgraphQuery key query variables p) <> Throw e.
Proof.
  rewrite nerdgraphQuery_table. unfold settle, transport. cbn [fst].
  destruct (replies p) as [|a1 rest1]; [discriminate|].
  destruct (verdict a1); cbn [fst]; try discriminate.
  destruct rest1 as [|a2 rest2]; [discriminate|].
  destruct (verdict a2); discriminate.
Qed.

(** X2: one call sends its request once or twice, never more, whatever
    the replies and however the call ends. *)
Theorem nerdgraphQuery_sends_once_or_twice (key : string) (query : Query)
  (variables : Variables) (p : Process) :
  let sent := requests (snd (nerdgraphQuery key query variables p)) in
  sent = (requests p ++ [request_of key query variables])%list
  \/ sent = (requests p ++ [request_of key query variables;
                            request_of key query variables])%list.
Proof.
  intro sent. subst sent.
  destruct (nerdgraphQuery key query variables p) as [o p'] eqn:E.
  apply (nerdgraphQuery_at_most_two_requests _ _ _ _ E).
Qed.

(** X3: a call does not touch [STATE], the arguments or the clock, and it
    reads the replies in order: at most two of them, and what it leaves
    is what followed them. *)
Theorem nerdgraphQuery_only_reads_replies (key : string) (query : Query)
  (variables : Variables) (p : Process) :
  let p' := snd (nerdgraphQuery key query variables p) in
  state p' = state p /\ argv p' = argv p /\ clock p' = clock p
  /\ exists used,
       replies p = (used ++ replies p')%list /\ length used <= 2.
Proof.
  intro p'. subst p'.
  destruct (nerdgraphQuery key query variables p) as [o q] eqn:E.
  destruct (nerdgraphQuery_frame _ _ _ _ E) as (Hs & Ha & Hc).
  cbn [snd]. repeat split; try assumption.
  rewrite nerdgraphQuery_table in E. unfold settle, transport in E.
  destruct (replies p) as [|a1 rest1].
  - inversion E; subst. exists []. split; [reflexivity | simpl; lia].
  - destruct (verdict a1);
      try (inversion E; subst; exists [a1]; split; [reflexivity | simpl; lia]).
    destruct rest1 as [|a2 rest2].
    + inversion E; subst. exists [a1]. split; [reflexivity | simpl; lia].
    + destruct (verdict a2); inversion E; subst; exists [a1; a2];
        (split; [reflexivity | simpl; lia]).
Qed.

(** X4: a reply with data at the first attempt is returned after that one
    request; the next reply is left unread, and [errors] that come with
    the data are written to [stderr]. *)
Theorem nerdgraphQuery_first_reply_with_data (key : string) (query : Query)
  (variables : Variables) (p : Process) (r : option string * Data)
  (rest : list Attempt) :
  replies p = served r :: rest ->
  let p' := snd (nerdgraphQuery key query variables p) in
  fst (nerdgraphQuery key query variables p) = Ret (Some (snd r))
  /\ requests p' = (requests p ++ [request_of key query variables])%list
  /\ replies p' = rest
  /\ events p'
     = (events p ++ request_of key query variables
        :: match fst r with
           | Some text =>
               [Stderr (LF ++ "Error returned from API: " ++ text ++ LF)]
           | None => []
           end)%list.
Proof.
  intros Hr p'. subst p'.
  rewrite (@nerdgraphQuery_served key query variables p r rest Hr).
  cbn [fst snd]. split; [reflexivity|].
  split.
  - change (requests (with_replies ?a ?b)) with (requests b).
    rewrite requests_add_events. cbn [filter is_request].
    rewrite requests_first_log. reflexivity.
  - split; [reflexivity|]. destruct r as [[text|] d]; reflexivity.
Qed.

(** X5: after a first attempt that fails transiently (a network error
    that is no certificate error, a body that parses to [null], a
    document without [data]) the data of the second reply is returned,
    as a call with that reply alone returns it. *)
Theorem nerdgraphQuery_second_reply_with_data (key : string) (query : Query)
  (variables : Variables) (p : Process) (a1 : Attempt)
  (r : option string * Data) (rest : list Attempt) :
  transient a1 = true ->
  replies p = a1 :: served r :: rest ->
  fst (nerdgraphQuery key query variables p) = Ret (Some (snd r))
  /\ fst (nerdgraphQuery key query variables p)
     = fst (nerdgraphQuery key query variables
              (with_replies (served r :: rest) p))
  /\ replies (snd (nerdgraphQuery key query variables p)) = rest.
Proof.
  intros Ht Hr. destruct r as [errs d].
  rewrite (@nerdgraphQuery_retry_then_succeed key query variables p a1 errs d
             rest Ht Hr).
  rewrite (@nerdgraphQuery_served key query variables
             (with_replies (served (errs, d) :: rest) p) (errs, d) rest
             eq_refl).
  repeat split.
Qed.

(** X6: after two transient failures the caller gets [undefined]: the
    call returns, after exactly two requests. *)
Theorem nerdgraphQuery_two_failures_give_undefined (key : string)
  (query : Query) (variables : Variables) (p : Process) (a1 a2 : Attempt)
  (rest : list Attempt) :
  transient a1 = true -> transient a2 = true ->
  replies p = a1 :: a2 :: rest ->
  let p' := snd (nerdgraphQuery key query variables p) in
  fst (nerdgraphQuery key query variables p) = Ret None
  /\ requests p' = (requests p ++ [request_of key query variables;
                                   request_of key query variables])%list
  /\ replies p' = rest.
Proof.
  intros H1 H2 Hr p'. subst p'.
  rewrite (@nerdgraphQuery_retry_then_fail key query variables p a1 a2 rest
             H1 H2 Hr).
  cbn [fst snd]. split; [reflexivity|].
  change (requests (with_replies ?a ?b)) with (requests b).
  rewrite requests_add_events. cbn [filter is_request].
  rewrite filter_app, requests_first_log. cbn [filter is_request app].
  rewrite requests_second_log. repeat split.
Qed.

(* ================================================================== *)
(** ** The helpers *)
(* ================================================================== *)

Lemma prefix_split (n h : string) :
  String.prefix n h = true <-> exists post, h = n ++ post.
Proof.
  revert h. induction n as [|c n IH]; intro h; simpl.
  - split; [intros _; exists h; reflexivity | destruct h; reflexivity].
  - destruct h as [|c' h]; simpl.
    + split; [discriminate | intros [post H]; discriminate].
    + destruct (ascii_dec c c') as [->|Hne].
      * rewrite IH. split; intros [post H]; exists post.
        -- rewrite H. reflexivity.
        -- inversion H. reflexivity.
      * split; [discriminate|]. intros [post H]. inversion H. congruence.
Qed.

Lemma includes_split (hay needle : string) :
  includes hay needle = true
  <-> exists pre post, hay = pre ++ needle ++ post.
Proof.
  induction hay as [|c hay IH].
  - cbn [includes]. rewrite orb_false_r, prefix_split. split.
    + intros [post H]. exists EmptyString, post. exact H.
    + intros [pre [post H]]. destruct pre; simpl in H.
      * exists post. exact H.
      * discriminate.
  - cbn [includes]. rewrite orb_true_iff, prefix_split, IH. split.
    + intros [[post H]|[pre [post H]]].
      * exists EmptyString, post. exact H.
      * exists (String c pre), post. simpl. rewrite H. reflexivity.
    + intros [pre [post H]]. destruct pre as [|c' pre]; simpl in H.
      * left. exists post. exact H.
      * right. inversion H. exists pre, post. reflexivity.
Qed.

(** X7: [handleNetworkError] takes an error for a certificate error
    exactly when its code is the number 18 or 19, or when its text has
    the phrase somewhere; a code that is a string decides nothing. *)
Theorem is_cert_error_cases (err : JsError) :
  is_cert_error err = true
  <-> err_code err = code_number 18 \/ err_code err = code_number 19
      \/ exists pre post, err_toString err = pre ++ cert_phrase ++ post.
Proof.
  unfold is_cert_error, cert_phrase.
  rewrite orb_true_iff, includes_split. split.
  - intros [H|H]; [|auto].
    destruct (err_code err) as [|n|s]; try discriminate.
    apply orb_true_iff in H. destruct H as [H|H]; apply Z.eqb_eq in H;
      subst; auto.
  - intros [H|[H|H]]; [left; rewrite H; reflexivity
                      |left; rewrite H; reflexivity|right; exact H].
Qed.

Lemma existsb_eqb_In (x : string) (l : list string) :
  existsb (String.eqb x) l = true <-> In x l.
Proof.
  rewrite existsb_exists. split.
  - intros [y [Hy E]]. apply String.eqb_eq in E. subst. exact Hy.
  - intro H. exists x. split; [exact H | apply String.eqb_refl].
Qed.

Lemma dedup_spec (l seen : list string) :
  NoDup (dedup l seen)
  /\ forall x, In x (dedup l seen) <-> In x l /\ ~ In x seen.
Proof.
  revert seen. induction l as [|y l IH]; intro seen; simpl.
  - split; [constructor | intro x; tauto].
  - destruct (existsb (String.eqb y) seen) eqn:E.
    + apply existsb_eqb_In in E. destruct (IH seen) as [N M].
      split; [exact N|]. intro x. rewrite M. split.
      * tauto.
      * intros [[->|H] Hn]; [contradiction | tauto].
    + assert (Hy : ~ In y seen).
      { intro H. apply existsb_eqb_In in H. congruence. }
      destruct (IH (y :: seen)) as [N M]. split.
      * constructor; [|exact N]. rewrite M. simpl. tauto.
      * intro x. simpl. rewrite M. simpl. split.
        -- intros [->|[H Hn]]; [tauto|]. split; [tauto|]. tauto.
        -- intros [[->|H] Hn]; [tauto|].
           destruct (string_dec y x) as [->|Hne]; [tauto|]. right. tauto.
Qed.

Lemma In_present (x : string) (v : nullable string) :
  In x (present v) <-> v = val x /\ x <> EmptyString.
Proof.
  destruct v as [| |s]; simpl; try (split; [tauto | intros [H _]; discriminate]).
  destruct (String.eqb s EmptyString) eqn:E; simpl.
  - apply String.eqb_eq in E. subst. split; [tauto|].
    intros [H Hn]. inversion H. subst. contradiction.
  - apply String.eqb_neq in E. split.
    + intros [->|[]]. tauto.
    + intros [H _]. inversion H. auto.
Qed.

(** X8: [concatNoneOrMore] joins with commas a list that has no value
    twice and holds exactly the arguments that are non-empty strings;
    [undefined], [null] and the empty string never reach the result. *)
Theorem concatNoneOrMore_joins_distinct_values (a b c d e f : nullable string) :
  concatNoneOrMore a b c d e f = join "," (joined_values a b c d e f)
  /\ NoDup (joined_values a b c d e f)
  /\ forall x, In x (joined_values a b c d e f)
               <-> x <> EmptyString /\ In (val x) [a; b; c; d; e; f].
Proof.
  split; [reflexivity|]. unfold joined_values.
  destruct (dedup_spec (flat_map present [a; b; c; d; e; f]) []) as [N M].
  split; [exact N|]. intro x. rewrite M, in_flat_map. split.
  - intros [[v [Hv Hx]] _]. apply In_present in Hx. destruct Hx as [-> Hn].
    tauto.
  - intros [Hn Hv]. split; [|intros []]. exists (val x).
    split; [exact Hv|]. apply In_present. tauto.
Qed.

Lemma has_bare_comma_none (inside : bool) (s : string) :
  includes s "," = false -> has_bare_comma inside s = false.
Proof.
  revert inside. induction s as [|c s IH]; intros inside H; [reflexivity|].
  cbn [includes] in H. apply orb_false_iff in H. destruct H as [Hp Hi].
  simpl in Hp. simpl.
  destruct (Ascii.eqb c (ascii_of_nat 34)) eqn:Eq; [apply IH; exact Hi|].
  destruct (Ascii.eqb c ",") eqn:Ec.
  - apply Ascii.eqb_eq in Ec. subst c.
    destruct (ascii_dec "," ","); [|contradiction].
    destruct s; discriminate.
  - apply IH. exact Hi.
Qed.

Lemma has_bare_comma_quoted (s rest : string) :
  has_bare_comma true (double_quotes s ++ rest) = has_bare_comma true rest.
Proof.
  induction s as [|c s IH]; [reflexivity|].
  simpl. destruct (Ascii.eqb c (ascii_of_nat 34)) eqn:Eq.
  - simpl. rewrite Eq. simpl. exact IH.
  - simpl. rewrite Eq. destruct (Ascii.eqb c ","); simpl; exact IH.
Qed.

(** X9: a cell of [escapeCsv] has no comma outside double quotes, so a
    reader that honours quotes never splits it, whatever the value. *)
Theorem escapeCsv_has_no_bare_comma (v : nullable string) :
  has_bare_comma false (escapeCsv v) = false.
Proof.
  destruct v as [| |s]; try reflexivity. unfold escapeCsv.
  destruct (includes s ",") eqn:E.
  - change (DQ ++ double_quotes s ++ DQ)
      with (String (ascii_of_nat 34) (double_quotes s ++ DQ)).
    cbn [has_bare_comma]. rewrite Ascii.eqb_refl. cbn [negb].
    rewrite has_bare_comma_quoted. reflexivity.
  - apply has_bare_comma_none. exact E.
Qed.

Lemma read_quoted_double_quotes (s : string) :
  read_quoted (double_quotes s ++ DQ) = s.
Proof.
  induction s as [|c s IH]; [reflexivity|].
  simpl. destruct (Ascii.eqb c (ascii_of_nat 34)) eqn:Eq.
  - simpl. rewrite Eq. f_equal. exact IH.
  - simpl. rewrite Eq. f_equal. exact IH.
Qed.

(** X10: reading the cell of a string gives the string back, when the
    string has a comma or does not begin with a double quote. *)
Theorem escapeCsv_read_back (s : string) :
  includes s "," = true \/ starts_with_quote s = false ->
  read_cell (escapeCsv (val s)) = s.
Proof.
  intro H. unfold escapeCsv. destruct (includes s ",") eqn:E.
  - change (DQ ++ double_quotes s ++ DQ)
      with (String (ascii_of_nat 34) (double_quotes s ++ DQ)).
    cbn [read_cell]. rewrite Ascii.eqb_refl.
    apply read_quoted_double_quotes.
  - destruct H as [H|H]; [discriminate|].
    destruct s as [|c s]; [reflexivity|]. simpl in *. rewrite H. reflexivity.
Qed.

Lemma string_append_assoc (a b c : string) : (a ++ b) ++ c = a ++ b ++ c.
Proof.
  induction a as [|x a IH]; [reflexivity|].
  change (String x ((a ++ b) ++ c) = String x (a ++ b ++ c)).
  rewrite IH. reflexivity.
Qed.

Lemma string_append_empty (a : string) : a ++ EmptyString = a.
Proof.
  induction a as [|x a IH]; [reflexivity|].
  change (String x (a ++ EmptyString) = String x a). rewrite IH. reflexivity.
Qed.

Lemma fold_left_append (rows : list Application) (acc : string) :
  fold_left (fun output row => output ++ csv_row row) rows acc
  = acc ++ String.concat EmptyString (map csv_row rows).
Proof.
  revert acc. induction rows as [|r rows IH]; intro acc.
  - cbn [fold_left map String.concat]. symmetry. apply string_append_empty.
  - cbn [fold_left map]. rewrite IH, string_append_assoc. f_equal.
    destruct rows as [|r' rows]; cbn [map String.concat].
    + apply string_append_empty.
    + reflexivity.
Qed.

(** X11: the CSV text is the header line followed by the lines of the
    records in their order; more records only add lines at the end. *)
Theorem toCSV_appends_rows (first more : list Application) :
  toCSV [] = csv_header
  /\ toCSV (first ++ more)
     = toCSV first ++ String.concat EmptyString (map csv_row more).
Proof.
  split; [reflexivity|]. unfold toCSV.
  rewrite fold_left_app. apply fold_left_append.
Qed.

(* ================================================================== *)
(** ** The name and the link of a record made from account data *)
(* ================================================================== *)

Lemma rev_string_append (a b acc : string) :
  rev_string (a ++ b) acc = rev_string b (rev_string a acc).
Proof.
  revert acc. induction a as [|x a IH]; intro acc; [reflexivity|].
  change (rev_string (a ++ b) (String x acc)
          = rev_string b (rev_string a (String x acc))).
  apply IH.
Qed.

Lemma rev_string_acc (a acc : string) :
  rev_string a acc = rev_string a EmptyString ++ acc.
Proof.
  revert acc. induction a as [|x a IH]; intro acc; [reflexivity|].
  cbn [rev_string]. rewrite (IH (String x acc)), (IH (String x EmptyString)).
  rewrite string_append_assoc. reflexivity.
Qed.

Lemma rev_string_involutive (a : string) :
  rev_string (rev_string a EmptyString) EmptyString = a.
Proof.
  induction a as [|x a IH]; [reflexivity|].
  cbn [rev_string].
  rewrite (rev_string_acc a (String x EmptyString)), rev_string_append, IH.
  reflexivity.
Qed.

Lemma all_digits_rev (d acc : string) :
  all_digits d = true -> all_digits acc = true ->
  all_digits (rev_string d acc) = true.
Proof.
  revert acc. induction d as [|x d IH]; intros acc Hd Ha; [exact Ha|].
  cbn [all_digits] in Hd. apply andb_true_iff in Hd. destruct Hd as [Hx Hd].
  cbn [rev_string]. apply IH; [exact Hd|].
  cbn [all_digits]. rewrite Hx, Ha. reflexivity.
Qed.

Lemma drop_digits_all (d rest : string) :
  all_digits d = true -> drop_digits (d ++ String ":" rest) = String ":" rest.
Proof.
  induction d as [|x d IH]; intro Hd; [reflexivity|].
  cbn [all_digits] in Hd. apply andb_true_iff in Hd. destruct Hd as [Hx Hd].
  change (drop_digits (String x (d ++ String ":" rest)) = String ":" rest).
  cbn [drop_digits]. rewrite Hx. apply IH. exact Hd.
Qed.

Lemma strip_port_port (n port : string) :
  port <> EmptyString -> all_digits port = true ->
  strip_port (n ++ ":" ++ port) = n.
Proof.
  intros Hne Hd. unfold strip_port.
  rewrite rev_string_append.
  change (":" ++ port) with (String ":" port).
  cbn [rev_string].
  rewrite (rev_string_acc port).
  assert (Hr : all_digits (rev_string port EmptyString) = true)
    by (apply all_digits_rev; [exact Hd | reflexivity]).
  destruct (rev_string port EmptyString) as [|c r] eqn:E.
  - exfalso. apply Hne. rewrite <- (rev_string_involutive port), E.
    reflexivity.
  - rewrite <- E. rewrite drop_digits_all by (rewrite E; exact Hr).
    rewrite E.
    change (String c r ++ String ":" (rev_string n EmptyString))
      with (String c (r ++ String ":" (rev_string n EmptyString))).
    cbn [all_digits] in Hr. apply andb_true_iff in Hr. destruct Hr as [Hc _].
    rewrite Hc. apply rev_string_involutive.
Qed.

Lemma substring_whole (s : string) : String.substring 0 (String.length s) s = s.
Proof.
  induction s as [|c s IH]; [reflexivity|].
  cbn [String.length String.substring]. rewrite IH. reflexivity.
Qed.

Lemma strip_java_prefix (s : string) : strip_java ("java:" ++ s) = s.
Proof.
  unfold strip_java.
  change ("java:" ++ s)
    with (String "j" (String "a" (String "v" (String "a" (String ":" s))))).
  cbn [String.prefix String.length Nat.sub String.substring].
  repeat (match goal with
          | |- context [ascii_dec ?a ?b] =>
              destruct (ascii_dec a b); [|congruence]
          end).
  destruct s; cbn [String.prefix]; rewrite Nat.sub_0_r; apply substring_whole.
Qed.

(** X12: the name given to a result: the prefix [java:] and a port at
    the end are taken off, so [java:NAME:PORT] is shown as [NAME],
    whatever [NAME] is and for every port of one or more digits. *)
Theorem appName_of_java_name_and_port (n port : string) :
  port <> EmptyString -> all_digits port = true ->
  strip_port (strip_java ("java:" ++ n ++ ":" ++ port)) = n.
Proof.
  intros Hne Hd. rewrite strip_java_prefix. apply strip_port_port; assumption.
Qed.

Lemma appName_of_java_name_and_port_witness :
  "8080" <> EmptyString /\ all_digits "8080" = true
  /\ strip_port (strip_java ("java:" ++ "billing" ++ ":" ++ "8080"))
     = "billing".
Proof.
  assert (H1 : "8080" <> EmptyString) by discriminate.
  assert (H2 : all_digits "8080" = true) by reflexivity.
  split; [exact H1|]. split; [exact H2|].
  exact (@appName_of_java_name_and_port "billing" "8080" H1 H2).
Defined.

Lemma includes_char_cons (c x : ascii) (s : string) :
  includes (String c s) (String x EmptyString)
  = Ascii.eqb c x || includes s (String x EmptyString).
Proof.
  cbn [includes String.prefix].
  destruct (ascii_dec x c) as [<-|Hne].
  - rewrite Ascii.eqb_refl. destruct s; reflexivity.
  - assert (E : Ascii.eqb c x = false)
      by (apply Ascii.eqb_neq; congruence).
    rewrite E. reflexivity.
Qed.

Lemma split_on_field (sep : ascii) (f rest : string) :
  includes f (String sep EmptyString) = false ->
  split_on sep (f ++ String sep rest) = f :: split_on sep rest.
Proof.
  induction f as [|c f IH]; intro H.
  - change (split_on sep (String sep rest) = EmptyString :: split_on sep rest).
    cbn [split_on]. rewrite Ascii.eqb_refl. reflexivity.
  - rewrite includes_char_cons in H. apply orb_false_iff in H.
    destruct H as [Hc Hf].
    change (split_on sep (String c (f ++ String sep rest))
            = String c f :: split_on sep rest).
    cbn [split_on]. rewrite Hc, (IH Hf). reflexivity.
Qed.

Lemma split_on_last (sep : ascii) (f : string) :
  includes f (String sep EmptyString) = false -> split_on sep f = [f].
Proof.
  induction f as [|c f IH]; intro H; [reflexivity|].
  rewrite includes_char_cons in H. apply orb_false_iff in H.
  destruct H as [Hc Hf]. cbn [split_on]. rewrite Hc, (IH Hf). reflexivity.
Qed.

Lemma all_digits_no_bar (s : string) :
  all_digits s = true -> includes s "|" = false.
Proof.
  induction s as [|c s IH]; intro H; [reflexivity|].
  cbn [all_digits] in H. apply andb_true_iff in H. destruct H as [Hc Hs].
  rewrite includes_char_cons, (IH Hs), orb_false_r.
  apply Ascii.eqb_neq. intros ->. discriminate.
Qed.

Lemma all_digits_string_of_uint (d : Decimal.uint) :
  all_digits (NilEmpty.string_of_uint d) = true.
Proof. induction d; cbn [NilEmpty.string_of_uint all_digits]; auto. Qed.

Lemma digits_prefix_acc (d : Decimal.uint) (a : positive) :
  digits_prefix 10 (NilEmpty.string_of_uint d) (Some (Z.pos a))
  = Some (Z.pos (Pos.of_uint_acc d a)).
Proof.
  revert a.
  induction d as [|d IH|d IH|d IH|d IH|d IH|d IH|d IH|d IH|d IH|d IH];
    intro a; [reflexivity|..];
    cbn [NilEmpty.string_of_uint digits_prefix Pos.of_uint_acc];
    match goal with
    | |- context [digit_value 10 ?c] =>
        let v := eval vm_compute in (digit_value 10 c) in
        change (digit_value 10 c) with v
    end;
    rewrite <- IH; do 2 f_equal; lia.
Qed.

Lemma digits_prefix_zero (d : Decimal.uint) :
  digits_prefix 10 (NilEmpty.string_of_uint d) (Some 0%Z)
  = Some (Z.of_uint d).
Proof.
  unfold Z.of_uint.
  induction d as [|d IH|d IH|d IH|d IH|d IH|d IH|d IH|d IH|d IH|d IH];
    [reflexivity|exact IH|..];
    cbn [NilEmpty.string_of_uint Pos.of_uint];
    apply digits_prefix_acc.
Qed.

Lemma digits_prefix_start (s : string) :
  s <> EmptyString -> all_digits s = true ->
  digits_prefix 10 s None = digits_prefix 10 s (Some 0%Z).
Proof.
  destruct s as [|c s]; [congruence|]. intros _ H.
  cbn [all_digits] in H. apply andb_true_iff in H. destruct H as [Hc _].
  cbn [digits_prefix].
  destruct c as [[] [] [] [] [] [] [] []]; try discriminate; reflexivity.
Qed.

Lemma parseInt_string_digits (s : string) :
  s <> EmptyString -> all_digits s = true ->
  parseInt_string s
  = match digits_prefix 10 s None with
    | Some v => Num v
    | None => NaN
    end.
Proof.
  destruct s as [|c s]; [congruence|]. intros _ H.
  cbn [all_digits] in H. apply andb_true_iff in H. destruct H as [Hc Hs].
  assert (Hx : strip_hex_prefix (String c s) = None).
  { destruct s as [|c2 s]; [destruct c as [[] [] [] [] [] [] [] []];
                            reflexivity|].
    cbn [all_digits] in Hs. apply andb_true_iff in Hs.
    destruct Hs as [Hc2 _].
    destruct c2 as [[] [] [] [] [] [] [] []]; try discriminate;
      destruct c as [[] [] [] [] [] [] [] []]; reflexivity. }
  unfold parseInt_string.
  assert (Ht : trim_start (String c s) = String c s).
  { cbn [trim_start].
    destruct c as [[] [] [] [] [] [] [] []]; try discriminate; reflexivity. }
  rewrite Ht.
  assert (Hg : match String c s with
               | String "-" rest => ((-1)%Z, rest)
               | String "+" rest => (1%Z, rest)
               | _ => (1%Z, String c s)
               end = (1%Z, String c s)).
  { destruct c as [[] [] [] [] [] [] [] []]; try discriminate; reflexivity. }
  rewrite Hg, Hx.
  destruct (digits_prefix 10 (String c s) None) as [v|]; [|reflexivity].
  f_equal. destruct v; reflexivity.
Qed.

Lemma parseInt_string_of_Z (z : Z) :
  (0 <= z)%Z -> parseInt_string (string_of_Z z) = Num z.
Proof.
  intro Hz. unfold string_of_Z.
  pose proof (DecimalZ.of_to z) as Hof.
  destruct z as [|p|p]; [reflexivity| |lia].
  cbn [Z.to_int NilZero.string_of_int] in *.
  cbn [Z.of_int] in Hof.
  destruct (Pos.to_uint p) as [| | | | | | | | | |] eqn:E;
    [discriminate Hof|..];
    cbn [NilZero.string_of_uint];
    (rewrite parseInt_string_digits;
     [|discriminate|apply all_digits_string_of_uint]);
    (rewrite digits_prefix_start;
     [|discriminate|apply all_digits_string_of_uint]);
    rewrite digits_prefix_zero, Hof; reflexivity.
Qed.

Lemma all_digits_string_of_Z (z : Z) :
  (0 <= z)%Z -> all_digits (string_of_Z z) = true.
Proof.
  intro Hz. unfold string_of_Z. destruct z as [|p|p]; [reflexivity| |lia].
  cbn [Z.to_int NilZero.string_of_int].
  destruct (Pos.to_uint p) eqn:E; [reflexivity|..];
    rewrite <- E; cbn [NilZero.string_of_uint];
    try (rewrite E; cbn [NilZero.string_of_uint]; rewrite <- E);
    apply all_digits_string_of_uint.
Qed.

(** X13: the record made for a guid that the directory lacks, when the
    guid is not empty and decodes to [account|domain|type|id] with an
    application id written in decimal: the record carries that id as a
    number and, unless the id is 0, the link built from the account of
    the result and the id; for id 0 the link is the empty string.  The
    id, and the account id when there is one, are below 2^53 in
    magnitude, where a JavaScript number is the integer itself. *)
Theorem guid_of_an_application_gives_its_link
  (atob : string -> option string) (accountId : nullable Z)
  (g appName account domain type : string) (id : Z) :
  g <> EmptyString ->
  atob g = Some (guid_text account domain type id) ->
  includes account "|" = false ->
  includes domain "|" = false ->
  includes type "|" = false ->
  (0 <= id)%Z -> safe_integer id -> safe_id accountId ->
  let r := new_application atob accountId g appName in
  applicationId r = val (Num id)
  /\ nrUrl r
     = val (if Z.eqb id 0 then EmptyString
            else environment_url (interp string_of_Z accountId)
                   (string_of_Z id)).
Proof.
  intros Hg Ha H1 H2 H3 Hid _ _ r.
  assert (E : getApplicationIdFromGuid atob g = val (Num id)).
  { rewrite (@getApplicationIdFromGuid_decoded atob g _ Ha Hg).
    unfold guid_text.
    change (account ++ "|" ++ domain ++ "|" ++ type ++ "|" ++ string_of_Z id)
      with (account ++ String "|" (domain ++ String "|"
              (type ++ String "|" (string_of_Z id)))).
    rewrite !split_on_field by assumption.
    rewrite split_on_last
      by (apply all_digits_no_bar, all_digits_string_of_Z; exact Hid).
    cbn [index nth_error]. unfold parseInt, id_string. cbn [interp].
    rewrite parseInt_string_of_Z by exact Hid. reflexivity. }
  subst r. unfold new_application. cbn [applicationId nrUrl].
  rewrite E. split; [reflexivity|].
  cbn [truthy truthy_number interp string_of_number].
  destruct (Z.eqb id 0); reflexivity.
Qed.

Lemma guid_of_an_application_gives_its_link_witness :
  let r := new_application Base64.atob (val 1%Z)
             "MXxBUE18QVBQTElDQVRJT058MTIzNDU2" "billing" in
  applicationId r = val (Num 123456)
  /\ nrUrl r
     = val "https://rpm.newrelic.com/accounts/1/applications/123456/environment".
Proof.
  apply (@guid_of_an_application_gives_its_link Base64.atob (val 1%Z)
           "MXxBUE18QVBQTElDQVRJT058MTIzNDU2" "billing" "1" "APM"
           "APPLICATION" 123456).
  - discriminate.
  - vm_compute. reflexivity.
  - reflexivity.
  - reflexivity.
  - reflexivity.
  - lia.
  - unfold safe_integer. simpl. lia.
  - unfold safe_id, safe_integer. simpl. lia.
Defined.

(* ================================================================== *)
(** ** More on the reporter *)
(* ================================================================== *)

Lemma writeResults_reported (toISOString : Z -> string) (p : Process) :
  writeResults toISOString p = (Ret tt, reported toISOString p).
Proof.
  destruct p as [st rs evs args clk].
  unfold reported, report_events, report_name, chosen_records, first_reading,
    second_reading.
  unfold writeResults, bind, get_argv, get_state, Date_now, modify_state,
    stdout_write, emit, ret.
  cbn [state argv events replies clock with_clock with_state with_event].
  destruct clk as [|t1 [|t2 clk]];
    cbn [state argv events replies clock with_clock with_state with_event
           hd tl];
    destruct (array_includes args "--json"),
             (array_includes args "--csv");
    cbn [orb negb state argv events replies clock with_clock with_state
           with_event hd tl];
    (f_equal; apply process_eq;
     cbn [state argv events replies clock with_clock with_state with_event
            set_scanCompleted libraryName region applications scanStarted];
     rewrite <- ?app_assoc; reflexivity).
Qed.

(** X14: the reporter always writes a file, whatever the arguments: the
    CSV file unless [--json] is given without [--csv], the JSON file with
    [--json], and with both flags the JSON file before the CSV file. *)
Theorem writeResults_always_writes_a_file (toISOString : Z -> string)
  (p : Process) :
  let files := filter is_file (report_events toISOString p) in
  filter is_file (events (snd (writeResults toISOString p)))
  = (filter is_file (events p) ++ files)%list
  /\ files <> []
  /\ files
     = ((if array_includes (argv p) "--json"
         then [WriteFile (report_name toISOString p ".json")
                 (json_of (chosen_records p))]
         else [])
        ++ (if array_includes (argv p) "--csv"
               || negb (array_includes (argv p) "--json")
            then [WriteFile (report_name toISOString p ".csv")
                    (csv_text (toCSV (chosen_records p)))]
            else []))%list.
Proof.
  cbv zeta. rewrite writeResults_reported. cbn [snd reported events].
  rewrite filter_app. split; [reflexivity|].
  unfold report_events.
  destruct (array_includes (argv p) "--json"),
           (array_includes (argv p) "--csv");
    cbn [orb negb filter is_file app]; split; (discriminate || reflexivity).
Qed.

Lemma ceil_div_1000_bounds (x : Z) :
  (1000 * (ceil_div_1000 x - 1) < x <= 1000 * ceil_div_1000 x)%Z.
Proof.
  unfold ceil_div_1000.
  pose proof (Z.div_mod (- x) 1000 ltac:(lia)) as Hd.
  pose proof (Z.mod_pos_bound (- x) 1000 ltac:(lia)) as Hm.
  lia.
Qed.

(** X15: the reporter stores the first reading of the clock as
    [scanCompleted] and the elapsed milliseconds, rounded up to whole
    seconds, as [scanDurationSec]; nothing else of [STATE] changes. *)
Theorem writeResults_records_the_duration (toISOString : Z -> string)
  (p : Process) :
  let st' := state (snd (writeResults toISOString p)) in
  let elapsed := (first_reading p - scanStarted (state p))%Z in
  scanCompleted st' = val (first_reading p)
  /\ (exists d, scanDurationSec st' = val d
                /\ (1000 * (d - 1) < elapsed <= 1000 * d)%Z)
  /\ applications st' = applications (state p)
  /\ scanStarted st' = scanStarted (state p)
  /\ accountIds st' = accountIds (state p)
  /\ (apiKey st', region st', libraryName st')
     = (apiKey (state p), region (state p), libraryName (state p)).
Proof.
  cbv zeta. rewrite writeResults_reported.
  cbn [snd reported state set_scanCompleted scanCompleted scanDurationSec
         applications scanStarted accountIds apiKey region libraryName].
  split; [reflexivity|]. split; [|repeat split].
  eexists. split; [reflexivity|]. apply ceil_div_1000_bounds.
Qed.

Lemma includes_colon_cons (c : ascii) (s : string) :
  includes (String c s) ":" = Ascii.eqb c ":" || includes s ":".
Proof.
  cbn [includes String.prefix].
  destruct (ascii_dec ":" c) as [<-|Hne].
  - destruct s; reflexivity.
  - assert (E : Ascii.eqb c ":" = false)
      by (apply Ascii.eqb_neq; congruence).
    rewrite E. reflexivity.
Qed.

Lemma replace_colons_no_colon (s : string) :
  includes (replace_colons s) ":" = false.
Proof.
  induction s as [|c s IH]; [reflexivity|].
  cbn [replace_colons]. rewrite includes_colon_cons, IH, orb_false_r.
  destruct (Ascii.eqb c ":") eqn:E; [reflexivity | exact E].
Qed.

(** X16: every file of the reporter is named after the library, the
    region and the time of writing with its colons replaced, so the stamp
    in the name has no colon, whatever [toISOString] returns. *)
Theorem writeResults_file_names (toISOString : Z -> string) (p : Process) :
  events (snd (writeResults toISOString p))
  = (events p ++ report_events toISOString p)%list
  /\ Forall (named_as_scan_file (state p)) (report_events toISOString p).
Proof.
  rewrite writeResults_reported. split; [reflexivity|].
  assert (N : forall extension,
             extension = ".json" \/ extension = ".csv" ->
             scan_file_name (state p) (report_name toISOString p extension)).
  { intros extension H.
    exists (replace_colons (toISOString (second_reading p))), extension.
    split; [reflexivity|]. split; [apply replace_colons_no_colon | exact H]. }
  unfold report_events.
  constructor; [exact I|]. apply Forall_app. split.
  - destruct (array_includes (argv p) "--json"); [|constructor].
    constructor; [apply N; auto|]. constructor; [exact I | constructor].
  - destruct (array_includes (argv p) "--csv"
              || negb (array_includes (argv p) "--json")); [|constructor].
    constructor; [apply N; auto|]. constructor; [exact I | constructor].
Qed.

(* ================================================================== *)
(** ** What a run leaves alone *)
(* ================================================================== *)

Section Keeps.
Variable K : State -> list string -> Prop.

Lemma keeps_halt {A : Type} (o : Outcome A) : keeps K (fun p => (o, p)).
Proof. intros p o' p' H E. inversion E; subst. exact H. Qed.

Lemma keeps_bind {A B : Type} (c : Proc A) (k : A -> Proc B) :
  keeps K c -> (forall a, keeps K (k a)) -> keeps K (bind c k).
Proof.
  intros Hc Hk p o p' H E. unfold bind in E.
  destruct (c p) as [[a|e|n|e| |] p1] eqn:Ec;
    try (inversion E; subst; apply (Hc _ _ _ H Ec)).
  apply (Hk a p1 o p'); [apply (Hc _ _ _ H Ec) | exact E].
Qed.

Lemma keeps_try_catch {A : Type} (c : Proc A) (h : JsError -> Proc A) :
  keeps K c -> (forall e, keeps K (h e)) -> keeps K (try_catch c h).
Proof.
  intros Hc Hh p o p' H E. unfold try_catch in E.
  destruct (c p) as [[a|e|n|e| |] p1] eqn:Ec;
    try (inversion E; subst; apply (Hc _ _ _ H Ec)).
  apply (Hh e p1 o p'); [apply (Hc _ _ _ H Ec) | exact E].
Qed.

Lemma keeps_emit (e : Event) : keeps K (emit e).
Proof. intros p o p' H E. inversion E; subst. exact H. Qed.

Lemma keeps_get_state : keeps K get_state.
Proof. intros p o p' H E. inversion E; subst. exact H. Qed.

Lemma keeps_get_argv : keeps K get_argv.
Proof. intros p o p' H E. inversion E; subst. exact H. Qed.

Lemma keeps_Date_now : keeps K Date_now.
Proof.
  intros p o p' H E. unfold Date_now in E.
  destruct (clock p); inversion E; subst; exact H.
Qed.

Lemma keeps_deref {A : Type} (x : option A) (msg : string) :
  keeps K (deref x msg).
Proof. destruct x; apply keeps_halt. Qed.

Lemma keeps_modify_state (f : State -> State) :
  (forall s a, K s a -> K (f s) a) -> keeps K (modify_state f).
Proof. intros Hf p o p' H E. inversion E; subst. simpl. apply Hf, H. Qed.

Lemma keeps_nerdgraphQuery (key : string) (query : Query)
  (variables : Variables) :
  keeps K (nerdgraphQuery key query variables).
Proof.
  intros p o p' H E.
  destruct (nerdgraphQuery_frame _ _ _ _ E) as (Hs & Ha & _).
  rewrite Hs, Ha. exact H.
Qed.

Lemma keeps_for_of {A : Type} (body : A -> Proc unit) (l : list A) :
  (forall x, keeps K (body x)) -> keeps K (for_of l body).
Proof.
  intro Hb. induction l as [|x l IH]; simpl.
  - apply keeps_halt.
  - apply keeps_bind; [apply Hb | intros _; exact IH].
Qed.

(** The writes of the scan: the dictionary, and the two fields of the
    reporter. *)
Hypothesis K_applications :
  forall m s a, K s a -> K (set_applications m s) a.
Hypothesis K_scanCompleted :
  forall t d s a, K s a -> K (set_scanCompleted t d s) a.

Ltac keeps_step :=
  first
    [ solve [unfold stdout_write, stderr_write, process_exit, ret, throw;
             auto using keeps_halt, keeps_emit, keeps_get_state,
               keeps_get_argv, keeps_Date_now, keeps_deref,
               keeps_nerdgraphQuery]
    | apply keeps_modify_state; intros;
      solve [apply K_applications; assumption
            |apply K_scanCompleted; assumption]
    | apply keeps_bind; [|intro]
    | apply keeps_try_catch; [|intro]
    | apply keeps_for_of; intro ].

Lemma keeps_writeResults (toISOString : Z -> string) :
  keeps K (writeResults toISOString).
Proof.
  unfold writeResults. repeat keeps_step.
  - destruct (array_includes _ _); repeat keeps_step.
  - destruct (array_includes _ _ || negb _); repeat keeps_step.
Qed.

Lemma keeps_findServices_pages (fuel : nat) :
  forall resultSet batch, keeps K (findServices_pages fuel resultSet batch).
Proof.
  induction fuel as [|fuel IH]; intros resultSet batch; simpl.
  - apply keeps_halt.
  - destruct resultSet as [d|]; [|apply keeps_halt].
    unfold entitySearch_of. repeat keeps_step.
    destruct (nextCursor _) as [| |cursor]; try apply keeps_halt.
    destruct (truthy_string cursor); [|apply keeps_halt].
    repeat keeps_step.
Qed.

Lemma keeps_findServices_directory (fuel : nat) :
  keeps K (findServices_directory fuel).
Proof.
  unfold findServices_directory, entitySearch_of. repeat keeps_step.
  apply keeps_findServices_pages.
Qed.

Lemma keeps_findModulesByEntity_loop (l : list (string * Application)) :
  forall progress entityCount,
    keeps K (findModulesByEntity_loop l progress entityCount).
Proof.
  induction l as [|[key application] l IH]; intros progress entityCount;
    simpl.
  - apply keeps_halt.
  - apply keeps_bind.
    + unfold findModulesByEntity_body. repeat keeps_step.
      destruct (entity_shape _) as [[e instances]|]; repeat keeps_step.
    + intros _. apply keeps_bind; [apply keeps_emit|]. intros _. apply IH.
Qed.

Lemma keeps_findModulesByEntity (toISOString : Z -> string) :
  keeps K (findModulesByEntity toISOString).
Proof.
  unfold findModulesByEntity.
  apply keeps_bind; [apply keeps_get_state|]. intro st.
  apply keeps_bind; [apply keeps_emit|]. intros _.
  apply keeps_bind; [apply keeps_findModulesByEntity_loop|]. intros _.
  apply keeps_bind; [apply keeps_emit|]. intros _.
  apply keeps_writeResults.
Qed.

Lemma keeps_findModulesByAccount_result (atob : string -> option string)
  (accountId : nullable Z) (result : ModuleResult) :
  keeps K (findModulesByAccount_result atob accountId result).
Proof.
  unfold findModulesByAccount_result.
  apply keeps_bind; [apply keeps_deref|]. intros [|m loaded].
  - apply keeps_halt.
  - apply keeps_bind; [apply keeps_deref|]. intro d.
    apply keeps_bind.
    { destruct (d_name d); apply keeps_halt. }
    intro name. apply keeps_for_of. intro module.
    apply keeps_bind.
    { destruct (applicationGuids result) as [[|g gs]|];
        first [apply keeps_halt | apply keeps_emit]. }
    intros _. apply keeps_bind; [apply keeps_deref|]. intro guids.
    apply keeps_for_of. intro g.
    apply keeps_modify_state. intros s a Hs. apply K_applications. exact Hs.
Qed.

Lemma keeps_findModulesByAccount_pages (atob : string -> option string)
  (fuel : nat) :
  forall accountId data batch,
    keeps K (findModulesByAccount_pages atob fuel accountId data batch).
Proof.
  induction fuel as [|fuel IH]; intros accountId data batch; simpl.
  - apply keeps_halt.
  - destruct (account_shape data) as [page|]; [|apply keeps_halt].
    apply keeps_bind.
    { apply keeps_for_of. intro result.
      apply keeps_findModulesByAccount_result. }
    intros _. destruct (am_nextCursor page) as [| |cursor];
      try apply keeps_halt.
    destruct (truthy_string cursor); [|apply keeps_halt].
    apply keeps_bind; [apply keeps_emit|]. intros _.
    apply keeps_bind; [apply keeps_get_state|]. intro st.
    apply keeps_bind; [apply keeps_nerdgraphQuery|]. intro data'.
    apply IH.
Qed.

Lemma keeps_findModulesByAccount_loop (atob : string -> option string)
  (fuel : nat) (l : list (nullable Z)) :
  forall progress accountCount,
    keeps K (findModulesByAccount_loop atob fuel l progress accountCount).
Proof.
  induction l as [|accountId l IH]; intros progress accountCount; simpl.
  - apply keeps_halt.
  - apply keeps_bind; [apply keeps_emit|]. intros _.
    apply keeps_bind.
    + unfold findModulesByAccount_body. apply keeps_try_catch.
      * apply keeps_bind; [apply keeps_get_state|]. intro st.
        apply keeps_bind; [apply keeps_nerdgraphQuery|]. intro data.
        apply keeps_findModulesByAccount_pages.
      * intro err. apply keeps_emit.
    + intros _. apply IH.
Qed.

Lemma keeps_findModulesByAccount (atob : string -> option string)
  (toISOString : Z -> string) (fuel : nat) :
  keeps K (findModulesByAccount atob toISOString fuel).
Proof.
  unfold findModulesByAccount.
  apply keeps_bind; [apply keeps_get_state|]. intro st.
  apply keeps_bind; [apply keeps_findModulesByAccount_loop|].
  intros _. apply keeps_bind; [apply keeps_emit|].
  intros _. apply keeps_writeResults.
Qed.

Lemma keeps_findServices (atob : string -> option string)
  (toISOString : Z -> string) (fuel : nat) :
  keeps K (findServices atob toISOString fuel).
Proof.
  unfold findServices.
  apply keeps_bind; [apply keeps_findServices_directory|]. intros _.
  apply keeps_bind; [apply keeps_get_argv|]. intro args.
  destruct (negb (array_includes args "--quick-scan")).
  - apply keeps_findModulesByEntity.
  - apply keeps_findModulesByAccount.
Qed.

End Keeps.

(** X17: a run of [findServices] changes neither the key, the account
    ids, the region, the library name and the start time in [STATE] nor
    the arguments of the process, whatever the endpoint replies and
    however the run ends. *)
Theorem findServices_keeps_the_settings (atob : string -> option string)
  (toISOString : Z -> string) (fuel : nat) (p : Process) :
  let p' := snd (findServices atob toISOString fuel p) in
  settings (state p') (argv p') = settings (state p) (argv p).
Proof.
  intro p'. subst p'.
  destruct (findServices atob toISOString fuel p) as [o q] eqn:E.
  cbn [snd].
  apply (@keeps_findServices
           (fun s a => settings s a = settings (state p) (argv p)))
    with (atob := atob) (toISOString := toISOString) (fuel := fuel)
         (p := p) (o := o); try assumption; try reflexivity.
  - intros m s a H. exact H.
  - intros t d s a H. exact H.
Qed.

(* ================================================================== *)
(** ** What the phases do to the dictionary as a whole *)
(* ================================================================== *)

Section Closed.
Variable I : Obj.t Application -> Prop.

Lemma closed_store_entities (es : list Entity) :
  (forall m e, I m -> I (store_entity m e)) ->
  forall m, I m -> I (fold_left store_entity es m).
Proof.
  intro H. induction es as [|e es IH]; intros m Hm; simpl; auto.
Qed.

Lemma closed_findServices_pages (fuel : nat) :
  (forall m e, I m -> I (store_entity m e)) ->
  forall resultSet batch,
    preserves I (findServices_pages fuel resultSet batch).
Proof.
  intro H. induction fuel as [|fuel IH]; intros resultSet batch; simpl.
  - apply preserves_halt.
  - destruct resultSet as [d|]; [|apply preserves_ret].
    unfold entitySearch_of. repeat pres_step.
    + apply preserves_modify_state. intros s Hs.
      apply closed_store_entities; assumption.
    + destruct (nextCursor _) as [| |cursor]; try apply preserves_ret.
      destruct (truthy_string cursor); [|apply preserves_ret].
      repeat pres_step.
Qed.

Lemma closed_findServices_directory (fuel : nat) :
  (forall m e, I m -> I (store_entity m e)) ->
  preserves I (findServices_directory fuel).
Proof.
  intro H. unfold findServices_directory, entitySearch_of. repeat pres_step.
  apply closed_findServices_pages. exact H.
Qed.

Lemma closed_findModulesByEntity_loop (l : list (string * Application)) :
  (forall k a e instances m,
     In (k, a) l -> I m -> I (Obj.set k (enrich_application e instances a) m)) ->
  forall progress entityCount,
    preserves I (findModulesByEntity_loop l progress entityCount).
Proof.
  induction l as [|[key application] l IH]; intros Hl progress entityCount;
    simpl.
  - apply preserves_ret.
  - apply preserves_bind.
    + intros p o p' H E. rewrite findModulesByEntity_body_cases in E.
      destruct (entity_query application p) as [o1 p1] eqn:Hq.
      unfold entity_query in Hq.
      destruct (nerdgraphQuery_frame _ _ _ _ Hq) as (Hs & _).
      rewrite <- Hs in H.
      destruct o1 as [data|e|n|e| |]; try (inversion E; subst; exact H).
      destruct (entity_shape data) as [[e instances]|];
        inversion E; subst; simpl; [|exact H].
      apply Hl; [left; reflexivity | exact H].
    + intros _. apply preserves_bind; [apply preserves_emit|].
      intros _. apply IH.
      intros k a e instances m Hin. apply Hl. right. exact Hin.
Qed.

Lemma closed_findModulesByEntity (toISOString : Z -> string) (p : Process) :
  (forall k a e instances m,
     In (k, a) (applications (state p)) -> I m ->
     I (Obj.set k (enrich_application e instances a) m)) ->
  forall o p',
    I (applications (state p)) ->
    findModulesByEntity toISOString p = (o, p') ->
    I (applications (state p')).
Proof.
  intros Hl o p' H E. unfold findModulesByEntity in E.
  unfold bind at 1, get_state in E.
  match type of E with
  | ?c p = _ => assert (G : preserves I c)
  end.
  { apply preserves_bind; [apply preserves_emit|].
    intros _. apply preserves_bind.
    + apply closed_findModulesByEntity_loop. exact Hl.
    + intros _. apply preserves_bind; [apply preserves_emit|].
      intros _. apply preserves_writeResults. }
  exact (G p o p' H E).
Qed.

Lemma closed_findModulesByAccount (atob : string -> option string)
  (toISOString : Z -> string) (fuel : nat) :
  (forall accountId appName module g m,
     I m -> I (merge_account_module atob accountId appName module g m)) ->
  preserves I (findModulesByAccount atob toISOString fuel).
Proof.
  intro Hm.
  assert (R : forall accountId result,
             preserves I (findModulesByAccount_result atob accountId result)).
  { intros accountId result. unfold findModulesByAccount_result.
    apply preserves_bind; [apply preserves_deref|]. intros [|m loaded].
    - apply preserves_ret.
    - apply preserves_bind; [apply preserves_deref|]. intro d.
      apply preserves_bind.
      { destruct (d_name d); auto with pres. }
      intro name. apply preserves_for_of. intro module.
      apply preserves_bind.
      { destruct (applicationGuids result) as [[|g gs]|];
          unfold stdout_write; auto with pres. }
      intros _. apply preserves_bind; [apply preserves_deref|]. intro guids.
      apply preserves_for_of. intro g.
      apply preserves_modify_state. intros s Hs. simpl. apply Hm. exact Hs. }
  assert (P : forall fuel' accountId data batch,
             preserves I
               (findModulesByAccount_pages atob fuel' accountId data batch)).
  { induction fuel' as [|fuel' IH]; intros accountId data batch; simpl.
    - apply preserves_halt.
    - destruct (account_shape data) as [page|]; [|apply preserves_ret].
      apply preserves_bind.
      { apply preserves_for_of. intro result. apply R. }
      intros _. destruct (am_nextCursor page) as [| |cursor];
        try apply preserves_ret.
      destruct (truthy_string cursor); [|apply preserves_ret].
      apply preserves_bind; [apply preserves_emit|]. intros _.
      apply preserves_bind; [apply preserves_get_state|]. intro st.
      apply preserves_bind; [apply preserves_nerdgraphQuery|]. intro data'.
      apply IH. }
  assert (L : forall l progress accountCount,
             preserves I
               (findModulesByAccount_loop atob fuel l progress accountCount)).
  { induction l as [|accountId l IH]; intros progress accountCount; simpl.
    - apply preserves_ret.
    - apply preserves_bind; [apply preserves_emit|]. intros _.
      apply preserves_bind.
      + unfold findModulesByAccount_body. apply preserves_try_catch.
        * apply preserves_bind; [apply preserves_get_state|]. intro st.
          apply preserves_bind; [apply preserves_nerdgraphQuery|]. intro data.
          apply P.
        * intro err. apply preserves_emit.
      + intros _. apply IH. }
  unfold findModulesByAccount.
  apply preserves_bind; [apply preserves_get_state|]. intro st.
  apply preserves_bind; [apply L|].
  intros _. apply preserves_bind; [apply preserves_emit|].
  intros _. apply preserves_writeResults.
Qed.

End Closed.

Lemma keys_set_present (V : Type) (k : string) (v : V) (o : Obj.t V) :
  In k (Obj.keys o) -> Obj.keys (Obj.set k v o) = Obj.keys o.
Proof.
  unfold Obj.keys. induction o as [|[k0 v0] o IH]; simpl; [intros []|].
  destruct (String.eqb_spec k k0); simpl; [reflexivity|].
  intros [H|H]; [congruence|]. rewrite IH by exact H. reflexivity.
Qed.

Lemma keys_set_grows (V : Type) (k : string) (v : V) (o : Obj.t V) :
  exists more, Obj.keys (Obj.set k v o) = (Obj.keys o ++ more)%list.
Proof.
  unfold Obj.keys. induction o as [|[k0 v0] o IH]; simpl.
  - exists [k]. reflexivity.
  - destruct (String.eqb_spec k k0); simpl.
    + exists []. rewrite app_nil_r. reflexivity.
    + destruct IH as [more IH]. exists more. rewrite IH. reflexivity.
Qed.

Lemma begins_with_set (ks : list string) (k : string) (a : Application)
  (apps : Obj.t Application) :
  begins_with ks apps -> begins_with ks (Obj.set k a apps).
Proof.
  intros [more H]. destruct (keys_set_grows k a apps) as [more' H'].
  exists (more ++ more')%list. rewrite H', H, app_assoc. reflexivity.
Qed.

Lemma begins_with_store_entity (ks : list string) (apps : Obj.t Application)
  (e : Entity) :
  begins_with ks apps -> begins_with ks (store_entity apps e).
Proof.
  intro H. unfold store_entity. destruct (e_guid e) as [| |g]; try exact H.
  destruct (truthy_string g); [apply begins_with_set|]; exact H.
Qed.

Lemma begins_with_merge_account_module (atob : string -> option string)
  (ks : list string) (accountId : nullable Z) (appName : string)
  (module : Module) (g : string) (apps : Obj.t Application) :
  begins_with ks apps ->
  begins_with ks (merge_account_module atob accountId appName module g apps).
Proof.
  intro H. unfold merge_account_module.
  destruct (Obj.get g apps) as [a|] eqn:Hget.
  - rewrite Hget. apply begins_with_set. exact H.
  - rewrite get_set_same. apply begins_with_set, begins_with_set. exact H.
Qed.

Lemma in_order_begins (ks more : list string) : in_order ks (ks ++ more).
Proof.
  induction ks as [|k ks IH]; simpl; [apply in_order_nil|].
  apply in_order_same. exact IH.
Qed.

Lemma in_order_In (ks l : list string) :
  in_order ks l -> forall k, In k ks -> In k l.
Proof.
  induction 1 as [l|k0 ks l H IH|k0 ks l H IH]; intros k Hk.
  - destruct Hk.
  - right. apply IH. exact Hk.
  - destruct Hk as [->|Hk]; [left; reflexivity | right; apply IH; exact Hk].
Qed.

(** X18: a run of [findServices] never removes an entry of the
    dictionary and never changes the order of the entries it found
    among themselves: every key present at the start is a key at the
    end, and these keys follow one another as they did (keys that the
    run adds may come anywhere), whichever strategy runs, whatever the
    endpoint replies and however the run ends. *)
Theorem findServices_never_removes_an_entry (atob : string -> option string)
  (toISOString : Z -> string) (fuel : nat) (p : Process) :
  let before := Obj.keys (applications (state p)) in
  let after :=
    Obj.keys
      (applications (state (snd (findServices atob toISOString fuel p)))) in
  in_order before after /\ forall k, In k before -> In k after.
Proof.
  cbv zeta.
  set (ks := Obj.keys (applications (state p))).
  assert (G : begins_with ks
                (applications
                   (state (snd (findServices atob toISOString fuel p))))).
  { assert (H0 : begins_with ks (applications (state p)))
      by (exists []; symmetry; apply app_nil_r).
    destruct (findServices atob toISOString fuel p) as [o q] eqn:E.
    cbn [snd]. revert E. unfold findServices, bind at 1.
    destruct (findServices_directory fuel p) as [o1 p1] eqn:E1.
    assert (H1 : begins_with ks (applications (state p1))).
    { assert (D : preserves (begins_with ks) (findServices_directory fuel)).
      { apply closed_findServices_directory. intros m e H.
        apply begins_with_store_entity. exact H. }
      exact (D p o1 p1 H0 E1). }
    destruct o1 as [[]|e|n|e| |]; try (intro E; inversion E; subst; exact H1).
    unfold bind at 1, get_argv.
    destruct (negb (array_includes (argv p1) "--quick-scan")); intro E.
    - apply (@closed_findModulesByEntity (begins_with ks) toISOString p1)
        with (o := o); try assumption.
      intros k a e instances m _. apply begins_with_set.
    - assert (D : preserves (begins_with ks)
                    (findModulesByAccount atob toISOString fuel)).
      { apply closed_findModulesByAccount.
        intros accountId appName module g m H.
        apply begins_with_merge_account_module. exact H. }
      exact (D p1 o q H1 E). }
  destruct G as [more G]. rewrite G.
  split; [apply in_order_begins|].
  apply in_order_In, in_order_begins.
Qed.

(** X19: the per-entity enricher neither adds nor removes nor moves an
    entry: the dictionary has the same keys in the same order afterwards,
    whatever the endpoint replies and however the phase ends. *)
Theorem findModulesByEntity_keeps_the_keys (toISOString : Z -> string)
  (p : Process) :
  Obj.keys (applications (state (snd (findModulesByEntity toISOString p))))
  = Obj.keys (applications (state p)).
Proof.
  destruct (findModulesByEntity toISOString p) as [o q] eqn:E. cbn [snd].
  apply (@closed_findModulesByEntity
           (fun m => Obj.keys m = Obj.keys (applications (state p)))
           toISOString p) with (o := o); try assumption; try reflexivity.
  intros k a e instances m Hin Hm. rewrite <- Hm. apply keys_set_present.
  rewrite Hm. apply (in_map fst) in Hin. exact Hin.
Qed.

(* ================================================================== *)
(** ** What the enrichers leave of a record *)
(* ================================================================== *)

Lemma identity_enrich_application (e : EntityData) (instances : list Instance)
  (a : Application) :
  identity (enrich_application e instances a) = identity a.
Proof. rewrite enrich_application_patch. reflexivity. Qed.

Lemma merge_attribute_rest (a : Application) (x : Attribute) :
  rest_of_record (merge_attribute a x) = rest_of_record a.
Proof.
  unfold merge_attribute.
  destruct (nullable_is (attr_name x) "sha1Checksum"
            && truthy truthy_string (attr_value x));
    destruct (nullable_is (attr_name x) "sha512Checksum"
              && truthy truthy_string (attr_value x)); reflexivity.
Qed.

Lemma merge_attributes_rest (l : list Attribute) (a : Application) :
  rest_of_record (fold_left merge_attribute l a) = rest_of_record a.
Proof.
  revert a. induction l as [|x l IH]; intro a; [reflexivity|].
  cbn [fold_left]. rewrite IH. apply merge_attribute_rest.
Qed.

Lemma merge_module_rest (a : Application) (m : Module) :
  identity (merge_module a m) = identity a
  /\ agentVersion (merge_module a m) = agentVersion a
  /\ examinedInstances (merge_module a m) = examinedInstances a.
Proof.
  assert (H : rest_of_record (merge_module a m) = rest_of_record a).
  { unfold merge_module. destruct (mod_attributes m) as [l|].
    - rewrite merge_attributes_rest. reflexivity.
    - reflexivity. }
  split; [exact (f_equal (fun t => fst (fst t)) H)|].
  split; [exact (f_equal (fun t => snd (fst t)) H) | exact (f_equal snd H)].
Qed.

(** X20: the per-entity enricher leaves what identifies a record: its
    guid, name, ids, [reporting] flag and link are afterwards what they
    were, whatever the endpoint replies; only the agent and library
    fields can change. *)
Theorem findModulesByEntity_keeps_identity (toISOString : Z -> string)
  (p : Process) (g : string) (a0 : Application) :
  NoDup (Obj.keys (applications (state p))) ->
  Obj.get g (applications (state p)) = Some a0 ->
  identified g a0
    (applications (state (snd (findModulesByEntity toISOString p)))).
Proof.
  intros Hnd Hget.
  destruct (findModulesByEntity toISOString p) as [o q] eqn:E. cbn [snd].
  apply (@closed_findModulesByEntity (identified g a0) toISOString p)
    with (o := o); try assumption.
  - intros k a e instances m Hin [a1 [H1 H2]].
    destruct (string_dec k g) as [->|Hne].
    + assert (a = a0).
      { apply (in_get _ _ _ Hnd) in Hin. congruence. }
      subst a. exists (enrich_application e instances a0).
      split; [apply get_set_same | apply identity_enrich_application].
    + exists a1. split; [|exact H2].
      rewrite get_set_other by exact Hne. exact H1.
  - exists a0. split; [exact Hget | reflexivity].
Qed.

Lemma identified_merge_account_module (atob : string -> option string)
  (g : string) (a0 : Application) (accountId : nullable Z) (appName : string)
  (module : Module) (g' : string) (apps : Obj.t Application) :
  identified_with_agent g a0 apps ->
  identified_with_agent g a0
    (merge_account_module atob accountId appName module g' apps).
Proof.
  intros [a [H1 H2]]. unfold merge_account_module.
  destruct (string_dec g' g) as [->|Hne].
  - rewrite H1, H1. exists (merge_module a module).
    split; [apply get_set_same|].
    destruct (merge_module_rest a module) as (M1 & M2 & M3).
    rewrite M1, M2, M3. exact H2.
  - destruct (Obj.get g' apps) as [b|] eqn:Hb.
    + rewrite Hb. exists a. split; [|exact H2].
      rewrite get_set_other by exact Hne. exact H1.
    + rewrite get_set_same. exists a. split; [|exact H2].
      rewrite !get_set_other by exact Hne. exact H1.
Qed.

(** X21: the per-account enricher writes only the library fields of a
    record that the dictionary already has: guid, name, ids, [reporting]
    flag, link, agent version and the count of examined instances are
    afterwards what they were, whatever the endpoint replies. *)
Theorem findModulesByAccount_writes_library_fields_only
  (atob : string -> option string) (toISOString : Z -> string) (fuel : nat)
  (p : Process) (g : string) (a0 : Application) :
  Obj.get g (applications (state p)) = Some a0 ->
  identified_with_agent g a0
    (applications
       (state (snd (findModulesByAccount atob toISOString fuel p)))).
Proof.
  intro Hget.
  destruct (findModulesByAccount atob toISOString fuel p) as [o q] eqn:E.
  cbn [snd].
  assert (D : preserves (identified_with_agent g a0)
                (findModulesByAccount atob toISOString fuel)).
  { apply closed_findModulesByAccount. intros accountId appName module g' m H.
    apply identified_merge_account_module. exact H. }
  apply (D p o q); [|exact E].
  exists a0. repeat split. exact Hget.
Qed.

Lemma without_agent_fields_set (k : string) (a : Application)
  (apps : Obj.t Application) :
  agentVersion a = undefined -> examinedInstances a = undefined ->
  without_agent_fields apps -> without_agent_fields (Obj.set k a apps).
Proof.
  intros H1 H2 H k' a' Hin. apply in_set in Hin.
  destruct Hin as [[-> ->]|Hin]; [split; assumption | apply (H k' a' Hin)].
Qed.

Lemma without_agent_fields_store_entity (apps : Obj.t Application)
  (e : Entity) :
  without_agent_fields apps -> without_agent_fields (store_entity apps e).
Proof.
  intro H. unfold store_entity. destruct (e_guid e) as [| |g]; try exact H.
  destruct (truthy_string g); [|exact H].
  apply without_agent_fields_set; [reflexivity | reflexivity | exact H].
Qed.

Lemma without_agent_fields_merge_account_module
  (atob : string -> option string) (accountId : nullable Z) (appName : string)
  (module : Module) (g : string) (apps : Obj.t Application) :
  without_agent_fields apps ->
  without_agent_fields
    (merge_account_module atob accountId appName module g apps).
Proof.
  intro H. unfold merge_account_module.
  destruct (Obj.get g apps) as [a|] eqn:Hget.
  - rewrite Hget. destruct (merge_module_rest a module) as (_ & M2 & M3).
    destruct (H g a (get_in _ _ Hget)) as [A1 A2].
    apply without_agent_fields_set; [congruence | congruence | exact H].
  - rewrite get_set_same.
    destruct (merge_module_rest (new_application atob accountId g appName)
                module) as (_ & M2 & M3).
    apply without_agent_fields_set; [rewrite M2; reflexivity
                                    |rewrite M3; reflexivity|].
    apply without_agent_fields_set; [reflexivity | reflexivity | exact H].
Qed.

(** X22: with [--quick-scan] no record gets an agent version or a count
    of examined instances: if no record has them before [findServices]
    runs (as in the empty dictionary of a fresh scan), none has them
    afterwards. *)
Theorem quick_scan_reports_no_agent_version (atob : string -> option string)
  (toISOString : Z -> string) (fuel : nat) (p : Process) :
  array_includes (argv p) "--quick-scan" = true ->
  without_agent_fields (applications (state p)) ->
  without_agent_fields
    (applications (state (snd (findServices atob toISOString fuel p)))).
Proof.
  intros Hq H0.
  destruct (findServices atob toISOString fuel p) as [o q] eqn:E.
  cbn [snd]. revert E. unfold findServices, bind at 1.
  destruct (findServices_directory fuel p) as [o1 p1] eqn:E1.
  assert (H1 : without_agent_fields (applications (state p1))).
  { assert (D : preserves without_agent_fields (findServices_directory fuel)).
    { apply closed_findServices_directory. intros m e H.
      apply without_agent_fields_store_entity. exact H. }
    exact (D p o1 p1 H0 E1). }
  assert (Ha : argv p1 = argv p).
  { apply (@keeps_findServices_directory (fun _ a => a = argv p)) with
      (fuel := fuel) (p := p) (o := o1); auto. }
  destruct o1 as [[]|e|n|e| |]; try (intro E; inversion E; subst; exact H1).
  unfold bind at 1, get_argv. rewrite Ha, Hq. cbn [negb]. intro E.
  assert (D : preserves without_agent_fields
                (findModulesByAccount atob toISOString fuel)).
  { apply closed_findModulesByAccount. intros accountId appName module g m H.
    apply without_agent_fields_merge_account_module. exact H. }
  exact (D p1 o q H1 E).
Qed.

Lemma set_set (V : Type) (k : string) (v v' : V) (o : Obj.t V) :
  Obj.set k v (Obj.set k v' o) = Obj.set k v o.
Proof.
  induction o as [|[k0 v0] o IH]; simpl.
  - rewrite String.eqb_refl. reflexivity.
  - destruct (String.eqb k k0) eqn:E; simpl; rewrite E; [reflexivity|].
    rewrite IH. reflexivity.
Qed.

Lemma merge_module_twice (a : Application) (m : Module) :
  merge_module (merge_module a m) m = merge_module a m.
Proof. rewrite !merge_module_patch. apply apply_twice. Qed.

(** X23: merging a module of an account result for a guid a second time
    changes nothing: the dictionary after two merges is the dictionary
    after one, whether the guid had a record or got one made. *)
Theorem merge_account_module_twice (atob : string -> option string)
  (accountId : nullable Z) (appName : string) (module : Module) (g : string)
  (apps : Obj.t Application) :
  merge_account_module atob accountId appName module g
    (merge_account_module atob accountId appName module g apps)
  = merge_account_module atob accountId appName module g apps.
Proof.
  assert (E : exists x apps0,
             merge_account_module atob accountId appName module g apps
             = Obj.set g (merge_module x module) apps0).
  { unfold merge_account_module.
    destruct (Obj.get g apps) as [a|] eqn:Hget.
    - rewrite Hget. exists a, apps. reflexivity.
    - rewrite get_set_same. eexists. eexists. reflexivity. }
  destruct E as (x & apps0 & E). rewrite E.
  rewrite (@merge_account_module_present atob accountId appName module g
             (Obj.set g (merge_module x module) apps0) (merge_module x module)
             (get_set_same g _ apps0)).
  rewrite merge_module_twice. apply set_set.
Qed.

(* ================================================================== *)
(** ** Lookups that give nothing to merge *)
(* ================================================================== *)

Lemma add_events_nil (p : Process) : add_events [] p = p.
Proof. apply process_eq; simpl; try reflexivity. apply app_nil_r. Qed.

Lemma add_events_cons (e : Event) (evs : list Event) (p : Process) :
  add_events (e :: evs) p = add_events evs (with_event e p).
Proof.
  apply process_eq; simpl; try reflexivity. rewrite <- app_assoc. reflexivity.
Qed.

(** X24: an account whose lookup gives no data, or data without the
    nesting down to [modules], is passed over: the body of the loop
    returns with the process as the lookup left it, with no line of its
    own on [stdout] or [stderr] and no write into the dictionary. *)
Theorem findModulesByAccount_passes_over_account_without_modules
  (atob : string -> option string) (fuel : nat) (accountId : nullable Z)
  (p p1 : Process) (data : option Data) :
  nerdgraphQuery (apiKey (state p)) getModulesInAccount
    (vars_account accountId (libraryName (state p))) p = (Ret data, p1) ->
  account_shape data = None ->
  findModulesByAccount_body atob (S fuel) accountId p = (Ret tt, p1).
Proof.
  intros Hq Hs. unfold findModulesByAccount_body, try_catch.
  unfold bind at 1, get_state. unfold bind at 1. rewrite Hq.
  cbn [findModulesByAccount_pages]. rewrite Hs. reflexivity.
Qed.

Lemma for_of_warnings (A : Type) (l : list A) (body : A -> Proc unit)
  (line : A -> Event) (p : Process) :
  (forall x q, body x q = (Ret tt, with_event (line x) q)) ->
  for_of l body p = (Ret tt, add_events (map line l) p).
Proof.
  intro Hb. revert p. induction l as [|x l IH]; intro p.
  - cbn [for_of map]. rewrite add_events_nil. reflexivity.
  - cbn [for_of map]. unfold bind. rewrite Hb, IH, add_events_cons.
    reflexivity.
Qed.

(** X25: a result with modules and an empty list of application guids
    gives one warning for each of its modules, in order, and nothing
    else: no record is written, and the scan goes on. *)
Theorem result_with_no_guid_only_warns (atob : string -> option string)
  (accountId : nullable Z) (result : ModuleResult) (m : Module)
  (ms : list Module) (d : Details) (n : string) (p : Process) :
  loadedModules result = Some (m :: ms) ->
  details result = Some d ->
  d_name d = val n ->
  applicationGuids result = Some [] ->
  findModulesByAccount_result atob accountId result p
  = (Ret tt, add_events (map (guidless_warning d n) (m :: ms)) p).
Proof.
  intros Hl Hd Hn Hg. unfold findModulesByAccount_result.
  rewrite Hl. unfold bind at 1, deref at 1, ret at 1.
  rewrite Hd. unfold bind at 1, deref at 1, ret at 1.
  rewrite Hn. unfold bind at 1, ret at 1. rewrite Hg.
  apply for_of_warnings. intros x q. reflexivity.
Qed.

(** X26: a result with modules whose list of application guids is
    missing gives the warning for its first module and then a
    [TypeError], which the [catch] of the account reports: the rest of
    that result, the results after it and the later pages of the account
    are left out, the dictionary is as before, and the loop goes on with
    the next account. *)
Theorem result_with_missing_guids_ends_the_account
  (atob : string -> option string) (fuel : nat) (accountId : nullable Z)
  (p : Process) (r : option string * Data) (rest : list Attempt)
  (page : AccountModules) (bad : ModuleResult) (later : list ModuleResult)
  (m : Module) (ms : list Module) (d : Details) (n : string) :
  replies p = served r :: rest ->
  account_shape (Some (snd r)) = Some page ->
  am_results page = Some (bad :: later) ->
  loadedModules bad = Some (m :: ms) ->
  details bad = Some d ->
  d_name d = val n ->
  applicationGuids bad = None ->
  exists msg,
    findModulesByAccount_body atob (S fuel) accountId p
    = (Ret tt,
       with_replies rest
         (add_events
            (account_request (state p) accountId :: first_log (served r)
             ++ [guidless_warning d n m;
                 account_error accountId (TypeError msg)]) p)).
Proof.
  intros Hr Hs Hp Hl Hd Hn Hg. eexists.
  unfold findModulesByAccount_body, try_catch.
  unfold bind at 1, get_state. unfold bind at 1.
  rewrite (@nerdgraphQuery_served _ _ _ p r rest Hr).
  cbn [findModulesByAccount_pages]. rewrite Hs, Hp.
  unfold bind at 1. cbn [for_of]. unfold bind at 1.
  unfold findModulesByAccount_result.
  rewrite Hl. unfold bind at 1, deref at 1, ret at 1.
  rewrite Hd. unfold bind at 1, deref at 1, ret at 1.
  rewrite Hn. unfold bind at 1, ret at 1. rewrite Hg.
  cbn [for_of].
  unfold deref, stdout_write, stderr_write, emit, throw, bind, account_request,
    guidless_warning, account_error.
  f_equal. apply process_eq; simpl; try reflexivity.
  rewrite <- !app_assoc. reflexivity.
Qed.

(* ================================================================== *)
(** ** A listing that breaks off *)
(* ================================================================== *)

(** X27: when both attempts of the first listing query fail transiently,
    [findServices] ends with a [TypeError] that nothing in it catches:
    no enricher runs, no report is written, and the dictionary is as
    before. *)
Theorem findServices_without_first_page (atob : string -> option string)
  (toISOString : Z -> string) (fuel : nat) (p : Process) (a1 a2 : Attempt)
  (rest : list Attempt) :
  transient a1 = true -> transient a2 = true ->
  replies p = a1 :: a2 :: rest ->
  exists msg,
    findServices atob toISOString fuel p
    = (Throw (TypeError msg),
       with_replies rest
         (add_events
            (scanning_line
             :: request_of (apiKey (state p)) getServices vars_none
             :: first_log a1
             ++ request_of (apiKey (state p)) getServices vars_none
             :: second_log a2) p)).
Proof.
  intros H1 H2 Hr. eexists.
  unfold findServices, bind at 1, findServices_directory.
  unfold bind at 1, stdout_write, emit. unfold bind at 1, get_state.
  unfold bind at 1. cbn [state with_event].
  rewrite (@nerdgraphQuery_retry_then_fail _ _ _
             (with_event
                (Stdout ("Scanning your accounts, this may take some time..."
                         ++ LF)) p) a1 a2 rest H1 H2 Hr).
  unfold bind at 1, entitySearch_of, deref. unfold bind at 1, throw.
  f_equal. unfold scanning_line, request_of.
  apply process_eq; simpl; try reflexivity.
  rewrite <- !app_assoc. reflexivity.
Qed.

(** X28: when both attempts for a further page of the listing fail
    transiently, the listing ends there without an error: the entities
    of the pages read so far are in the dictionary, and the caller goes
    on to scan them as if the listing were complete. *)
Theorem findServices_pages_stops_at_a_failed_page (fuel batch : nat)
  (d : Data) (es : list Entity) (cursor : string) (p : Process)
  (a1 a2 : Attempt) (rest : list Attempt) :
  page_view d = Some (es, val cursor) ->
  truthy_string cursor = true ->
  transient a1 = true -> transient a2 = true ->
  replies p = a1 :: a2 :: rest ->
  findServices_pages (S (S fuel)) (Some d) batch p
  = (Ret tt,
     with_replies rest
       (add_events
          (Stdout (spinner batch)
           :: request_of (apiKey (state p)) getMoreServices
                (vars_cursor cursor)
           :: first_log a1
           ++ request_of (apiKey (state p)) getMoreServices
                (vars_cursor cursor)
           :: second_log a2) (stored es p))).
Proof.
  intros Hv Hc H1 H2 Hr.
  rewrite (@findServices_pages_next (S fuel) batch d es cursor p Hv Hc).
  unfold bind at 1.
  rewrite (@nerdgraphQuery_retry_then_fail _ _ _
             (with_event (Stdout (spinner batch)) (stored es p)) a1 a2 rest
             H1 H2 Hr).
  cbn [findServices_pages]. unfold ret. f_equal. unfold request_of.
  apply process_eq; simpl; try reflexivity.
  rewrite <- !app_assoc. reflexivity.
Qed.

(* ================================================================== *)
(** ** The per-entity enricher over a dictionary *)
(* ================================================================== *)

Lemma set_middle (V : Type) (k : string) (v a : V) (seen l : Obj.t V) :
  ~ In k (Obj.keys seen) ->
  Obj.set k v (seen ++ (k, a) :: l)%list = (seen ++ (k, v) :: l)%list.
Proof.
  unfold Obj.keys. induction seen as [|[k0 v0] seen IH]; simpl; intro H.
  - rewrite String.eqb_refl. reflexivity.
  - destruct (String.eqb_spec k k0) as [->|Hne]; [tauto|].
    rewrite IH by tauto. reflexivity.
Qed.

Lemma requests_with_event (e : Event) (p : Process) :
  requests (with_event e p)
  = (requests p ++ if is_request e then [e] else [])%list.
Proof.
  unfold requests. cbn [events with_event]. rewrite filter_app.
  cbn [filter]. destruct (is_request e); reflexivity.
Qed.

Lemma entity_step_of_body (key : string) (a : Application)
  (r : option string * Data) (more : list Attempt) (p : Process)
  (seen l : Obj.t Application) :
  replies p = served r :: more ->
  applications (state p) = (seen ++ (key, a) :: l)%list ->
  ~ In key (Obj.keys seen) ->
  exists p1,
    findModulesByEntity_body key a p = (Ret tt, p1)
    /\ applications (state p1)
       = ((seen ++ [entity_step ((key, a), r)]) ++ l)%list
    /\ replies p1 = more
    /\ requests p1 = (requests p ++ [entity_request (state p) (key, a)])%list
    /\ settings (state p1) (argv p1) = settings (state p) (argv p).
Proof.
  intros Hr Ha Hk. rewrite findModulesByEntity_body_cases.
  unfold entity_query.
  rewrite (@nerdgraphQuery_served _ _ _ p r more Hr).
  assert (Q : requests
                (with_replies more
                   (add_events
                      (Request (apiKey (state p)) getModulesInEntity
                         (vars_entity (guid a) (libraryName (state p)))
                       :: first_log (served r)) p))
              = (requests p ++ [entity_request (state p) (key, a)])%list).
  { change (requests (with_replies ?x ?y)) with (requests y).
    rewrite requests_add_events. cbn [filter is_request].
    rewrite requests_first_log. reflexivity. }
  unfold entity_step, enriched. cbn [fst snd].
  destruct (entity_shape (Some (snd r))) as [[e instances]|].
  - eexists. split; [reflexivity|].
    cbn [state with_state with_replies add_events applications
           set_applications replies argv].
    rewrite Ha, set_middle by exact Hk.
    rewrite <- app_assoc. repeat split. exact Q.
  - eexists. split; [reflexivity|].
    rewrite requests_with_event. cbn [is_request entity_warning].
    rewrite app_nil_r.
    cbn [state with_event with_replies add_events replies argv].
    rewrite Ha, <- app_assoc. repeat split. exact Q.
Qed.

Lemma findModulesByEntity_loop_served (l : list (string * Application)) :
  forall (rs : list (option string * Data)) (seen : Obj.t Application)
         (p : Process) (progress entityCount : nat) (rest : list Attempt),
    length rs = length l ->
    applications (state p) = (seen ++ l)%list ->
    NoDup (Obj.keys (seen ++ l)%list) ->
    replies p = (map served rs ++ rest)%list ->
    exists p',
      findModulesByEntity_loop l progress entityCount p = (Ret tt, p')
      /\ applications (state p')
         = (seen ++ map entity_step (combine l rs))%list
      /\ replies p' = rest
      /\ requests p'
         = (requests p ++ map (entity_request (state p)) l)%list
      /\ settings (state p') (argv p') = settings (state p) (argv p).
Proof.
  induction l as [|[key a] l IH];
    intros rs seen p progress entityCount rest Hlen Ha Hnd Hr.
  - destruct rs; [|discriminate]. exists p. cbn [map combine] in *.
    rewrite !app_nil_r. rewrite app_nil_r in Ha. repeat split; assumption.
  - destruct rs as [|r rs]; [discriminate|]. cbn [map app] in Hr.
    assert (Hk : ~ In key (Obj.keys seen)).
    { unfold Obj.keys in *. rewrite map_app in Hnd. cbn [map fst] in Hnd.
      apply NoDup_remove_2 in Hnd. intro H. apply Hnd.
      apply in_or_app. left. exact H. }
    destruct (@entity_step_of_body key a r (map served rs ++ rest)%list p
                seen l Hr Ha Hk) as (p1 & E1 & A1 & R1 & Q1 & S1).
    rewrite (@findModulesByEntity_loop_step key a l progress entityCount p p1
               E1).
    set (p2 := with_event (Stdout (scanning_service (S progress) entityCount))
                 p1).
    assert (Hnd2 : NoDup (Obj.keys ((seen ++ [entity_step ((key, a), r)])
                                    ++ l)%list)).
    { unfold Obj.keys in *. rewrite <- app_assoc.
      rewrite map_app in *. exact Hnd. }
    destruct (IH rs (seen ++ [entity_step ((key, a), r)])%list p2
                (S progress) entityCount rest) as (p' & E & A & R & Q & S);
      try assumption.
    { cbn [length] in Hlen. lia. }
    exists p'. split; [exact E|]. split.
    { rewrite A. cbn [combine map]. rewrite <- app_assoc. reflexivity. }
    split; [exact R|]. split.
    + rewrite Q. unfold p2. rewrite requests_with_event. cbn [is_request].
      rewrite app_nil_r, Q1, <- app_assoc. cbn [map app]. f_equal. f_equal.
      apply map_ext. intro ka. unfold entity_request.
      cbn [state with_event]. unfold settings in S1.
      inversion S1 as [[K1 K2 K3 K4 K5 K6]]. rewrite K1, K4. reflexivity.
    + rewrite S. exact S1.
Qed.

Lemma requests_report_events (toISOString : Z -> string) (p : Process) :
  filter is_request (report_events toISOString p) = [].
Proof.
  unfold report_events. cbn [filter is_request]. rewrite filter_app.
  destruct (array_includes (argv p) "--json");
    destruct (array_includes (argv p) "--csv"); reflexivity.
Qed.

(** X29: when every lookup is answered with data at its first attempt,
    the per-entity enricher returns after exactly one request for each
    record, sent in the order of the dictionary with the guid of the
    record; record by record the dictionary holds the merge of the
    answer (or the record as it was, when the answer lacks
    [applicationInstances]), and no reply beyond these is read. *)
Theorem findModulesByEntity_one_lookup_per_record (toISOString : Z -> string)
  (p : Process) (rs : list (option string * Data)) (rest : list Attempt) :
  NoDup (Obj.keys (applications (state p))) ->
  length rs = length (applications (state p)) ->
  replies p = (map served rs ++ rest)%list ->
  let p' := snd (findModulesByEntity toISOString p) in
  fst (findModulesByEntity toISOString p) = Ret tt
  /\ applications (state p')
     = map entity_step (combine (applications (state p)) rs)
  /\ requests p'
     = (requests p
        ++ map (entity_request (state p)) (applications (state p)))%list
  /\ replies p' = rest.
Proof.
  intros Hnd Hlen Hr. cbv zeta.
  set (n := length (Obj.values (applications (state p)))).
  set (p0 := with_event (Stdout (scanning_service 0 n)) p).
  destruct (@findModulesByEntity_loop_served (applications (state p)) rs []
              p0 0 n rest Hlen eq_refl Hnd Hr) as (p1 & E & A & R & Q & S).
  assert (F : findModulesByEntity toISOString p
              = (Ret tt,
                 reported toISOString
                   (with_event
                      (Stdout (CR ++ "Scanning modules (service "
                               ++ string_of_Z (Z.of_nat n) ++ " of "
                               ++ string_of_Z (Z.of_nat n)
                               ++ ")...  done." ++ LF)) p1))).
  { unfold findModulesByEntity, bind at 1, get_state.
    unfold bind at 1, stdout_write, emit.
    fold n. fold p0. unfold bind at 1. rewrite E. unfold bind at 1.
    apply writeResults_reported. }
  rewrite F. cbn [fst snd]. split; [reflexivity|].
  cbn [reported state set_scanCompleted applications replies with_event].
  split; [exact A|]. split; [|exact R].
  unfold requests. cbn [events reported with_event].
  rewrite filter_app, requests_report_events, app_nil_r.
  rewrite filter_app. cbn [filter is_request].
  rewrite app_nil_r. fold (requests p1). rewrite Q.
  unfold p0. rewrite requests_with_event. cbn [is_request].
  rewrite app_nil_r. reflexivity.
Qed.

(* ================================================================== *)
(** ** The further theorems on the sample inputs *)
(* ================================================================== *)

Lemma nerdgraphQuery_first_reply_with_data_witness :
  let p := Sample.process Sample.STATE
             [served Sample.page1; served Sample.page2] [] in
  fst (nerdgraphQuery "NRAK-KEY" getServices vars_none p)
  = Ret (Some (snd Sample.page1))
  /\ replies (snd (nerdgraphQuery "NRAK-KEY" getServices vars_none p))
     = [served Sample.page2].
Proof.
  intro p.
  destruct (@nerdgraphQuery_first_reply_with_data "NRAK-KEY" getServices
              vars_none p Sample.page1 [served Sample.page2] eq_refl)
    as (H1 & _ & H3 & _).
  split; [exact H1 | exact H3].
Defined.

Lemma nerdgraphQuery_second_reply_with_data_witness :
  let p := Sample.process Sample.STATE
             [net_error Sample.hang_up; served Sample.page2] [] in
  fst (nerdgraphQuery "NRAK-KEY" getServices vars_none p)
  = Ret (Some (snd Sample.page2)).
Proof.
  intro p.
  apply (proj1 (@nerdgraphQuery_second_reply_with_data "NRAK-KEY" getServices
                  vars_none p (net_error Sample.hang_up) Sample.page2 []
                  ltac:(vm_compute; reflexivity) eq_refl)).
Defined.

Lemma nerdgraphQuery_two_failures_give_undefined_witness :
  let p := Sample.process Sample.STATE SampleAccount.failures [] in
  fst (nerdgraphQuery "NRAK-KEY" getServices vars_none p) = Ret None
  /\ replies (snd (nerdgraphQuery "NRAK-KEY" getServices vars_none p)) = [].
Proof.
  intro p.
  destruct (@nerdgraphQuery_two_failures_give_undefined "NRAK-KEY" getServices
              vars_none p (net_error Sample.hang_up)
              (http_body (Some resp_null)) []
              ltac:(vm_compute; reflexivity) ltac:(vm_compute; reflexivity)
              eq_refl) as (H1 & _ & H3).
  split; [exact H1 | exact H3].
Defined.

Lemma escapeCsv_read_back_witness :
  read_cell (escapeCsv (val "Acme, Inc.")) = "Acme, Inc.".
Proof.
  apply (@escapeCsv_read_back "Acme, Inc.").
  left. vm_compute. reflexivity.
Defined.

Lemma findModulesByEntity_keeps_identity_witness :
  identified "A" Sample.application_A
    (applications
       (state
          (snd (findModulesByEntity plain_timestamp
                  (Sample.process Sample.with_A
                     [served (None, Sample.lookup (Some Sample.versions)
                                      Sample.instances)] []))))).
Proof.
  apply (@findModulesByEntity_keeps_identity plain_timestamp
           (Sample.process Sample.with_A
              [served (None, Sample.lookup (Some Sample.versions)
                               Sample.instances)] [])
           "A" Sample.application_A).
  - simpl. constructor; [intros [] | constructor].
  - reflexivity.
Defined.

Lemma findModulesByAccount_writes_library_fields_only_witness :
  identified_with_agent "A" Sample.application_A
    (applications
       (state
          (snd (findModulesByAccount Base64.atob plain_timestamp 2
                  (Sample.process Sample.with_A
                     [served (None,
                              SampleAccount.page [SampleAccount.assigned])]
                     ["--quick-scan"]))))).
Proof.
  apply (@findModulesByAccount_writes_library_fields_only Base64.atob
           plain_timestamp 2
           (Sample.process Sample.with_A
              [served (None, SampleAccount.page [SampleAccount.assigned])]
              ["--quick-scan"])
           "A" Sample.application_A).
  reflexivity.
Defined.

Lemma quick_scan_reports_no_agent_version_witness :
  let p := Sample.process Sample.STATE
             [served Sample.page2;
              served (None, SampleAccount.page [SampleAccount.assigned])]
             ["--quick-scan"] in
  array_includes (argv p) "--quick-scan" = true
  /\ without_agent_fields
       (applications
          (state (snd (findServices Base64.atob plain_timestamp 2 p)))).
Proof.
  intro p.
  assert (H1 : array_includes (argv p) "--quick-scan" = true)
    by (vm_compute; reflexivity).
  assert (H2 : without_agent_fields (applications (state p)))
    by (intros k a H; destruct H).
  split; [exact H1|].
  exact (@quick_scan_reports_no_agent_version Base64.atob plain_timestamp 2 p
           H1 H2).
Defined.

Lemma findModulesByAccount_passes_over_account_without_modules_witness :
  let p := Sample.process Sample.STATE SampleAccount.failures
             ["--quick-scan"] in
  findModulesByAccount_body Base64.atob 1 (val 1%Z) p
  = (Ret tt,
     snd (nerdgraphQuery "NRAK-KEY" getModulesInAccount
            (vars_account (val 1%Z) "log4j-core") p)).
Proof.
  intro p.
  apply (@findModulesByAccount_passes_over_account_without_modules
           Base64.atob 0 (val 1%Z) p
           (snd (nerdgraphQuery "NRAK-KEY" getModulesInAccount
                   (vars_account (val 1%Z) "log4j-core") p)) None).
  - vm_compute. reflexivity.
  - reflexivity.
Defined.

Lemma result_with_no_guid_only_warns_witness :
  let p := Sample.process Sample.STATE [] ["--quick-scan"] in
  findModulesByAccount_result Base64.atob (val 1%Z) SampleAccount.unassigned p
  = (Ret tt,
     add_events
       [guidless_warning SampleAccount.host_details "java:billing:8080"
          SampleAccount.jar] p).
Proof.
  intro p.
  apply (@result_with_no_guid_only_warns Base64.atob (val 1%Z)
           SampleAccount.unassigned SampleAccount.jar []
           SampleAccount.host_details "java:billing:8080" p);
    reflexivity.
Defined.

Lemma result_with_missing_guids_ends_the_account_witness :
  let r := (@None string,
            SampleAccount.page [SampleAccount.unlisted;
                                SampleAccount.assigned]) in
  let p := Sample.process Sample.STATE
             [served r;
              served (None, SampleAccount.page [SampleAccount.assigned])]
             ["--quick-scan"] in
  exists p',
    findModulesByAccount_body Base64.atob 1 (val 1%Z) p = (Ret tt, p')
    /\ replies p'
       = [served (None, SampleAccount.page [SampleAccount.assigned])]
    /\ applications (state p') = [].
Proof.
  intros r p.
  destruct (@result_with_missing_guids_ends_the_account Base64.atob 0
              (val 1%Z) p r
              [served (None, SampleAccount.page [SampleAccount.assigned])]
              (SampleAccount.modules_page [SampleAccount.unlisted;
                                           SampleAccount.assigned])
              SampleAccount.unlisted [SampleAccount.assigned]
              SampleAccount.jar [] SampleAccount.host_details
              "java:billing:8080"
              eq_refl eq_refl eq_refl eq_refl eq_refl eq_refl eq_refl)
    as [msg H].
  eexists. split; [exact H|]. split; reflexivity.
Defined.

Lemma findServices_without_first_page_witness :
  let p := Sample.process Sample.STATE SampleAccount.failures [] in
  exists msg p',
    findServices Base64.atob plain_timestamp 2 p = (Throw (TypeError msg), p')
    /\ replies p' = [] /\ applications (state p') = [].
Proof.
  intro p.
  destruct (@findServices_without_first_page Base64.atob plain_timestamp 2 p
              (net_error Sample.hang_up) (http_body (Some resp_null)) []
              ltac:(vm_compute; reflexivity) ltac:(vm_compute; reflexivity)
              eq_refl) as [msg H].
  exists msg. eexists. split; [exact H|]. split; reflexivity.
Defined.

Lemma findServices_pages_stops_at_a_failed_page_witness :
  let p := Sample.process Sample.STATE SampleAccount.failures [] in
  exists p',
    findServices_pages 2 (Some (snd Sample.page1)) 1 p = (Ret tt, p')
    /\ Obj.keys (applications (state p')) = ["A"; "B"]
    /\ replies p' = [].
Proof.
  intro p.
  pose proof (@findServices_pages_stops_at_a_failed_page 0 1
                (snd Sample.page1)
                [Sample.service "A" 11; Sample.service "B" 12] "cursor-1" p
                (net_error Sample.hang_up) (http_body (Some resp_null)) []
                eq_refl eq_refl
                ltac:(vm_compute; reflexivity) ltac:(vm_compute; reflexivity)
                eq_refl) as H.
  eexists. split; [exact H|]. split; reflexivity.
Defined.

Lemma findModulesByEntity_one_lookup_per_record_witness :
  let answer := (@None string,
                 Sample.lookup (Some Sample.versions) Sample.instances) in
  let p := Sample.process Sample.with_A [served answer] [] in
  fst (findModulesByEntity plain_timestamp p) = Ret tt
  /\ applications (state (snd (findModulesByEntity plain_timestamp p)))
     = [entity_step (("A", Sample.application_A), answer)]
  /\ replies (snd (findModulesByEntity plain_timestamp p)) = [].
Proof.
  intros answer p.
  destruct (@findModulesByEntity_one_lookup_per_record plain_timestamp p
              [answer] []) as (H1 & H2 & _ & H4).
  - simpl. constructor; [intros [] | constructor].
  - reflexivity.
  - reflexivity.
  - split; [exact H1|]. split; [exact H2 | exact H4].
Defined.
